(** * LLM orchestration layer: providers, response cache, routing,
      fallback and salvage parsing

    A shallow embedding of
      - src/core/llm/base.py, claude.py, openai.py, bedrock.py (providers),
      - src/utils/cache.py (LLMCache),
      - src/core/llm/manager.py (LLMManager),
      - the callers of the manager in src/core/content/script_generator.py
        and topic_selector.py,
    followed by the properties of the specification that concern them
    and by further properties of the same code.

    Conventions of the embedding.
      - A Python [str] is the list of its Unicode code points ([pystr]).
      - Python values that travel through JSON are [pyval]; a float is
        kept as the decimal text that denotes it.
      - [datetime] values are integers, in microseconds; the clock is an
        explicit argument of every function that calls [datetime.now()].
      - Backends (the vendor SDK calls) are oracles: a function from the
        arguments of the call and the attempt number to what the SDK
        returns or raises.
      - The cache directory is a finite map from cache keys to files;
        a file holds an entry or text that does not parse. The file
        system itself does not fail: [open], [json.dump] and [unlink]
        do what they are asked, and text is encodable in UTF-8.
      - [json.dumps], [json.loads], [hashlib.md5], [str.strip] and
        [str.lower] follow CPython's implementations.
      - [logger] calls are left out, except the pricing warning of
        [get_cost]. *)

From Stdlib Require Import ZArith NArith List Ascii String Floats Uint63 Lia.
From stdpp Require Import base tactics option list sorting gmap pretty.

Set Warnings "-register-all,-inexact-float".

(** ** Python strings *)

Abbreviation pystr := (list N).

(** A literal: the code points of an ASCII text. *)
Definition py (s : string) : pystr :=
  (λ a, N_of_ascii a) <$> list_ascii_of_string s.

(** [str.isspace] for one character (the code points Python strips). *)
Definition isspace (c : N) : bool :=
  ((9 <=? c) && (c <=? 13) || (28 <=? c) && (c <=? 32) ||
   (c =? 133) || (c =? 160) || (c =? 5760) ||
   (8192 <=? c) && (c <=? 8202) ||
   (c =? 8232) || (c =? 8233) || (c =? 8239) || (c =? 8287) ||
   (c =? 12288))%N.

Fixpoint lstrip (s : pystr) : pystr :=
  match s with
  | c :: s' => if isspace c then lstrip s' else s
  | [] => []
  end.

Definition rstrip (s : pystr) : pystr := reverse (lstrip (reverse s)).

(** [str.strip()] *)
Definition strip (s : pystr) : pystr := rstrip (lstrip s).

(** [str.lower()]: exact on ASCII; U+212A (Kelvin sign) is the only
    other character whose lower case is ASCII. The lower case of any
    other character is not ASCII and is left as it is here, which keeps
    every comparison with an ASCII text right. *)
Definition lower_char (c : N) : N :=
  if ((65 <=? c) && (c <=? 90))%N then (c + 32)%N
  else if (c =? 8490)%N then 107%N else c.

Definition lower (s : pystr) : pystr := lower_char <$> s.

(** Python's order on [str]: lexicographic on code points. *)
Fixpoint str_leb (a b : pystr) : bool :=
  match a, b with
  | [], _ => true
  | _ :: _, [] => false
  | x :: a', y :: b' =>
      if (x <? y)%N then true
      else if (x =? y)%N then str_leb a' b' else false
  end.

(** ** Python values *)

Inductive pyval :=
| PNone
| PBool (b : bool)
| PInt (z : Z)
| PFloat (text : pystr)
| PStr (s : pystr)
| PList (l : list pyval)
| PDict (d : list (pystr * pyval)).

(** A [dict] is the list of its items in insertion order; keys are
    pairwise distinct when built with [dict_set]. *)
Abbreviation pydict := (list (pystr * pyval)).

Definition is_None (v : pyval) : bool :=
  match v with PNone => true | _ => false end.

(** The items kept by [{k: v for k, v in items if v is not None}]. *)
Definition not_None (kv : pystr * pyval) : Prop := is_None kv.2 = false.

Global Instance not_None_dec (kv : pystr * pyval) : Decision (not_None kv).
Proof. unfold not_None. apply _. Defined.

Fixpoint dict_set {V} (k : pystr) (v : V) (d : list (pystr * V)) : list (pystr * V) :=
  match d with
  | [] => [(k, v)]
  | (k', v') :: d' =>
      if decide (k' = k) then (k, v) :: d' else (k', v') :: dict_set k v d'
  end.

Fixpoint dict_get {V} (k : pystr) (d : list (pystr * V)) : option V :=
  match d with
  | [] => None
  | (k', v) :: d' => if decide (k' = k) then Some v else dict_get k d'
  end.

(** [{**d, **items}] and [dict(items)] *)
Definition dict_update {V} (d items : list (pystr * V)) : list (pystr * V) :=
  foldl (λ acc kv, dict_set kv.1 kv.2 acc) d items.

(** [sorted(d.items())] for items with distinct keys: by key. *)
Definition item_le {V} (a b : pystr * V) : Prop := str_leb a.1 b.1 = true.

Global Instance item_le_dec {V} (a b : pystr * V) : Decision (item_le a b).
Proof. unfold item_le. apply _. Defined.

Definition sorted {V} (items : list (pystr * V)) : list (pystr * V) :=
  merge_sort item_le items.

(** ** [json.dumps(obj, sort_keys=True)]

    Default separators, [ensure_ascii=True]. *)

Definition hex_digit (n : N) : N :=
  (if n <? 10 then 48 + n else 87 + n)%N.

(** ['\\u{0:04x}'.format(n)] *)
Definition u_escape (n : N) : pystr :=
  [92; 117]%N ++
  [hex_digit (n / 4096 mod 16); hex_digit (n / 256 mod 16);
   hex_digit (n / 16 mod 16); hex_digit (n mod 16)]%N.

(** One character of [encode_basestring_ascii]. *)
Definition escape_char (c : N) : pystr :=
  (if c =? 34 then py "\" ++ [34]
   else if c =? 92 then py "\\"
   else if c =? 10 then py "\n"
   else if c =? 13 then py "\r"
   else if c =? 9 then py "\t"
   else if c =? 12 then py "\f"
   else if c =? 8 then py "\b"
   else if (32 <=? c) && (c <=? 126) then [c]
   else if c <? 65536 then u_escape c
   else
     let v := c - 65536 in
     u_escape (55296 + v / 1024 mod 1024) ++ u_escape (56320 + v mod 1024))%N.

Definition encode_basestring_ascii (s : pystr) : pystr :=
  [34%N] ++ concat (escape_char <$> s) ++ [34%N].

Definition str_of_int (z : Z) : pystr := py (pretty z).

(** [', '.join(parts)] *)
Fixpoint join_comma (parts : list pystr) : pystr :=
  match parts with
  | [] => []
  | [p] => p
  | p :: rest => p ++ py ", " ++ join_comma rest
  end.

Fixpoint json_dumps (v : pyval) : pystr :=
  match v with
  | PNone => py "null"
  | PBool true => py "true"
  | PBool false => py "false"
  | PInt z => str_of_int z
  | PFloat text => text
  | PStr s => encode_basestring_ascii s
  | PList l => py "[" ++ join_comma (json_dumps <$> l) ++ py "]"
  | PDict d =>
      let fix items (d : pydict) : list (pystr * pystr) :=
        match d with
        | [] => []
        | (k, x) :: d' => (k, json_dumps x) :: items d'
        end in
      py "{" ++
      join_comma
        ((λ kv, encode_basestring_ascii kv.1 ++ py ": " ++ kv.2)
           <$> sorted (items d)) ++
      py "}"
  end.

(** ** [hashlib.md5(data).hexdigest()] (RFC 1321) *)

(** [str.encode()]: UTF-8. *)
Definition utf8_char (c : N) : list N :=
  (if c <? 128 then [c]
   else if c <? 2048 then [192 + c / 64; 128 + c mod 64]
   else if c <? 65536 then
     [224 + c / 4096; 128 + c / 64 mod 64; 128 + c mod 64]
   else
     [240 + c / 262144; 128 + c / 4096 mod 64; 128 + c / 64 mod 64;
      128 + c mod 64])%N.

Definition encode (s : pystr) : list N := concat (utf8_char <$> s).

Definition md5_shift : list Z :=
  [7; 12; 17; 22; 7; 12; 17; 22; 7; 12; 17; 22; 7; 12; 17; 22;
   5; 9; 14; 20; 5; 9; 14; 20; 5; 9; 14; 20; 5; 9; 14; 20;
   4; 11; 16; 23; 4; 11; 16; 23; 4; 11; 16; 23; 4; 11; 16; 23;
   6; 10; 15; 21; 6; 10; 15; 21; 6; 10; 15; 21; 6; 10; 15; 21]%Z.

Definition md5_sine : list Z :=
  [3614090360; 3905402710; 606105819; 3250441966; 4118548399; 1200080426;
   2821735955; 4249261313; 1770035416; 2336552879; 4294925233; 2304563134;
   1804603682; 4254626195; 2792965006; 1236535329; 4129170786; 3225465664;
   643717713; 3921069994; 3593408605; 38016083; 3634488961; 3889429448;
   568446438; 3275163606; 4107603335; 1163531501; 2850285829; 4243563512;
   1735328473; 2368359562; 4294588738; 2272392833; 1839030562; 4259657740;
   2763975236; 1272893353; 4139469664; 3200236656; 681279174; 3936430074;
   3572445317; 76029189; 3654602809; 3873151461; 530742520; 3299628645;
   4096336452; 1126891415; 2878612391; 4237533241; 1700485571; 2399980690;
   4293915773; 2240044497; 1873313359; 4264355552; 2734768916; 1309151649;
   4149444226; 3174756917; 718787259; 3951481745]%Z.

Definition w32 (x : Z) : Z := (x mod 4294967296)%Z.

Definition rotl32 (x c : Z) : Z :=
  w32 (Z.lor (Z.shiftl x c) (Z.shiftr x (32 - c))).

Definition not32 (x : Z) : Z := Z.lxor x 4294967295.

(** The message followed by 0x80, zeros up to 56 modulo 64, and its
    length in bits as 8 little-endian bytes. *)
Definition md5_pad (msg : list N) : list Z :=
  let n := length msg in
  let zeros := ((55 + 64 - n mod 64) mod 64)%nat in
  (Z.of_N <$> msg) ++ [128%Z] ++ replicate zeros 0%Z ++
  ((λ i, (Z.of_nat n * 8 / 2 ^ (8 * Z.of_nat i)) mod 256)%Z <$> seq 0 8).

Definition word_le (bs : list Z) : Z :=
  foldr (λ b acc, b + 256 * acc)%Z 0%Z bs.

Fixpoint md5_words (fuel : nat) (bs : list Z) : list Z :=
  match fuel with
  | O => []
  | S f => word_le (take 4 bs) :: md5_words f (drop 4 bs)
  end.

Definition md5_round (M : list Z) (st : Z * Z * Z * Z) (i : nat) : Z * Z * Z * Z :=
  let '(A, B, C, D) := st in
  let '(F, g) :=
    if (i <? 16)%nat then
      (Z.lor (Z.land B C) (Z.land (not32 B) D), i)
    else if (i <? 32)%nat then
      (Z.lor (Z.land D B) (Z.land (not32 D) C), ((5 * i + 1) mod 16)%nat)
    else if (i <? 48)%nat then
      (Z.lxor B (Z.lxor C D), ((3 * i + 5) mod 16)%nat)
    else
      (Z.lxor C (Z.lor B (not32 D)), ((7 * i) mod 16)%nat) in
  let F' := w32 (F + A + nth i md5_sine 0 + nth g M 0)%Z in
  (D, w32 (B + rotl32 F' (nth i md5_shift 0))%Z, B, C).

Definition md5_block (st : Z * Z * Z * Z) (block : list Z) : Z * Z * Z * Z :=
  let M := md5_words 16 block in
  let '(a0, b0, c0, d0) := st in
  let '(A, B, C, D) := foldl (md5_round M) st (seq 0 64) in
  (w32 (a0 + A), w32 (b0 + B), w32 (c0 + C), w32 (d0 + D))%Z.

Fixpoint md5_blocks (fuel : nat) (st : Z * Z * Z * Z) (bs : list Z) : Z * Z * Z * Z :=
  match fuel with
  | O => st
  | S f => md5_blocks f (md5_block st (take 64 bs)) (drop 64 bs)
  end.

Definition hex_byte (b : Z) : pystr :=
  [hex_digit (Z.to_N (b / 16)); hex_digit (Z.to_N (b mod 16))].

Definition hex_word_le (w : Z) : pystr :=
  concat ((λ i, hex_byte ((w / 2 ^ (8 * Z.of_nat i)) mod 256)%Z) <$> seq 0 4).

Definition md5_hexdigest (msg : list N) : pystr :=
  let bs := md5_pad msg in
  let '(a, b, c, d) :=
    md5_blocks (length bs / 64)
      (1732584193, 4023233417, 2562383102, 271733878)%Z bs in
  hex_word_le a ++ hex_word_le b ++ hex_word_le c ++ hex_word_le d.

(** ** The response cache (src/utils/cache.py) *)

Module LLMCache.

(** [_generate_cache_key(prompt, model, **kwargs)] *)
Definition _generate_cache_key (prompt model : pystr) (kwargs : pydict) : pystr :=
  let cache_input :=
    dict_update [(py "prompt", PStr prompt); (py "model", PStr model)]
      (filter not_None (sorted kwargs)) in
  let cache_str := json_dumps (PDict cache_input) in
  md5_hexdigest (encode cache_str).

(** What a cache file holds: the entry [set] dumped into it. *)
Record CacheEntry := {
  ce_prompt : pystr;
  ce_model : pystr;
  ce_response : option pystr;
  ce_cached_at : Z;
  ce_parameters : pydict
}.

(** The content of a file of the cache directory: an entry, or text
    that [json.load] rejects (an empty or partly written file). *)
Inductive CacheFile :=
| Entry (cache_data : CacheEntry)
| Unparsable.

(** The cache directory, by cache key ([_get_cache_path] is injective). *)
Abbreviation CacheDir := (gmap pystr CacheFile).

(** [timedelta(hours=h)], in microseconds. *)
Definition timedelta_hours (h : Z) : Z := (h * 3600 * 1000000)%Z.

(** [get(prompt, model, max_age_hours, **kwargs)], called at time [now];
    returns the response and the directory it leaves. *)
Definition get (prompt model : pystr) (max_age_hours : Z) (kwargs : pydict)
    (now : Z) (dir : CacheDir) : option pystr * CacheDir :=
  let cache_key := _generate_cache_key prompt model kwargs in
  match dir !! cache_key with
  | None => (None, dir)
  | Some Unparsable => (None, dir)
  | Some (Entry cache_data) =>
      let age := (now - ce_cached_at cache_data)%Z in
      if (age >? timedelta_hours max_age_hours)%Z
      then (None, delete cache_key dir)
      else (ce_response cache_data, dir)
  end.

(** [open(cache_path, "w")]: the file exists and is empty from here on. *)
Definition open_w (cache_key : pystr) (dir : CacheDir) : CacheDir :=
  <[cache_key := Unparsable]> dir.

(** [json.dump(cache_data, f)] and the end of the [with] block. *)
Definition dump (cache_key : pystr) (cache_data : CacheEntry) (dir : CacheDir) : CacheDir :=
  <[cache_key := Entry cache_data]> dir.

Definition cache_data_of (prompt model : pystr) (response : option pystr)
    (kwargs : pydict) (now : Z) : CacheEntry :=
  {| ce_prompt := prompt;
     ce_model := model;
     ce_response := response;
     ce_cached_at := now;
     ce_parameters := filter not_None kwargs |}.

(** [set(prompt, model, response, **kwargs)], called at time [now]. *)
Definition set (prompt model : pystr) (response : option pystr)
    (kwargs : pydict) (now : Z) (dir : CacheDir) : CacheDir :=
  let cache_key := _generate_cache_key prompt model kwargs in
  let cache_data := cache_data_of prompt model response kwargs now in
  dump cache_key cache_data (open_w cache_key dir).

(** The directory as another execution context can find it while [set]
    runs: before the file is opened, between [open] and [json.dump], and
    after the file is written. *)
Definition states_during_set (prompt model : pystr) (response : option pystr)
    (kwargs : pydict) (now : Z) (dir : CacheDir) : list CacheDir :=
  let cache_key := _generate_cache_key prompt model kwargs in
  let cache_data := cache_data_of prompt model response kwargs now in
  [dir; open_w cache_key dir; dump cache_key cache_data (open_w cache_key dir)].

(** What a reader's [open] and [json.load] find for a key. *)
Definition read_file (cache_key : pystr) (dir : CacheDir) : option CacheFile :=
  dir !! cache_key.

(** [self.cache_dir.glob("*.json")]: the files of the directory, each
    once. The file system lists them in an order of its own; the loops
    below take the listing as an argument, and their results are shown
    not to depend on its order. *)
Definition glob (dir : CacheDir) : list pystr := (map_to_list dir).*1.

(** The loop of [clear_expired] over the files listed. A file that
    cannot be opened or read as an entry is logged and left alone. *)
Fixpoint clear_expired_loop (cutoff_time : Z) (cache_files : list pystr)
    (dir : CacheDir) (cleared_count : nat) : nat * CacheDir :=
  match cache_files with
  | [] => (cleared_count, dir)
  | cache_file :: rest =>
      match dir !! cache_file with
      | Some (Entry cache_data) =>
          if (ce_cached_at cache_data <? cutoff_time)%Z
          then clear_expired_loop cutoff_time rest (delete cache_file dir)
                 (cleared_count + 1)
          else clear_expired_loop cutoff_time rest dir cleared_count
      | _ => clear_expired_loop cutoff_time rest dir cleared_count
      end
  end.

(** [clear_expired(max_age_hours)], called at time [now]: the number of
    entries cleared and the directory it leaves. *)
Definition clear_expired (max_age_hours : Z) (now : Z) (dir : CacheDir)
    : nat * CacheDir :=
  let cutoff_time := (now - timedelta_hours max_age_hours)%Z in
  clear_expired_loop cutoff_time (glob dir) dir 0.

(** The loop of [clear_all]; [unlink] of a file that is no longer there
    raises, which is logged. *)
Fixpoint clear_all_loop (cache_files : list pystr) (dir : CacheDir)
    (cleared_count : nat) : nat * CacheDir :=
  match cache_files with
  | [] => (cleared_count, dir)
  | cache_file :: rest =>
      match dir !! cache_file with
      | Some _ => clear_all_loop rest (delete cache_file dir) (cleared_count + 1)
      | None => clear_all_loop rest dir cleared_count
      end
  end.

(** [clear_all()] *)
Definition clear_all (dir : CacheDir) : nat * CacheDir :=
  clear_all_loop (glob dir) dir 0.

(** The loop of [get_cache_stats] that finds the oldest and the newest
    [cached_at]; a file that cannot be read as an entry is skipped. *)
Fixpoint oldest_newest (cache_files : list pystr) (dir : CacheDir)
    (oldest_time newest_time : option Z) : option Z * option Z :=
  match cache_files with
  | [] => (oldest_time, newest_time)
  | cache_file :: rest =>
      match dir !! cache_file with
      | Some (Entry cache_data) =>
          let cached_at := ce_cached_at cache_data in
          let oldest_time :=
            match oldest_time with
            | None => Some cached_at
            | Some t => if (cached_at <? t)%Z then Some cached_at else Some t
            end in
          let newest_time :=
            match newest_time with
            | None => Some cached_at
            | Some t => if (cached_at >? t)%Z then Some cached_at else Some t
            end in
          oldest_newest rest dir oldest_time newest_time
      | _ => oldest_newest rest dir oldest_time newest_time
      end
  end.

(** What [get_cache_stats()] returns under ["total_entries"],
    ["oldest_entry"] and ["newest_entry"], the two times before
    [isoformat()]. The fourth item, ["total_size_mb"], is computed from
    the sizes of the files, which the directory of this embedding does
    not hold. *)
Record CacheStats := {
  total_entries : nat;
  oldest_entry : option Z;
  newest_entry : option Z
}.

Definition get_cache_stats_over (cache_files : list pystr) (dir : CacheDir)
    : CacheStats :=
  let total_files := length cache_files in
  if (total_files =? 0)%nat
  then {| total_entries := 0; oldest_entry := None; newest_entry := None |}
  else
    let '(oldest_time, newest_time) := oldest_newest cache_files dir None None in
    {| total_entries := total_files;
       oldest_entry := oldest_time;
       newest_entry := newest_time |}.

Definition get_cache_stats (dir : CacheDir) : CacheStats :=
  get_cache_stats_over (glob dir) dir.

End LLMCache.

(** ** Providers (src/core/llm/base.py, claude.py, openai.py, bedrock.py) *)

Inductive ProviderKind := Claude | OpenAI | Bedrock.

Global Instance ProviderKind_eq_dec : EqDecision ProviderKind.
Proof. solve_decision. Defined.

(** Exceptions: the class that decides which [except] clause catches
    them, and [str(e)]. [RateLimitError] and [APIError] are those of the
    SDK of the provider at hand ([RateLimitError] is a subclass of
    [APIError]); [ClientError] is botocore's, with its error code. *)
Inductive ExnClass :=
| RateLimitError
| APIError
| ClientError (error_code : pystr)
| PyException.

Record exn := Exn { exn_class : ExnClass; exn_str : pystr }.

Inductive PyResult (A : Type) :=
| Return (a : A)
| Raise (e : exn).
Arguments Return {A} a.
Arguments Raise {A} e.

(** What one call of the SDK gives: the text taken from the reply
    ([None] when the reply has none), or an exception. *)
Inductive BackendResult :=
| BackendText (text : option pystr)
| BackendRaise (e : exn).

(** The arguments of [generate] together with the active model. *)
Record GenArgs := {
  ga_model : pystr;
  ga_prompt : pystr;
  ga_max_tokens : Z;
  ga_temperature : float;
  ga_kwargs : pydict
}.

Abbreviation Backend := (ProviderKind → GenArgs → nat → BackendResult).

Inductive Event :=
| EvGenerate (p : ProviderKind)
| EvCall (p : ProviderKind) (args : GenArgs) (attempt : nat)
| EvSleep (seconds : Z).

Module Provider.

(** [self.provider_name] *)
Definition provider_name (p : ProviderKind) : pystr :=
  match p with
  | Claude => py "claude"
  | OpenAI => py "openai"
  | Bedrock => py "bedrock"
  end.

(** [BaseLLMProvider.validate_response] *)
Definition validate_response (response : option pystr) : bool :=
  match response with
  | None => false
  | Some r =>
      if bool_decide (r = []) || bool_decide (strip r = []) then false
      else if (length (strip r) <? 10)%nat then false
      else true
  end.

(** [BaseLLMProvider.get_token_count] *)
Definition get_token_count (text : pystr) : Z := (Z.of_nat (length text) / 4)%Z.

Definition max_retries : nat := 3.
Definition retry_delay : Z := 1.

(** The exceptions of the retrying [except] clause: [RateLimitError]
    for the two SDK providers, a [ClientError] whose code is
    [ThrottlingException] for Bedrock. *)
Definition is_rate_limit (p : ProviderKind) (e : exn) : bool :=
  match p, exn_class e with
  | Claude, RateLimitError | OpenAI, RateLimitError => true
  | Bedrock, ClientError error_code =>
      bool_decide (error_code = py "ThrottlingException")
  | _, _ => false
  end.

Definition invalid_response (p : ProviderKind) : exn :=
  Exn PyException
    (match p with
     | Claude => py "Invalid response from Claude"
     | OpenAI => py "Invalid response from OpenAI"
     | Bedrock => py "Invalid response from Bedrock"
     end).

Definition not_configured (p : ProviderKind) : exn :=
  Exn PyException
    (match p with
     | Claude => py "Claude API key not configured"
     | OpenAI => py "OpenAI API key not configured"
     | Bedrock => py "AWS Bedrock not configured or boto3 not installed"
     end).

(** [for attempt in range(max_retries): ...] over the attempts that are
    left; falling out of the loop is Python's implicit [return None]. *)
Fixpoint retry_loop (backend : Backend) (p : ProviderKind) (args : GenArgs)
    (attempts : list nat) : PyResult (option pystr) * list Event :=
  match attempts with
  | [] => (Return None, [])
  | attempt :: rest =>
      match backend p args attempt with
      | BackendText response =>
          if validate_response response
          then (Return response, [EvCall p args attempt])
          else (Raise (invalid_response p), [EvCall p args attempt])
      | BackendRaise e =>
          if is_rate_limit p e then
            if (attempt <? max_retries - 1)%nat then
              let wait_time := (retry_delay * 2 ^ Z.of_nat attempt)%Z in
              let '(r, evs) := retry_loop backend p args rest in
              (r, EvCall p args attempt :: EvSleep wait_time :: evs)
            else (Raise e, [EvCall p args attempt])
          else (Raise e, [EvCall p args attempt])
      end
  end.

(** [generate(prompt, max_tokens, temperature, **kwargs)] of a provider
    whose client is [client] and whose active model is [ga_model args]. *)
Definition generate (backend : Backend) (p : ProviderKind) (client : bool)
    (args : GenArgs) : PyResult (option pystr) * list Event :=
  if negb client then (Raise (not_configured p), [EvGenerate p])
  else
    let '(r, evs) := retry_loop backend p args (seq 0 max_retries) in
    (r, EvGenerate p :: evs).

End Provider.

(** ** [json.loads] (json.decoder, json.scanner)

    The decoder works on what is left of the text. A float is returned
    as the text of its literal. Python's recursion limit is not part of
    the model: [fuel] only makes the recursion structural, and
    [S (2 * length s)] is enough for every text [s] ([json_loads_total]). *)

Inductive ParseResult (A : Type) :=
| POk (a : A) (rest : pystr)
| PErr
| PFuel.
Arguments POk {A} a rest.
Arguments PErr {A}.
Arguments PFuel {A}.

Definition is_json_ws (c : N) : bool :=
  ((c =? 32) || (c =? 9) || (c =? 10) || (c =? 13))%N.

(** [WHITESPACE.match(s, end).end()] *)
Fixpoint skip_ws (s : pystr) : pystr :=
  match s with
  | c :: s' => if is_json_ws c then skip_ws s' else s
  | [] => []
  end.

Fixpoint starts_with (prefix s : pystr) : bool :=
  match prefix, s with
  | [], _ => true
  | p :: prefix', c :: s' => (p =? c)%N && starts_with prefix' s'
  | _ :: _, [] => false
  end.

Definition is_digit (c : N) : bool := ((48 <=? c) && (c <=? 57))%N.

Definition hex_value (c : N) : option N :=
  (if (48 <=? c) && (c <=? 57) then Some (c - 48)
   else if (65 <=? c) && (c <=? 70) then Some (c - 55)
   else if (97 <=? c) && (c <=? 102) then Some (c - 87)
   else None)%N.

(** [_decode_uXXXX]: the value of four hexadecimal digits. *)
Definition decode_uXXXX (h1 h2 h3 h4 : N) : option N :=
  a ← hex_value h1; b ← hex_value h2; c ← hex_value h3; d ← hex_value h4;
  Some (a * 4096 + b * 256 + c * 16 + d)%N.

(** [BACKSLASH] *)
Definition backslash (esc : N) : option N :=
  (if esc =? 34 then Some 34
   else if esc =? 92 then Some 92
   else if esc =? 47 then Some 47
   else if esc =? 98 then Some 8
   else if esc =? 102 then Some 12
   else if esc =? 110 then Some 10
   else if esc =? 114 then Some 13
   else if esc =? 116 then Some 9
   else None)%N.

Definition cons_char (c : N) (r : option (pystr * pystr)) : option (pystr * pystr) :=
  match r with
  | Some (chars, rest) => Some (c :: chars, rest)
  | None => None
  end.

(** [py_scanstring(s, end, strict=True)], from the character after the
    opening quote: the string and the text after its closing quote. *)
Fixpoint scanstring (s : pystr) : option (pystr * pystr) :=
  match s with
  | [] => None
  | c :: s1 =>
      if (c =? 34)%N then Some ([], s1)
      else if (c =? 92)%N then
        match s1 with
        | [] => None
        | esc :: s2 =>
            if (esc =? 117)%N then
              match s2 with
              | h1 :: h2 :: h3 :: h4 :: s3 =>
                  match decode_uXXXX h1 h2 h3 h4 with
                  | None => None
                  | Some uni =>
                      if ((55296 <=? uni) && (uni <=? 56319))%N then
                        match s3 with
                        | b :: u :: s4 =>
                            if ((b =? 92) && (u =? 117))%N then
                              match s4 with
                              | g1 :: g2 :: g3 :: g4 :: s5 =>
                                  match decode_uXXXX g1 g2 g3 g4 with
                                  | None => None
                                  | Some uni2 =>
                                      if ((56320 <=? uni2) && (uni2 <=? 57343))%N
                                      then cons_char
                                             (65536 + ((uni - 55296) * 1024 + (uni2 - 56320)))%N
                                             (scanstring s5)
                                      else cons_char uni (scanstring s3)
                                  end
                              | _ => None
                              end
                            else cons_char uni (scanstring s3)
                        | _ => cons_char uni (scanstring s3)
                        end
                      else cons_char uni (scanstring s3)
                  end
              | _ => None
              end
            else
              match backslash esc with
              | Some char => cons_char char (scanstring s2)
              | None => None
              end
        end
      else if (c <? 32)%N then None
      else cons_char c (scanstring s1)
  end.

(** The longest run of decimal digits at the head, and what follows. *)
Fixpoint span_digits (s : pystr) : pystr * pystr :=
  match s with
  | c :: s' =>
      if is_digit c then let '(ds, rest) := span_digits s' in (c :: ds, rest)
      else ([], s)
  | [] => ([], [])
  end.

Definition int_of_digits (ds : pystr) : Z :=
  foldl (λ acc c, acc * 10 + Z.of_N (c - 48))%Z 0%Z ds.

(** [NUMBER_RE.match]: an optional minus sign and either 0 or a run of
    digits that starts with 1 to 9; then, each optional, a point with
    one digit or more, and e or E with an optional sign and one digit or
    more. Digits are the ASCII ones. *)
Definition match_number (s : pystr) : option (pyval * pystr) :=
  let '(sign, s1) :=
    match s with
    | c :: s' => if (c =? 45)%N then ([45%N], s') else ([], s)
    | [] => ([], s)
    end in
  let integer_part :=
    match s1 with
    | c :: s' =>
        if (c =? 48)%N then Some ([48%N], s')
        else if is_digit c then Some (span_digits s1)
        else None
    | [] => None
    end in
  match integer_part with
  | None => None
  | Some (digits, s2) =>
      let '(frac, s3) :=
        match s2 with
        | c :: s' =>
            if (c =? 46)%N then
              match span_digits s' with
              | ([], _) => ([], s2)
              | (ds, rest) => (c :: ds, rest)
              end
            else ([], s2)
        | [] => ([], s2)
        end in
      let '(exp, s4) :=
        match s3 with
        | c :: s' =>
            if ((c =? 101) || (c =? 69))%N then
              let '(esign, s'') :=
                match s' with
                | d :: t => if ((d =? 45) || (d =? 43))%N then ([d], t) else ([], s')
                | [] => ([], s')
                end in
              match span_digits s'' with
              | ([], _) => ([], s3)
              | (ds, rest) => (c :: esign ++ ds, rest)
              end
            else ([], s3)
        | [] => ([], s3)
        end in
      match frac, exp with
      | [], [] =>
          Some (PInt (if sign is [] then int_of_digits digits
                      else - int_of_digits digits)%Z, s4)
      | _, _ => Some (PFloat (sign ++ digits ++ frac ++ exp), s4)
      end
  end.

(** [scan_once], [JSONObject] and [JSONArray]. [object_pairs] starts
    after the opening quote of a key, [array_items] at a value. *)
Fixpoint scan_once (fuel : nat) (s : pystr) : ParseResult pyval :=
  match fuel with
  | O => PFuel
  | S fuel' =>
      match s with
      | [] => PErr
      | nextchar :: s1 =>
          if (nextchar =? 34)%N then
            match scanstring s1 with
            | Some (str, rest) => POk (PStr str) rest
            | None => PErr
            end
          else if (nextchar =? 123)%N then
            match skip_ws s1 with
            | c :: s2 =>
                if (c =? 125)%N then POk (PDict []) s2
                else if (c =? 34)%N then
                  match object_pairs fuel' s2 [] with
                  | POk pairs rest => POk (PDict (dict_update [] pairs)) rest
                  | PErr => PErr
                  | PFuel => PFuel
                  end
                else PErr
            | [] => PErr
            end
          else if (nextchar =? 91)%N then
            match skip_ws s1 with
            | c :: s2 =>
                if (c =? 93)%N then POk (PList []) s2
                else
                  match array_items fuel' (c :: s2) [] with
                  | POk values rest => POk (PList values) rest
                  | PErr => PErr
                  | PFuel => PFuel
                  end
            | [] => PErr
            end
          else if starts_with (py "null") s then POk PNone (drop 4 s)
          else if starts_with (py "true") s then POk (PBool true) (drop 4 s)
          else if starts_with (py "false") s then POk (PBool false) (drop 5 s)
          else
            match match_number s with
            | Some (v, rest) => POk v rest
            | None =>
                if starts_with (py "NaN") s then POk (PFloat (py "NaN")) (drop 3 s)
                else if starts_with (py "Infinity") s
                then POk (PFloat (py "Infinity")) (drop 8 s)
                else if starts_with (py "-Infinity") s
                then POk (PFloat (py "-Infinity")) (drop 9 s)
                else PErr
            end
      end
  end
with object_pairs (fuel : nat) (s : pystr) (pairs : pydict) : ParseResult pydict :=
  match fuel with
  | O => PFuel
  | S fuel' =>
      match scanstring s with
      | None => PErr
      | Some (key, s1) =>
          match skip_ws s1 with
          | colon :: s2 =>
              if (colon =? 58)%N then
                match scan_once fuel' (skip_ws s2) with
                | POk value s3 =>
                    match skip_ws s3 with
                    | nextchar :: s4 =>
                        if (nextchar =? 125)%N then POk (pairs ++ [(key, value)]) s4
                        else if (nextchar =? 44)%N then
                          match skip_ws s4 with
                          | q :: s5 =>
                              if (q =? 34)%N
                              then object_pairs fuel' s5 (pairs ++ [(key, value)])
                              else PErr
                          | [] => PErr
                          end
                        else PErr
                    | [] => PErr
                    end
                | PErr => PErr
                | PFuel => PFuel
                end
              else PErr
          | [] => PErr
          end
      end
  end
with array_items (fuel : nat) (s : pystr) (values : list pyval) : ParseResult (list pyval) :=
  match fuel with
  | O => PFuel
  | S fuel' =>
      match scan_once fuel' s with
      | POk value s1 =>
          match skip_ws s1 with
          | nextchar :: s2 =>
              if (nextchar =? 93)%N then POk (values ++ [value]) s2
              else if (nextchar =? 44)%N
              then array_items fuel' (skip_ws s2) (values ++ [value])
              else PErr
          | [] => PErr
          end
      | PErr => PErr
      | PFuel => PFuel
      end
  end.

(** [json.loads(s)] for a [str]: [PErr] is [JSONDecodeError]. *)
Definition json_loads (s : pystr) : ParseResult pyval :=
  if starts_with [65279%N] s then PErr
  else
    match scan_once (S (2 * length s)) (skip_ws s) with
    | POk obj rest =>
        match skip_ws rest with
        | [] => POk obj []
        | _ :: _ => PErr
        end
    | PErr => PErr
    | PFuel => PFuel
    end.

(** ** [re.search] with a greedy [.*] under [re.DOTALL] *)

(** The text from the first [c] on. *)
Fixpoint from_first (c : N) (s : pystr) : option pystr :=
  match s with
  | [] => None
  | x :: s' => if (x =? c)%N then Some s else from_first c s'
  end.

(** The text up to the last [c]. *)
Definition upto_last (c : N) (s : pystr) : option pystr :=
  reverse <$> from_first c (reverse s).

(** [re.search(open .* close, s, re.DOTALL).group(0)]: from the first
    [open] to the last [close] after it. *)
Definition re_search_between (open close : N) (s : pystr) : option pystr :=
  match from_first open s with
  | Some (o :: after) => (λ m, o :: m) <$> upto_last close after
  | _ => None
  end.

(** ** Price tables and [get_cost] *)

Module Pricing.

(** [PRICING]: model, then dollars per million input and output tokens. *)
Definition PRICING (p : ProviderKind) : list (pystr * (float * float)) :=
  match p with
  | Claude =>
      [(py "claude-3-5-haiku-20241022", (0.25, 1.25)%float);
       (py "claude-3-5-sonnet-20241022", (3.0, 15.0)%float);
       (py "claude-3-opus-20240229", (15.0, 75.0)%float)]
  | OpenAI =>
      [(py "gpt-4o", (2.50, 10.00)%float);
       (py "gpt-4o-mini", (0.150, 0.600)%float);
       (py "gpt-4-turbo", (10.00, 30.00)%float);
       (py "gpt-3.5-turbo", (0.50, 1.50)%float)]
  | Bedrock =>
      [(py "anthropic.claude-3-5-sonnet-20241022-v2:0", (3.0, 15.0)%float);
       (py "anthropic.claude-3-5-haiku-20241022-v1:0", (0.25, 1.25)%float);
       (py "anthropic.claude-3-opus-20240229-v1:0", (15.0, 75.0)%float)]
  end.

(** A token count as a float: exact below 2^53, where Python's division
    of two ints is the division of the two floats. *)
Definition float_of_int (n : Z) : float := PrimFloat.of_uint63 (Uint63.of_Z n).

(** The cost for a price pair. *)
Definition cost_at (prices : float * float) (input_tokens output_tokens : Z) : float :=
  let input_cost := (float_of_int input_tokens / 1000000 * prices.1)%float in
  let output_cost := (float_of_int output_tokens / 1000000 * prices.2)%float in
  (input_cost + output_cost)%float.

(** [get_cost(input_tokens, output_tokens)] of a provider whose active
    model is [model]: the cost, and whether the pricing warning was
    logged. *)
Definition get_cost (p : ProviderKind) (model : pystr)
    (input_tokens output_tokens : Z) : float * bool :=
  match dict_get model (PRICING p) with
  | None => (0.0%float, true)
  | Some prices => (cost_at prices input_tokens output_tokens, false)
  end.

(** [model] is priced, and no model of the table has a lower input or
    output price. *)
Definition cheapest (p : ProviderKind) (model : pystr) : bool :=
  match dict_get model (PRICING p) with
  | Some prices =>
      forallb (λ row, (prices.1 <=? row.2.1)%float && (prices.2 <=? row.2.2)%float)
        (PRICING p)
  | None => false
  end.

End Pricing.

(** ** The manager (src/core/llm/manager.py) *)

(** A provider object: its active model and whether it has a client. *)
Record ProviderState := { model : pystr; client : bool }.

Abbreviation Providers := (ProviderKind → ProviderState).

Record Settings := {
  anthropic_api_key : option pystr;
  openai_api_key : option pystr;
  aws_access_key_id : option pystr;
  aws_secret_access_key : option pystr;
  (** [BOTO3_AVAILABLE], and whether [boto3.client] returns a client. *)
  BOTO3_AVAILABLE : bool;
  boto3_client_ok : bool
}.

(** Truth value of an [Optional[str]]. *)
Definition truthy (s : option pystr) : bool :=
  match s with
  | None | Some [] => false
  | Some (_ :: _) => true
  end.

Definition DEFAULT_MODEL (p : ProviderKind) : pystr :=
  match p with
  | Claude => py "claude-3-5-haiku-20241022"
  | OpenAI => py "gpt-4o-mini"
  | Bedrock => py "anthropic.claude-3-5-haiku-20241022-v1:0"
  end.

(** [get_cheap_model]; Bedrock has no such method ([hasattr] is false). *)
Definition get_cheap_model (p : ProviderKind) : option pystr :=
  match p with
  | Claude => Some (py "claude-3-5-haiku-20241022")
  | OpenAI => Some (py "gpt-4o-mini")
  | Bedrock => None
  end.

Definition Claude_get_quality_model : pystr := py "claude-3-5-sonnet-20241022".
Definition OpenAI_get_quality_model : pystr := py "gpt-4o".

(** The state of the process: the three provider objects and the
    cache directory. *)
Record World := {
  providers : Providers;
  cache : LLMCache.CacheDir
}.

Record Request := {
  prompt : pystr;
  provider_name : option pystr;
  task_type : pystr;
  use_cache : bool;
  max_tokens : Z;
  temperature : float;
  fallback : bool;
  kwargs : pydict
}.

Module LLMManager.

(** [__init__]: the three providers, each with its default model. *)
Definition init (settings : Settings) : Providers := λ p,
  {| model := DEFAULT_MODEL p;
     client :=
       match p with
       | Claude => truthy (anthropic_api_key settings)
       | OpenAI => truthy (openai_api_key settings)
       | Bedrock =>
           BOTO3_AVAILABLE settings &&
           truthy (aws_access_key_id settings) &&
           truthy (aws_secret_access_key settings) &&
           boto3_client_ok settings
       end |}.

(** The keys of [self.providers], in insertion order. *)
Definition priority : list ProviderKind := [Claude; OpenAI; Bedrock].

(** [self.available_providers], in insertion order; clients never
    change after [__init__]. *)
Definition available_providers (ps : Providers) : list ProviderKind :=
  filter (λ p, client (ps p) = true) priority.

(** [provider.model = m] *)
Definition set_model (p : ProviderKind) (m : pystr) (ps : Providers) : Providers :=
  λ q, if decide (q = p) then {| model := m; client := client (ps p) |} else ps q.

(** [self.available_providers.get(name)] *)
Definition available_get (name : pystr) (ps : Providers) : option ProviderKind :=
  List.find (λ p, bool_decide (Provider.provider_name p = name))
    (available_providers ps).

(** The loop of the "simple" and "refinement" branches, over
    ["claude", "openai", "bedrock"]: the first available provider, its
    model set to its cheap model when it has the method. *)
Definition cheap_route (ps : Providers) : option (ProviderKind * Providers) :=
  match List.find (λ p, client (ps p)) priority with
  | Some p =>
      Some (p, match get_cheap_model p with
               | Some m => set_model p m ps
               | None => ps
               end)
  | None => None
  end.

(** The provider asked for by name, when it is available:
    [if provider_name: provider = self.available_providers.get(provider_name.lower())]. *)
Definition requested (provider_name : option pystr) (ps : Providers) : option ProviderKind :=
  match provider_name with
  | Some name => if truthy provider_name then available_get (lower name) ps else None
  | None => None
  end.

(** [get_provider(provider_name, task_type)]: the provider selected and
    the provider objects as the call leaves them. *)
Definition get_provider (provider_name : option pystr) (task_type : pystr)
    (ps : Providers) : option ProviderKind * Providers :=
  match requested provider_name ps with
  | Some p => (Some p, ps)
  | None =>
      let routed :=
        if bool_decide (task_type = py "simple") then cheap_route ps
        else if bool_decide (task_type = py "script_generation") then
          if client (ps Claude)
          then Some (Claude, set_model Claude Claude_get_quality_model ps)
          else if client (ps OpenAI)
          then Some (OpenAI, set_model OpenAI OpenAI_get_quality_model ps)
          else None
        else if bool_decide (task_type = py "refinement") then cheap_route ps
        else None in
      match routed with
      | Some (p, ps') => (Some p, ps')
      | None => (head (available_providers ps), ps)
      end
  end.

(** The message of the exception that ends [generate]. *)
Definition all_failed (last_error : option exn) : exn :=
  Exn PyException
    (py "All LLM providers failed. Last error: " ++
     match last_error with
     | Some e => exn_str e
     | None => py "None"
     end).

Definition gen_args (req : Request) (w : World) (p : ProviderKind) : GenArgs :=
  {| ga_model := model (providers w p);
     ga_prompt := prompt req;
     ga_max_tokens := max_tokens req;
     ga_temperature := temperature req;
     ga_kwargs := kwargs req |}.

(** [providers_to_try]: the primary, then the fallback chain. *)
Definition providers_to_try (req : Request) (ps : Providers)
    (provider : ProviderKind) : list ProviderKind :=
  provider ::
  (if fallback req
   then filter (λ q, q ≠ provider) (available_providers ps)
   else []).

(** [for idx, current_provider in enumerate(providers_to_try): ...] over
    the candidates that are left, [n] being [len(providers_to_try)];
    the cache write happens at time [t_set]. *)
Fixpoint try_providers (backend : Backend) (req : Request) (t_set : Z)
    (n idx : nat) (candidates : list ProviderKind) (last_error : option exn)
    (w : World) : PyResult (option pystr) * World * list Event :=
  match candidates with
  | [] => (Raise (all_failed last_error), w, [])
  | current_provider :: rest =>
      match Provider.generate backend current_provider
              (client (providers w current_provider))
              (gen_args req w current_provider) with
      | (Return response, evs) =>
          let w' :=
            if use_cache req
            then {| providers := providers w;
                    cache := LLMCache.set (prompt req) (task_type req) response
                               [] t_set (cache w) |}
            else w in
          (Return response, w', evs)
      | (Raise e, evs) =>
          if negb (fallback req) || (idx =? n - 1)%nat
          then (Raise (all_failed (Some e)), w, evs)
          else
            let '(r, w', evs') :=
              try_providers backend req t_set n (S idx) rest (Some e) w in
            (r, w', evs ++ evs')
      end
  end.

Definition no_providers : exn := Exn PyException (py "No LLM providers available").

(** [generate(prompt, provider_name, task_type, use_cache, max_tokens,
    temperature, fallback, **kwargs)]; the cache is read at time [t_get]
    and written at time [t_set]. *)
Definition generate (backend : Backend) (t_get t_set : Z) (req : Request)
    (w : World) : PyResult (option pystr) * World * list Event :=
  let '(cached_response, dir) :=
    if use_cache req
    then LLMCache.get (prompt req) (task_type req) 168 [] t_get (cache w)
    else (None, cache w) in
  if truthy cached_response then
    (Return cached_response, {| providers := providers w; cache := dir |}, [])
  else
    match get_provider (provider_name req) (task_type req) (providers w) with
    | (None, ps) => (Raise no_providers, {| providers := ps; cache := dir |}, [])
    | (Some provider, ps) =>
        let candidates := providers_to_try req ps provider in
        try_providers backend req t_set (length candidates) 0 candidates None
          {| providers := ps; cache := dir |}
    end.

(** The part of [generate_with_json_parsing] that follows [generate]:
    what it returns or raises for the text [response]. *)
Definition parse_json_response (response : pystr) : PyResult pyval :=
  match json_loads response with
  | POk v _ => Return v
  | _ =>
      let object_attempt :=
        match re_search_between 123 125 response with
        | Some json_match =>
            match json_loads json_match with
            | POk v _ => Some v
            | _ => None
            end
        | None => None
        end in
      match object_attempt with
      | Some v => Return v
      | None =>
          let array_attempt :=
            match re_search_between 91 93 response with
            | Some json_match =>
                match json_loads json_match with
                | POk v _ => Some v
                | _ => None
                end
            | None => None
            end in
          match array_attempt with
          | Some v => Return v
          | None =>
              Raise (Exn PyException
                       (py "Failed to parse JSON from LLM response: " ++
                        take 200 response))
          end
      end
  end.

(** [generate_with_json_parsing(prompt, task_type, **kwargs)] *)
Definition generate_with_json_parsing (backend : Backend) (t_get t_set : Z)
    (req : Request) (w : World) : PyResult pyval * World * list Event :=
  match generate backend t_get t_set req w with
  | (Return (Some response), w', evs) => (parse_json_response response, w', evs)
  | (Return None, w', evs) =>
      (Raise (Exn PyException
                (py "the JSON object must be str, bytes or bytearray, not NoneType")),
       w', evs)
  | (Raise e, w', evs) => (Raise e, w', evs)
  end.

(** [get_available_providers()]: the keys of [self.available_providers]. *)
Definition get_available_providers (ps : Providers) : list pystr :=
  Provider.provider_name <$> available_providers ps.

(** [clear_cache()] *)
Definition clear_cache (w : World) : nat * World :=
  let '(cleared_count, dir) := LLMCache.clear_all (cache w) in
  (cleared_count, {| providers := providers w; cache := dir |}).

(** [get_cache_stats()] *)
Definition get_cache_stats (w : World) : LLMCache.CacheStats :=
  LLMCache.get_cache_stats (cache w).

End LLMManager.

(** ** Callers of the manager (src/core/content/script_generator.py,
       src/core/content/topic_selector.py)

    The prompt of a call is the text that the template functions of
    src/config/prompts.py build; it is an argument here. *)

(** What these functions raise: an exception of the manager, passed on
    as it is, a [ValueError] with its message, or one of the exceptions
    of the interpreter, whose messages are CPython's own. *)
Inductive ContentExn :=
| LLMExn (e : exn)
| ValueError (msg : pystr)
| TypeError
| KeyError
| AttributeError.

Inductive Result (A : Type) :=
| Ok (a : A)
| Err (e : ContentExn).
Arguments Ok {A} a.
Arguments Err {A} e.

(** [sub in s] for two [str]. *)
Fixpoint contains_str (sub s : pystr) : bool :=
  starts_with sub s ||
  match s with
  | [] => false
  | _ :: s' => contains_str sub s'
  end.

(** [key in container] for a [str] key: a key of a [dict], an item of
    a [list] (an item of another type is never equal to a [str]), a
    substring of a [str]; any other value is not iterable ([None] is
    [TypeError]). *)
Definition py_contains (key : pystr) (container : pyval) : option bool :=
  match container with
  | PDict d => Some (bool_decide (is_Some (dict_get key d)))
  | PList l =>
      Some (existsb (λ item, match item with
                             | PStr s => bool_decide (s = key)
                             | _ => false
                             end) l)
  | PStr s => Some (contains_str key s)
  | PNone | PBool _ | PInt _ | PFloat _ => None
  end.

(** [container[key]] for a [str] key. *)
Definition py_getitem (key : pystr) (container : pyval) : Result pyval :=
  match container with
  | PDict d =>
      match dict_get key d with
      | Some v => Ok v
      | None => Err KeyError
      end
  | _ => Err TypeError
  end.

Module ScriptGenerator.

Definition required_fields : list pystr :=
  [py "title"; py "hook"; py "scenes"; py "conclusion"].

(** [for field in required_fields: if field not in script: raise ...] *)
Fixpoint check_fields (fields : list pystr) (script : pyval) : Result unit :=
  match fields with
  | [] => Ok tt
  | field :: rest =>
      match py_contains field script with
      | None => Err TypeError
      | Some false => Err (ValueError (py "Script missing required field: " ++ field))
      | Some true => check_fields rest script
      end
  end.

(** [for idx, scene in enumerate(script["scenes"]): ...] from [idx] on. *)
Fixpoint check_scenes (idx : Z) (scenes : list pyval) : Result unit :=
  match scenes with
  | [] => Ok tt
  | scene :: rest =>
      match py_contains (py "text") scene with
      | None => Err TypeError
      | Some false =>
          Err (ValueError (py "Scene " ++ str_of_int idx ++ py " missing 'text' field"))
      | Some true =>
          match py_contains (py "duration") scene with
          | None => Err TypeError
          | Some false =>
              Err (ValueError
                     (py "Scene " ++ str_of_int idx ++ py " missing 'duration' field"))
          | Some true => check_scenes (idx + 1) rest
          end
      end
  end.

(** [_validate_script(script)] *)
Definition _validate_script (script : pyval) : Result unit :=
  match check_fields required_fields script with
  | Err e => Err e
  | Ok _ =>
      match py_getitem (py "scenes") script with
      | Err e => Err e
      | Ok (PList []) => Err (ValueError (py "Script must have at least one scene"))
      | Ok (PList scenes) => check_scenes 0 scenes
      | Ok _ => Err (ValueError (py "Script must have at least one scene"))
      end
  end.

(** The request that [generate_script] sends for the prompt built by
    [get_script_prompt(style, topic, duration)]. *)
Definition script_request (prompt : pystr) (provider : option pystr)
    (use_cache : bool) : Request :=
  {| prompt := prompt;
     provider_name := provider;
     task_type := py "script_generation";
     use_cache := use_cache;
     max_tokens := 3000;
     temperature := 0.7%float;
     fallback := true;
     kwargs := [] |}.

(** What follows [generate_with_json_parsing] in [generate_script] and
    in [refine_script]: the validation, and in [generate_script] the
    [script_json.get('title', 'Untitled')] of the log line. *)
Definition validated (log_title : bool) (script_json : pyval) : Result pyval :=
  match _validate_script script_json with
  | Err e => Err e
  | Ok _ =>
      if log_title then
        match script_json with
        | PDict _ => Ok script_json
        | _ => Err AttributeError
        end
      else Ok script_json
  end.

(** [generate_script(topic, style, duration, provider, use_cache)] *)
Definition generate_script (backend : Backend) (t_get t_set : Z) (prompt : pystr)
    (provider : option pystr) (use_cache : bool) (w : World)
    : Result pyval * World * list Event :=
  match LLMManager.generate_with_json_parsing backend t_get t_set
          (script_request prompt provider use_cache) w with
  | (Return script_json, w', evs) => (validated true script_json, w', evs)
  | (Raise e, w', evs) => (Err (LLMExn e), w', evs)
  end.

(** The request that [refine_script] sends for the prompt built by
    [get_refinement_prompt(json.dumps(original_script, indent=2),
    feedback, duration)]. *)
Definition refinement_request (prompt : pystr) (provider : option pystr) : Request :=
  {| prompt := prompt;
     provider_name := provider;
     task_type := py "refinement";
     use_cache := false;
     max_tokens := 3000;
     temperature := 0.7%float;
     fallback := true;
     kwargs := [] |}.

(** [refine_script(original_script, feedback, duration, provider)] *)
Definition refine_script (backend : Backend) (t_get t_set : Z) (prompt : pystr)
    (provider : option pystr) (w : World) : Result pyval * World * list Event :=
  match LLMManager.generate_with_json_parsing backend t_get t_set
          (refinement_request prompt provider) w with
  | (Return refined_script, w', evs) => (validated false refined_script, w', evs)
  | (Raise e, w', evs) => (Err (LLMExn e), w', evs)
  end.

End ScriptGenerator.

Module TopicSelector.

(** The request that [generate_topic_ideas] sends for the prompt built
    by [get_topic_generation_prompt(category, style, count)]. *)
Definition topic_request (prompt : pystr) (use_cache : bool) : Request :=
  {| prompt := prompt;
     provider_name := None;
     task_type := py "simple";
     use_cache := use_cache;
     max_tokens := 1500;
     temperature := 0.8%float;
     fallback := true;
     kwargs := [] |}.

(** What follows [generate_with_json_parsing]: a [dict] is wrapped in a
    list, and the log line takes [len(topics)]. *)
Definition as_topic_list (topics : pyval) : Result pyval :=
  let topics := match topics with PDict _ => PList [topics] | _ => topics end in
  match topics with
  | PList _ | PStr _ | PDict _ => Ok topics
  | PNone | PBool _ | PInt _ | PFloat _ => Err TypeError
  end.

(** [generate_topic_ideas(category, style, count, use_cache)] *)
Definition generate_topic_ideas (backend : Backend) (t_get t_set : Z) (prompt : pystr)
    (use_cache : bool) (w : World) : Result pyval * World * list Event :=
  match LLMManager.generate_with_json_parsing backend t_get t_set
          (topic_request prompt use_cache) w with
  | (Return topics, w', evs) => (as_topic_list topics, w', evs)
  | (Raise e, w', evs) => (Err (LLMExn e), w', evs)
  end.

End TopicSelector.

(** ** Reading a trace *)

(** The providers whose [generate] was entered, in order. *)
Definition attempted (evs : list Event) : list ProviderKind :=
  omap (λ ev, match ev with EvGenerate p => Some p | _ => None end) evs.

(** The backend calls, in order: provider and attempt number. *)
Definition calls (evs : list Event) : list (ProviderKind * nat) :=
  omap (λ ev, match ev with EvCall p _ attempt => Some (p, attempt) | _ => None end) evs.

(** The delays slept, in seconds, in order. *)
Definition sleeps (evs : list Event) : list Z :=
  omap (λ ev, match ev with EvSleep seconds => Some seconds | _ => None end) evs.

(** The provider an event belongs to. *)
Definition event_provider (ev : Event) : option ProviderKind :=
  match ev with
  | EvGenerate p | EvCall p _ _ => Some p
  | EvSleep _ => None
  end.

(** ** Vocabulary of the statements *)

(** The SDK call of attempt [k] hits the rate limit. *)
Definition rate_limited_at (backend : Backend) (p : ProviderKind) (args : GenArgs)
    (k : nat) : Prop :=
  ∃ e, backend p args k = BackendRaise e ∧ Provider.is_rate_limit p e = true.

(** What [generate] of provider [p] gives in world [w]. *)
Definition outcome (backend : Backend) (req : Request) (w : World) (p : ProviderKind)
    : PyResult (option pystr) * list Event :=
  Provider.generate backend p (client (providers w p)) (LLMManager.gen_args req w p).

(** The world after the cache write of a success. *)
Definition cache_written (req : Request) (t_set : Z) (w : World)
    (response : option pystr) : World :=
  if use_cache req
  then {| providers := providers w;
          cache := LLMCache.set (prompt req) (task_type req) response [] t_set (cache w) |}
  else w.

Definition events_of (backend : Backend) (req : Request) (w : World)
    (candidates : list ProviderKind) : list Event :=
  concat ((λ q, (outcome backend req w q).2) <$> candidates).

(** What the cache lookup that opens [generate] gives: the response
    found and the directory it leaves. *)
Definition looked_up (t_get : Z) (req : Request) (w : World)
    : option pystr * LLMCache.CacheDir :=
  if use_cache req
  then LLMCache.get (prompt req) (task_type req) 168 [] t_get (cache w)
  else (None, cache w).

(** The attempt on the text between the first [open] and the last
    [close] gives nothing: there is no such text, or [json.loads]
    raises [JSONDecodeError] on it. *)
Definition attempt_fails (open close : N) (response : pystr) : Prop :=
  match re_search_between open close response with
  | Some json_match => json_loads json_match = PErr
  | None => True
  end.

(** The file holds an entry cached before [cutoff_time]. *)
Definition cached_before (cutoff_time : Z) (f : LLMCache.CacheFile) : bool :=
  match f with
  | LLMCache.Entry cache_data => (LLMCache.ce_cached_at cache_data <? cutoff_time)%Z
  | LLMCache.Unparsable => false
  end.

(** The [cached_at] of the entries among the files listed. *)
Definition cached_ats (cache_files : list pystr) (dir : LLMCache.CacheDir) : list Z :=
  omap (λ k, match dir !! k with
             | Some (LLMCache.Entry cache_data) => Some (LLMCache.ce_cached_at cache_data)
             | _ => None
             end) cache_files.

(** The provider objects after a sequence of [get_provider] calls, each
    given by its [provider_name] and its [task_type]. *)
Definition after_routing (routes : list (option pystr * pystr)) (ps : Providers)
    : Providers :=
  foldl (λ ps route, (LLMManager.get_provider route.1 route.2 ps).2) ps routes.

(** The time slept in a trace, in seconds. *)
Definition total_sleep (evs : list Event) : Z := foldr Z.add 0%Z (sleeps evs).

(** The backend calls of a trace that belong to provider [p]. *)
Definition calls_of (p : ProviderKind) (evs : list Event) : list (ProviderKind * nat) :=
  filter (λ c, c.1 = p) (calls evs).

(** A code point that stands for a character: below 0x110000 and not
    one of the surrogates 0xD800 to 0xDFFF. *)
Definition is_scalar (c : N) : bool :=
  ((c <? 55296) || (57344 <=? c) && (c <? 1114112))%N.

(** The text that [_generate_cache_key] hashes. *)
Definition cache_str (prompt model : pystr) (kwargs : pydict) : pystr :=
  json_dumps
    (PDict (dict_update [(py "prompt", PStr prompt); (py "model", PStr model)]
              (filter not_None (sorted kwargs)))).

(** Every entry of the directory holds text that a provider may
    return: at least 10 characters once stripped. *)
Definition holds_valid_text (dir : LLMCache.CacheDir) : Prop :=
  ∀ k e, dir !! k = Some (LLMCache.Entry e) →
    ∃ text, LLMCache.ce_response e = Some text ∧ 10 ≤ length (strip text).

(** [len(v)] is defined: [v] is a [str], a [list] or a [dict]. *)
Definition has_len (v : pyval) : bool :=
  match v with
  | PStr _ | PList _ | PDict _ => true
  | PNone | PBool _ | PInt _ | PFloat _ => false
  end.

(** A script that [_validate_script] is written to accept: a [dict]
    with the four required fields, whose ["scenes"] is a list that is
    not empty and whose scenes all contain ["text"] and ["duration"]. *)
Definition has_text_and_duration (scene : pyval) : Prop :=
  py_contains (py "text") scene = Some true ∧
  py_contains (py "duration") scene = Some true.

Definition valid_script (script : pyval) : Prop :=
  ∃ d scenes,
    script = PDict d ∧
    Forall (λ field, is_Some (dict_get field d)) ScriptGenerator.required_fields ∧
    dict_get (py "scenes") d = Some (PList scenes) ∧
    scenes ≠ [] ∧
    Forall has_text_and_duration scenes.

(** ** Data of the examples *)

(** Keyword parameters of a cache call. *)
Definition kw_example : pydict :=
  [(py "temperature", PFloat (py "0.7")); (py "max_tokens", PInt 100)].

(** One hour, in microseconds. *)
Definition hour : Z := 3600000000.

(** A backend that is throttled on every call: [RateLimitError] from
    the two SDKs, a [ThrottlingException] from Bedrock. *)
Definition throttled : exn := Exn RateLimitError (py "rate limit exceeded").
Definition throttled_bedrock : exn :=
  Exn (ClientError (py "ThrottlingException")) (py "rate exceeded").

Definition always_rate_limited : Backend := λ p _ _,
  BackendRaise (match p with Bedrock => throttled_bedrock | _ => throttled end).

Definition some_args : GenArgs :=
  {| ga_model := py "claude-3-5-haiku-20241022";
     ga_prompt := py "Write a hook";
     ga_max_tokens := 2000;
     ga_temperature := 0.7%float;
     ga_kwargs := [] |}.

(** Settings with two and with three providers configured, and the
    world of a process that has just started on them. *)
Definition two_keys : Settings :=
  {| anthropic_api_key := Some (py "sk-ant-test");
     openai_api_key := Some (py "sk-test");
     aws_access_key_id := None;
     aws_secret_access_key := None;
     BOTO3_AVAILABLE := true;
     boto3_client_ok := true |}.

Definition three_keys : Settings :=
  {| anthropic_api_key := Some (py "sk-ant-test");
     openai_api_key := Some (py "sk-test");
     aws_access_key_id := Some (py "AKIATEST");
     aws_secret_access_key := Some (py "secret");
     BOTO3_AVAILABLE := true;
     boto3_client_ok := true |}.

(** Settings under which no provider is available: no Anthropic key,
    an empty OpenAI key, an AWS key without its secret. *)
Definition no_keys : Settings :=
  {| anthropic_api_key := None;
     openai_api_key := Some [];
     aws_access_key_id := Some (py "AKIATEST");
     aws_secret_access_key := None;
     BOTO3_AVAILABLE := true;
     boto3_client_ok := true |}.

Definition fresh_world (settings : Settings) : World :=
  {| providers := LLMManager.init settings; cache := ∅ |}.

Definition hook_text : pystr := py "Did you know octopuses have three hearts?".

(** Claude is rate limited on every attempt, the others answer. *)
Definition claude_throttled : Backend := λ p _ _,
  match p with
  | Claude => BackendRaise throttled
  | _ => BackendText (Some hook_text)
  end.

Definition simple_request : Request :=
  {| prompt := py "Write a hook";
     provider_name := None;
     task_type := py "simple";
     use_cache := true;
     max_tokens := 1500;
     temperature := 0.8%float;
     fallback := true;
     kwargs := [] |}.

(** Provider objects as a process can hold them. [after_script]: Claude
    and OpenAI configured, after one "script_generation" request has
    been routed (Claude's active model is then Sonnet). [bedrock_sonnet]:
    only Bedrock configured, its [model] attribute being Sonnet, a
    model of its price table ([BedrockProvider] takes the model as an
    argument, and [model] is a plain attribute). *)
Definition after_script : Providers :=
  (LLMManager.get_provider None (py "script_generation") (LLMManager.init two_keys)).2.

Definition bedrock_only : Settings :=
  {| anthropic_api_key := None;
     openai_api_key := None;
     aws_access_key_id := Some (py "AKIATEST");
     aws_secret_access_key := Some (py "secret");
     BOTO3_AVAILABLE := true;
     boto3_client_ok := true |}.

Definition bedrock_sonnet : Providers :=
  LLMManager.set_model Bedrock (py "anthropic.claude-3-5-sonnet-20241022-v2:0")
    (LLMManager.init bedrock_only).

(** A backend whose first provider answers with a text that is too
    short. *)
Definition claude_too_short : Backend := λ p _ _,
  match p with
  | Claude => BackendText (Some (py "  Hi!   "))
  | _ => BackendText (Some hook_text)
  end.

(** A second request for the same prompt and task type that differs in
    everything else. *)
Definition other_request : Request :=
  {| prompt := py "Write a hook";
     provider_name := Some (py "openai");
     task_type := py "simple";
     use_cache := true;
     max_tokens := 50;
     temperature := 0.0%float;
     fallback := false;
     kwargs := [(py "system", PStr (py "Answer in French."))] |}.

(** The three texts of the specification; 34 is the double quote. *)
Definition sure_thanks : pystr :=
  py "Sure! {" ++ [34%N] ++ py "a" ++ [34%N] ++ py ":1} thanks".

(** A text between double quotes. *)
Definition quoted (s : string) : pystr := [34%N] ++ py s ++ [34%N].

(** A script as a provider answers it, and the value it parses to. *)
Definition script_text : pystr :=
  py "{" ++ quoted "title" ++ py ": " ++ quoted "Octopus" ++ py ", " ++
  quoted "hook" ++ py ": " ++ quoted "Three hearts!" ++ py ", " ++
  quoted "scenes" ++ py ": [{" ++ quoted "text" ++ py ": " ++
  quoted "An octopus has three hearts." ++ py ", " ++
  quoted "duration" ++ py ": 10}], " ++
  quoted "conclusion" ++ py ": " ++ quoted "Follow for more." ++ py "}".

Definition script_value : pyval :=
  PDict [(py "title", PStr (py "Octopus"));
         (py "hook", PStr (py "Three hearts!"));
         (py "scenes",
          PList [PDict [(py "text", PStr (py "An octopus has three hearts."));
                        (py "duration", PInt 10)]]);
         (py "conclusion", PStr (py "Follow for more."))].

(** A script without its conclusion. *)
Definition unfinished_text : pystr :=
  py "{" ++ quoted "title" ++ py ": " ++ quoted "Octopus" ++ py ", " ++
  quoted "hook" ++ py ": " ++ quoted "Three hearts!" ++ py ", " ++
  quoted "scenes" ++ py ": []}".

(** Backends that answer every call with one text. *)
Definition answers (text : pystr) : Backend := λ _ _ _, BackendText (Some text).

(** * Properties *)

(** Digests and serialised texts are computed with [vm_compute] only. *)
Global Opaque md5_hexdigest json_dumps.

(** ** The embedded library functions on known values *)

Section LibraryValues.

(** RFC 1321, appendix A.5. *)
Example md5_empty :
  md5_hexdigest (encode []) = py "d41d8cd98f00b204e9800998ecf8427e".
Proof. by vm_compute. Qed.

Example md5_abc :
  md5_hexdigest (encode (py "abc")) = py "900150983cd24fb0d6963f7d28e17f72".
Proof. by vm_compute. Qed.

Example md5_two_blocks :
  md5_hexdigest
    (encode (py "12345678901234567890123456789012345678901234567890123456789012345678901234567890"))
  = py "57edf4a22be3c955ac49da2e2107b67a".
Proof. by vm_compute. Qed.

(** Keys are sorted at every level; 233 is e with an acute accent. *)
Example json_dumps_sorted :
  json_dumps
    (PDict [(py "z", PList [PInt 1; PBool true; PNone;
                            PDict [(py "b", PInt 1); (py "a", PInt (-2))]]);
            (py "name", PStr [99; 97; 102; 233]%N);
            (py "t", PFloat (py "0.7"))])
  = py "{" ++ [34%N] ++ py "name" ++ [34%N] ++ py ": " ++ [34%N] ++ py "caf\u00e9"
      ++ [34%N] ++ py ", " ++ [34%N] ++ py "t" ++ [34%N] ++ py ": 0.7, " ++ [34%N]
      ++ py "z" ++ [34%N] ++ py ": [1, true, null, {" ++ [34%N] ++ py "a" ++ [34%N]
      ++ py ": -2, " ++ [34%N] ++ py "b" ++ [34%N] ++ py ": 1}]}".
Proof. by vm_compute. Qed.

Example strip_blanks : strip (py "  Hi!   ") = py "Hi!".
Proof. by vm_compute. Qed.

Example lower_name : lower (py "OpenAI") = py "openai".
Proof. by vm_compute. Qed.

Example json_loads_nested :
  json_loads (py " {" ++ [34%N] ++ py "a" ++ [34%N] ++ py " : [1, -2.5e3, true, null, {}]} ")
  = POk (PDict [(py "a", PList [PInt 1; PFloat (py "-2.5e3"); PBool true; PNone; PDict []])]) [].
Proof. by vm_compute. Qed.

Example json_loads_trailing_comma : json_loads (py "[1,2,]") = PErr.
Proof. by vm_compute. Qed.

Example json_loads_extra_data : json_loads (py "[1] x") = PErr.
Proof. by vm_compute. Qed.

Example json_loads_unclosed : json_loads (py "[[[[[[") = PErr.
Proof. by vm_compute. Qed.

End LibraryValues.

(** ** The order on strings and [sorted] *)

Section StringOrder.

Lemma str_leb_refl (a : pystr) : str_leb a a = true.
Proof.
  induction a as [|x a IH]; simpl; [done|].
  rewrite N.ltb_irrefl, N.eqb_refl. exact IH.
Qed.

Lemma str_leb_total (a b : pystr) : str_leb a b = true ∨ str_leb b a = true.
Proof.
  revert b. induction a as [|x a IH]; intros [|y b]; simpl; auto.
  destruct (N.ltb_spec x y) as [Hxy|Hxy]; [by left|].
  destruct (N.ltb_spec y x) as [Hyx|Hyx]; [by right|].
  assert (x = y) as -> by lia. rewrite N.eqb_refl. apply IH.
Qed.

Lemma str_leb_antisym (a b : pystr) :
  str_leb a b = true → str_leb b a = true → a = b.
Proof.
  revert b. induction a as [|x a IH]; intros [|y b]; simpl; try done.
  destruct (N.ltb_spec x y) as [Hxy|Hxy].
  - destruct (N.ltb_spec y x) as [Hyx|Hyx]; [lia|].
    destruct (N.eqb_spec y x); [lia|done].
  - destruct (N.eqb_spec x y) as [->|Hne]; [|done].
    rewrite N.ltb_irrefl, N.eqb_refl. intros H1 H2. f_equal. by apply IH.
Qed.

Lemma str_leb_trans (a b c : pystr) :
  str_leb a b = true → str_leb b c = true → str_leb a c = true.
Proof.
  revert b c. induction a as [|x a IH]; intros [|y b] [|z c]; simpl; try done.
  destruct (N.ltb_spec x y) as [Hxy|Hxy].
  - intros _. destruct (N.ltb_spec y z) as [Hyz|Hyz].
    + intros _. destruct (N.ltb_spec x z); [done|lia].
    + destruct (N.eqb_spec y z) as [->|]; [|done].
      intros _. destruct (N.ltb_spec x z); [done|lia].
  - destruct (N.eqb_spec x y) as [->|]; [|done].
    intros Hab. destruct (N.ltb_spec y z) as [Hyz|Hyz]; [done|].
    destruct (N.eqb_spec y z) as [->|]; [|done].
    intros Hbc. by apply (IH b c).
Qed.

Context {V : Type}.

Global Instance item_le_trans : Transitive (@item_le V).
Proof. intros a b c. unfold item_le. apply str_leb_trans. Qed.

Global Instance item_le_total : Total (@item_le V).
Proof. intros a b. unfold item_le. apply str_leb_total. Qed.

Lemma sorted_Permutation (l : list (pystr * V)) : sorted l ≡ₚ l.
Proof. apply merge_sort_Permutation. Qed.

Lemma sorted_StronglySorted (l : list (pystr * V)) :
  StronglySorted item_le (sorted l).
Proof. apply StronglySorted_merge_sort; apply _. Qed.

Lemma StronglySorted_filter (R : relation (pystr * V)) (P : pystr * V → Prop)
    `{!∀ x, Decision (P x)} (l : list (pystr * V)) :
  StronglySorted R l → StronglySorted R (filter P l).
Proof.
  induction 1 as [|x l Hl IH Hx]; [constructor|].
  rewrite filter_cons. case_decide; [|done].
  constructor; [done|].
  rewrite Forall_forall in Hx |- *. intros y Hy.
  apply list_elem_of_filter in Hy as [_ Hy]. auto.
Qed.

(** Items with distinct keys are determined by their key. *)
Lemma NoDup_keys_eq (l : list (pystr * V)) (a b : pystr * V) :
  NoDup l.*1 → a ∈ l → b ∈ l → a.1 = b.1 → a = b.
Proof.
  induction l as [|x l IH]; intros Hnd Ha Hb Hk; [by inv Ha|].
  rewrite fmap_cons in Hnd. apply NoDup_cons in Hnd as [Hx Hnd].
  inv Ha; inv Hb; try done.
  - exfalso. apply Hx. rewrite Hk. by apply list_elem_of_fmap_2.
  - exfalso. apply Hx. rewrite <- Hk. by apply list_elem_of_fmap_2.
  - by apply IH.
Qed.

(** Sorting then filtering forgets the order of insertion. *)
Lemma filter_sorted_unique (P : pystr * V → Prop) `{!∀ x, Decision (P x)}
    (l1 l2 : list (pystr * V)) :
  NoDup l1.*1 → filter P l1 ≡ₚ filter P l2 →
  filter P (sorted l1) = filter P (sorted l2).
Proof.
  intros Hnd Hperm.
  assert (filter P (sorted l1) ≡ₚ filter P (sorted l2)) as Hp.
  { by rewrite !sorted_Permutation. }
  apply (StronglySorted_unique_strong item_le);
    [|apply StronglySorted_filter, sorted_StronglySorted..|done].
  intros x1 x2 Hx1 Hx2 H12 H21.
  rewrite <- Hp in Hx2.
  apply list_elem_of_filter in Hx1 as [_ Hx1].
  apply list_elem_of_filter in Hx2 as [_ Hx2].
  rewrite sorted_Permutation in Hx1, Hx2.
  apply (NoDup_keys_eq l1); [done..|].
  by apply str_leb_antisym.
Qed.

End StringOrder.

(** ** C3: the cache key *)

Section CacheKey.

Import LLMCache.

(** C3. The cache key is the same for parameters supplied in another
    order, and a parameter whose value is [None] does not change it:
    the key is a function of the prompt, the model and the set of
    parameters that are not [None]. The keys of [kwargs] are pairwise
    distinct, as the keys of a Python [dict] are. *)
Theorem cache_key_determinism (prompt model : pystr) (kw1 kw2 : pydict) :
  NoDup kw1.*1 →
  (filter not_None kw1 ≡ₚ filter not_None kw2 →
     _generate_cache_key prompt model kw1 = _generate_cache_key prompt model kw2) ∧
  (kw1 ≡ₚ kw2 →
     _generate_cache_key prompt model kw1 = _generate_cache_key prompt model kw2) ∧
  (∀ k, kw2 ≡ₚ (k, PNone) :: kw1 →
     _generate_cache_key prompt model kw2 = _generate_cache_key prompt model kw1).
Proof.
  intros Hnd.
  assert (∀ a b : pydict, NoDup a.*1 → filter not_None a ≡ₚ filter not_None b →
            _generate_cache_key prompt model a = _generate_cache_key prompt model b) as Hmain.
  { intros a b Ha Hab. unfold _generate_cache_key.
    by rewrite (filter_sorted_unique not_None a b Ha Hab). }
  split; [by apply Hmain|]. split.
  - intros Hperm. apply Hmain; [done|]. by rewrite Hperm.
  - intros k Hperm. symmetry. apply Hmain; [done|].
    rewrite Hperm. by rewrite filter_cons_False by (unfold not_None; simpl; done).
Qed.


Lemma cache_key_determinism_witness :
  _generate_cache_key (py "hello") (py "simple") kw_example =
    py "63e7aca642f5fc73272621dce2b0f476" ∧
  _generate_cache_key (py "hello") (py "simple") (reverse kw_example) =
    _generate_cache_key (py "hello") (py "simple") kw_example ∧
  _generate_cache_key (py "hello") (py "simple")
      ((py "stop", PNone) :: kw_example) =
    _generate_cache_key (py "hello") (py "simple") kw_example.
Proof.
  assert (NoDup kw_example.*1) as Hnd.
  { apply (bool_decide_unpack _). by vm_compute. }
  destruct (cache_key_determinism (py "hello") (py "simple") kw_example
              (reverse kw_example) Hnd) as (_ & Horder & _).
  destruct (cache_key_determinism (py "hello") (py "simple") kw_example
              ((py "stop", PNone) :: kw_example) Hnd) as (_ & _ & Hnull).
  split; [by vm_compute|]. split.
  - symmetry. apply Horder. by rewrite reverse_Permutation.
  - by apply (Hnull (py "stop")).
Defined.

End CacheKey.

(** ** C4 and C10: the cache directory *)

Section CacheDirectory.

Import LLMCache.

Implicit Types (dir : CacheDir) (prompt model : pystr) (kwargs : pydict).

(** What [get] does when the file of the key holds an entry. *)
Lemma get_entry prompt model kwargs (e : CacheEntry) (max_age_hours now : Z) dir :
  dir !! _generate_cache_key prompt model kwargs = Some (Entry e) →
  get prompt model max_age_hours kwargs now dir =
    if (now - ce_cached_at e >? timedelta_hours max_age_hours)%Z
    then (None, delete (_generate_cache_key prompt model kwargs) dir)
    else (ce_response e, dir).
Proof. intros Hfile. unfold get. by rewrite Hfile. Qed.

Lemma get_missing prompt model kwargs (max_age_hours now : Z) dir :
  dir !! _generate_cache_key prompt model kwargs = None →
  get prompt model max_age_hours kwargs now dir = (None, dir).
Proof. intros Hfile. unfold get. by rewrite Hfile. Qed.

Lemma get_unparsable prompt model kwargs (max_age_hours now : Z) dir :
  dir !! _generate_cache_key prompt model kwargs = Some Unparsable →
  get prompt model max_age_hours kwargs now dir = (None, dir).
Proof. intros Hfile. unfold get. by rewrite Hfile. Qed.

(** The file [set] leaves for its key. *)
Lemma set_lookup prompt model (response : option pystr) kwargs (now : Z) dir :
  set prompt model response kwargs now dir
    !! _generate_cache_key prompt model kwargs =
  Some (Entry (cache_data_of prompt model response kwargs now)).
Proof. unfold set, dump, open_w. by rewrite lookup_insert_eq. Qed.

Lemma set_lookup_ne prompt model (response : option pystr) kwargs (now : Z) dir k :
  k ≠ _generate_cache_key prompt model kwargs →
  set prompt model response kwargs now dir !! k = dir !! k.
Proof.
  intros Hk. unfold set, dump, open_w.
  by rewrite !lookup_insert_ne by done.
Qed.

(** [get] answers with nothing or with the response of the entry that
    the file of the key holds. *)
Lemma get_result prompt model kwargs (max_age_hours now : Z) dir :
  (get prompt model max_age_hours kwargs now dir).1 = None ∨
  ∃ e, dir !! _generate_cache_key prompt model kwargs = Some (Entry e) ∧
       (now - ce_cached_at e ≤ timedelta_hours max_age_hours)%Z ∧
       (get prompt model max_age_hours kwargs now dir).1 = ce_response e.
Proof.
  unfold get.
  destruct (dir !! _generate_cache_key prompt model kwargs) as [[e|]|] eqn:Hfile;
    [|by left..].
  destruct (Z.gtb_spec (now - ce_cached_at e) (timedelta_hours max_age_hours));
    [by left|].
  right. exists e. split_and!; [done|lia|done].
Qed.




(** C10, as the specification states it, fails: while [set] replaces
    an entry, the file of the key is found empty between [open] and
    [json.dump]. A reader that comes then finds neither the old nor the
    new entry, and its [get] is a miss although both entries are
    fresh. *)
Lemma cache_write_not_atomic :
  let old := set (py "hello") (py "simple") (Some (py "the old response")) [] 0 ∅ in
  let cache_key := _generate_cache_key (py "hello") (py "simple") [] in
  let during :=
    states_during_set (py "hello") (py "simple") (Some (py "the new response")) [] hour old in
  ∃ before between after,
    during = [before; between; after] ∧
    read_file cache_key before
      = Some (Entry (cache_data_of (py "hello") (py "simple")
                       (Some (py "the old response")) [] 0)) ∧
    read_file cache_key after
      = Some (Entry (cache_data_of (py "hello") (py "simple")
                       (Some (py "the new response")) [] hour)) ∧
    read_file cache_key between = Some Unparsable ∧
    (get (py "hello") (py "simple") 168 [] (2 * hour) before).1 = Some (py "the old response") ∧
    (get (py "hello") (py "simple") 168 [] (2 * hour) between).1 = None ∧
    (get (py "hello") (py "simple") 168 [] (2 * hour) after).1 = Some (py "the new response").
Proof.
  intros old cache_key during. subst cache_key during old.
  unfold states_during_set. eexists _, _, _. split; [reflexivity|].
  split_and!.
  - apply set_lookup.
  - apply lookup_insert_eq.
  - apply lookup_insert_eq.
  - rewrite (get_entry _ _ _ _ 168 (2 * hour) _ (set_lookup _ _ _ _ _ _)).
    by vm_compute.
  - by rewrite get_unparsable by apply lookup_insert_eq.
  - unfold get, dump. rewrite lookup_insert_eq. by vm_compute.
Qed.

(** C10, amended. [set] writes in place: it opens the file of the key,
    which empties it, and then dumps the entry. A reader that comes
    while [set] runs finds the directory in one of three states: the old
    one, the one with the emptied file, the new one. Its [get] never
    returns text of a half-written entry: it returns nothing, or the
    response that a [get] before the write returns, or the response
    being written; and between [open] and [json.dump] it returns
    nothing and leaves the file as it is. Files of other keys are the
    same in the three states. *)
Theorem cache_write_in_place prompt model (response : option pystr) kwargs
    (T H now : Z) dir (seen : CacheDir) :
  seen ∈ states_during_set prompt model response kwargs T dir →
  let cache_key := _generate_cache_key prompt model kwargs in
  ((get prompt model H kwargs now seen).1 = None ∨
   (get prompt model H kwargs now seen).1 = (get prompt model H kwargs now dir).1 ∨
   (get prompt model H kwargs now seen).1 = response) ∧
  (∀ k, k ≠ cache_key → seen !! k = dir !! k) ∧
  get prompt model H kwargs now (open_w cache_key dir) = (None, open_w cache_key dir) ∧
  last (states_during_set prompt model response kwargs T dir)
    = Some (set prompt model response kwargs T dir).
Proof.
  intros Hseen cache_key. unfold states_during_set in Hseen. fold cache_key in Hseen.
  assert (open_w cache_key dir !! cache_key = Some Unparsable) as Hmid
    by apply lookup_insert_eq.
  split; [|split; [|split]].
  - apply elem_of_cons in Hseen as [->|Hseen]; [by right; left|].
    apply elem_of_cons in Hseen as [->|Hseen].
    { left. by rewrite (get_unparsable _ _ _ _ _ _ Hmid). }
    apply list_elem_of_singleton in Hseen as ->.
    destruct (get_result prompt model kwargs H now
                (dump cache_key (cache_data_of prompt model response kwargs T)
                   (open_w cache_key dir))) as [Hnone|(e & Hfile & _ & Hget)];
      [by left|].
    right; right. rewrite Hget.
    unfold dump in Hfile. fold cache_key in Hfile.
    rewrite lookup_insert_eq in Hfile. by simplify_eq.
  - intros k Hk.
    apply elem_of_cons in Hseen as [->|Hseen]; [done|].
    apply elem_of_cons in Hseen as [->|Hseen].
    { unfold open_w. by rewrite lookup_insert_ne. }
    apply list_elem_of_singleton in Hseen as ->.
    unfold dump, open_w. by rewrite !lookup_insert_ne.
  - by apply get_unparsable.
  - done.
Qed.

Lemma cache_write_in_place_witness :
  let old := set (py "hello") (py "simple") (Some (py "the old response")) [] 0 ∅ in
  let cache_key := _generate_cache_key (py "hello") (py "simple") [] in
  get (py "hello") (py "simple") 168 [] (2 * hour) (open_w cache_key old)
    = (None, open_w cache_key old).
Proof.
  intros old cache_key.
  assert (open_w cache_key old ∈
            states_during_set (py "hello") (py "simple") (Some (py "the new response"))
              [] hour old) as Hseen.
  { unfold states_during_set. fold cache_key. apply elem_of_cons. right.
    apply elem_of_cons. by left. }
  exact (proj1 (proj2 (proj2 (cache_write_in_place (py "hello") (py "simple")
           (Some (py "the new response")) [] hour 168 (2 * hour) old
           (open_w cache_key old) Hseen)))).
Defined.

End CacheDirectory.

(** ** C2 and C8: the retry loop of a provider *)

Section ProviderRetry.

Import Provider.

Variable backend : Backend.

Implicit Types (p : ProviderKind) (args : GenArgs).


(** One turn of the loop, by what the SDK call gives. *)
Lemma retry_loop_rate_limited p args attempt rest e :
  backend p args attempt = BackendRaise e → is_rate_limit p e = true →
  (attempt <? max_retries - 1)%nat = true →
  retry_loop backend p args (attempt :: rest) =
    ((retry_loop backend p args rest).1,
     EvCall p args attempt :: EvSleep (retry_delay * 2 ^ Z.of_nat attempt)
       :: (retry_loop backend p args rest).2).
Proof.
  intros Hb He Hlt. cbn [retry_loop]. rewrite Hb, He, Hlt.
  by destruct (retry_loop backend p args rest).
Qed.

Lemma retry_loop_last_rate_limited p args attempt rest e :
  backend p args attempt = BackendRaise e → is_rate_limit p e = true →
  (attempt <? max_retries - 1)%nat = false →
  retry_loop backend p args (attempt :: rest) = (Raise e, [EvCall p args attempt]).
Proof. intros Hb He Hlt. cbn [retry_loop]. by rewrite Hb, He, Hlt. Qed.

Lemma retry_loop_other_error p args attempt rest e :
  backend p args attempt = BackendRaise e → is_rate_limit p e = false →
  retry_loop backend p args (attempt :: rest) = (Raise e, [EvCall p args attempt]).
Proof. intros Hb He. cbn [retry_loop]. by rewrite Hb, He. Qed.

Lemma retry_loop_text p args attempt rest response :
  backend p args attempt = BackendText response →
  retry_loop backend p args (attempt :: rest) =
    (if validate_response response then Return response
     else Raise (invalid_response p), [EvCall p args attempt]).
Proof. intros Hb. cbn [retry_loop]. rewrite Hb. by destruct (validate_response response). Qed.

(** The events of a loop belong to its provider, and none of them is
    the entry of a [generate]. *)
Lemma retry_loop_events p args attempts :
  attempted (retry_loop backend p args attempts).2 = [] ∧
  Forall (λ ev, event_provider ev = Some p ∨ event_provider ev = None)
    (retry_loop backend p args attempts).2.
Proof.
  induction attempts as [|attempt rest [IH1 IH2]]; [by split|].
  cbn [retry_loop].
  destruct (backend p args attempt) as [response|e].
  - destruct (validate_response response); split; try done;
      repeat constructor; by left.
  - destruct (is_rate_limit p e); [|split; [done|repeat constructor; by left]].
    destruct (attempt <? max_retries - 1)%nat;
      [|split; [done|repeat constructor; by left]].
    destruct (retry_loop backend p args rest) as [r evs]. simpl in *.
    split; [done|]. constructor; [by left|]. constructor; [by right|done].
Qed.

(** [generate] enters once, and all its events are its provider's. *)
Lemma generate_events p (client : bool) args :
  attempted (generate backend p client args).2 = [p] ∧
  Forall (λ ev, event_provider ev = Some p ∨ event_provider ev = None)
    (generate backend p client args).2.
Proof.
  unfold generate. destruct client; cbn [negb].
  - destruct (retry_loop_events p args (seq 0 max_retries)) as [H1 H2].
    destruct (retry_loop backend p args (seq 0 max_retries)) as [r evs].
    cbn [snd] in *. split.
    + change (p :: attempted evs = [p]). by rewrite H1.
    + constructor; [by left|done].
  - split; [done|]. repeat constructor; by left.
Qed.

(** What [validate_response] accepts. *)
Lemma validate_response_Some (text : pystr) :
  validate_response (Some text) = true ↔ 10 ≤ length (strip text).
Proof.
  unfold validate_response.
  destruct (decide (text = [])) as [->|Hne].
  { rewrite bool_decide_eq_true_2 by done. simpl. split; [done|].
    vm_compute. lia. }
  rewrite (bool_decide_eq_false_2 (text = [])) by done.
  destruct (decide (strip text = [])) as [Hs|Hs].
  { rewrite bool_decide_eq_true_2 by done. rewrite Hs. simpl. split; [done|lia]. }
  rewrite bool_decide_eq_false_2 by done. simpl.
  destruct (Nat.ltb_spec (length (strip text)) 10); split; (done || lia).
Qed.

(** [generate] of a provider with a client, one attempt after another. *)
Lemma generate_unfold p args :
  generate backend p true args =
    ((retry_loop backend p args [0; 1; 2]).1,
     EvGenerate p :: (retry_loop backend p args [0; 1; 2]).2).
Proof.
  unfold generate. cbn [negb]. change (seq 0 max_retries) with [0; 1; 2].
  by destruct (retry_loop backend p args [0; 1; 2]).
Qed.

(** C2, amended. A [generate] whose SDK call hits the rate limit on
    every attempt calls the SDK exactly 3 times, sleeps 1 second before
    the second attempt and 2 seconds before the third, and then raises
    the rate-limit error of the third attempt, without sleeping again:
    no delay of 4 seconds is ever slept. Any other error of the SDK is
    raised at once: the attempt that meets it is the last call and no
    sleep follows it. This holds for the three providers. *)
Theorem retry_policy p args :
  ((∀ k, rate_limited_at backend p args k) →
     ∃ e, backend p args 2 = BackendRaise e ∧
          generate backend p true args =
            (Raise e,
             [EvGenerate p; EvCall p args 0; EvSleep 1; EvCall p args 1;
              EvSleep 2; EvCall p args 2])) ∧
  (∀ k e, k < max_retries → (∀ j, j < k → rate_limited_at backend p args j) →
     backend p args k = BackendRaise e → is_rate_limit p e = false →
     (generate backend p true args).1 = Raise e ∧
     calls (generate backend p true args).2 = (λ j, (p, j)) <$> seq 0 (S k) ∧
     sleeps (generate backend p true args).2 = (λ j, 2 ^ Z.of_nat j)%Z <$> seq 0 k).
Proof.
  split.
  - intros Hlimit.
    destruct (Hlimit 0) as (e0 & Hb0 & He0).
    destruct (Hlimit 1) as (e1 & Hb1 & He1).
    destruct (Hlimit 2) as (e2 & Hb2 & He2).
    exists e2. split; [done|].
    rewrite generate_unfold.
    rewrite (retry_loop_rate_limited p args 0 _ e0) by done.
    rewrite (retry_loop_rate_limited p args 1 _ e1) by done.
    by rewrite (retry_loop_last_rate_limited p args 2 _ e2) by done.
  - intros k e Hk Hlimit Hb He. rewrite generate_unfold. unfold max_retries in Hk.
    destruct k as [|[|[|k]]]; [| | |lia].
    + by rewrite (retry_loop_other_error p args 0 _ e) by done.
    + destruct (Hlimit 0) as (e0 & Hb0 & He0); [lia|].
      rewrite (retry_loop_rate_limited p args 0 _ e0) by done.
      by rewrite (retry_loop_other_error p args 1 _ e) by done.
    + destruct (Hlimit 0) as (e0 & Hb0 & He0); [lia|].
      destruct (Hlimit 1) as (e1 & Hb1 & He1); [lia|].
      rewrite (retry_loop_rate_limited p args 0 _ e0) by done.
      rewrite (retry_loop_rate_limited p args 1 _ e1) by done.
      by rewrite (retry_loop_other_error p args 2 _ e) by done.
Qed.

End ProviderRetry.


(** C2, as the specification states it, fails: on a backend that is
    rate limited on every attempt the delays slept are 1 and 2
    seconds, not 1, 2 and 4 seconds. *)
Lemma retry_backoff_has_no_third_delay :
  calls (Provider.generate always_rate_limited Claude true some_args).2
    = [(Claude, 0); (Claude, 1); (Claude, 2)] ∧
  sleeps (Provider.generate always_rate_limited Claude true some_args).2 = [1; 2]%Z ∧
  sleeps (Provider.generate always_rate_limited Claude true some_args).2 ≠ [1; 2; 4]%Z ∧
  (Provider.generate always_rate_limited Claude true some_args).1 = Raise throttled.
Proof. by vm_compute. Qed.

Lemma retry_policy_witness :
  Provider.generate always_rate_limited Bedrock true some_args =
    (Raise throttled_bedrock,
     [EvGenerate Bedrock; EvCall Bedrock some_args 0; EvSleep 1;
      EvCall Bedrock some_args 1; EvSleep 2; EvCall Bedrock some_args 2]).
Proof.
  destruct (retry_policy always_rate_limited Bedrock some_args) as [Hall _].
  destruct Hall as (e & He & Hrun).
  - intros k. exists throttled_bedrock. split; [reflexivity|by vm_compute].
  - vm_compute in He. by simplify_eq.
Defined.

(** ** C1: the fallback chain of [LLMManager.generate] *)

Section FallbackChain.

Import LLMManager.

Variable backend : Backend.
Variable req : Request.
Variable t_set : Z.

Implicit Types (w : World) (p q : ProviderKind) (ps : Providers).


(** One turn of the loop. *)
Lemma try_providers_success_head n idx p rest last_error w response :
  (outcome backend req w p).1 = Return response →
  try_providers backend req t_set n idx (p :: rest) last_error w =
    (Return response, cache_written req t_set w response, (outcome backend req w p).2).
Proof.
  intros Hp. cbn [try_providers]. fold (outcome backend req w p).
  destruct (outcome backend req w p) as [r evs]. simpl in Hp. subst r.
  unfold cache_written. by destruct (use_cache req).
Qed.

Lemma try_providers_failure_last n idx p rest last_error w e :
  (outcome backend req w p).1 = Raise e →
  negb (fallback req) || (idx =? n - 1)%nat = true →
  try_providers backend req t_set n idx (p :: rest) last_error w =
    (Raise (all_failed (Some e)), w, (outcome backend req w p).2).
Proof.
  intros Hp Hlast. cbn [try_providers]. fold (outcome backend req w p).
  destruct (outcome backend req w p) as [r evs]. simpl in Hp. subst r.
  by rewrite Hlast.
Qed.

Lemma try_providers_failure_next n idx p rest last_error w e :
  (outcome backend req w p).1 = Raise e →
  negb (fallback req) || (idx =? n - 1)%nat = false →
  try_providers backend req t_set n idx (p :: rest) last_error w =
    ((try_providers backend req t_set n (S idx) rest (Some e) w).1.1,
     (try_providers backend req t_set n (S idx) rest (Some e) w).1.2,
     (outcome backend req w p).2 ++ (try_providers backend req t_set n (S idx) rest (Some e) w).2).
Proof.
  intros Hp Hnext. cbn [try_providers]. fold (outcome backend req w p).
  destruct (outcome backend req w p) as [r evs]. simpl in Hp. subst r.
  rewrite Hnext.
  by destruct (try_providers backend req t_set n (S idx) rest (Some e) w) as [[??]?].
Qed.

(** Every candidate fails: each is tried, in order, and the error of
    the last one is reported. *)
Lemma try_providers_all_fail candidates (errs : list exn) :
  ∀ n idx last_error w,
    fallback req = true ∨ length candidates ≤ 1 →
    n = idx + length candidates →
    Forall2 (λ q e, (outcome backend req w q).1 = Raise e) candidates errs →
    try_providers backend req t_set n idx candidates last_error w =
      (Raise (all_failed (match last errs with Some e => Some e | None => last_error end)),
       w, events_of backend req w candidates).
Proof.
  intros n idx last_error w Hfb Hn Hfail. revert idx last_error Hfb Hn.
  induction Hfail as [|p e rest errs' Hp Hrest IH]; intros idx last_error Hfb Hn; [done|].
  destruct rest as [|p' rest].
  - apply Forall2_nil_inv_l in Hrest as ->.
    rewrite (try_providers_failure_last _ _ _ _ _ _ e Hp).
    + unfold events_of. simpl. by rewrite app_nil_r.
    + simpl in Hn. replace (n - 1) with idx by lia.
      rewrite Nat.eqb_refl. by rewrite orb_true_r.
  - destruct Hfb as [Hfb|Hlen]; [|simpl in Hlen; lia].
    rewrite (try_providers_failure_next _ _ _ _ _ _ e Hp).
    + rewrite IH; [|by left|simpl in *; lia].
      destruct errs' as [|e' errs']; [by inversion Hrest|].
      cbn [fst snd]. change (last (e :: e' :: errs')) with (last (e' :: errs')).
      destruct (last (e' :: errs')) eqn:Hlast; [done|].
      by apply last_None in Hlast.
    + rewrite Hfb. simpl in *. apply Nat.eqb_neq. lia.
Qed.

(** A candidate succeeds after the ones before it have failed: the
    loop stops there. *)
Lemma try_providers_first_success pre (errs : list exn) p response post :
  ∀ n idx last_error w,
    fallback req = true ∨ pre = [] →
    n = idx + length (pre ++ p :: post) →
    Forall2 (λ q e, (outcome backend req w q).1 = Raise e) pre errs →
    (outcome backend req w p).1 = Return response →
    try_providers backend req t_set n idx (pre ++ p :: post) last_error w =
      (Return response, cache_written req t_set w response,
       events_of backend req w (pre ++ [p])).
Proof.
  intros n idx last_error w Hfb Hn Hfail Hp. revert idx last_error Hfb Hn.
  induction Hfail as [|q e pre' errs' Hq Hpre IH]; intros idx last_error Hfb Hn.
  - cbn [app]. rewrite (try_providers_success_head _ _ _ _ _ _ response Hp).
    unfold events_of. simpl. by rewrite app_nil_r.
  - destruct Hfb as [Hfb|?]; [|done].
    rewrite <- app_comm_cons.
    rewrite (try_providers_failure_next _ _ _ _ _ _ e Hq).
    + rewrite IH; [done|by left|]. rewrite length_app in *. simpl in *. lia.
    + rewrite Hfb. simpl. apply Nat.eqb_neq.
      rewrite length_app in Hn. simpl in Hn. lia.
Qed.

(** The trace of a run over candidates: who was tried, and whose
    events it holds. *)
Lemma events_of_cons w p candidates :
  events_of backend req w (p :: candidates) =
    (outcome backend req w p).2 ++ events_of backend req w candidates.
Proof. done. Qed.

Lemma attempted_events_of w candidates :
  attempted (events_of backend req w candidates) = candidates.
Proof.
  induction candidates as [|p rest IH]; [done|].
  rewrite events_of_cons.
  assert (∀ a b, attempted (a ++ b) = attempted a ++ attempted b) as ->
    by (intros; apply omap_app).
  rewrite IH. unfold outcome.
  by rewrite (proj1 (generate_events backend p _ _)).
Qed.

Lemma events_of_provider w candidates ev q :
  ev ∈ events_of backend req w candidates → event_provider ev = Some q → q ∈ candidates.
Proof.
  induction candidates as [|p rest IH]; [by intros ?%elem_of_nil|].
  rewrite events_of_cons. intros [Hev|Hev]%elem_of_app Hq.
  - destruct (generate_events backend p (client (providers w p)) (gen_args req w p))
      as [_ Hall].
    rewrite Forall_forall in Hall. destruct (Hall ev Hev) as [Hp|Hp]; [|congruence].
    rewrite Hq in Hp. simplify_eq. by left.
  - right. by apply IH.
Qed.

End FallbackChain.

(** ** Routing *)

Section Routing.

Import LLMManager.

Implicit Types (p q : ProviderKind) (ps : Providers).

Lemma set_model_client p m ps q : client (set_model p m ps q) = client (ps q).
Proof. unfold set_model. by case_decide; subst. Qed.

Lemma set_model_model p m ps : model (set_model p m ps p) = m.
Proof. unfold set_model. by rewrite decide_True. Qed.

Lemma set_model_other p m ps q : q ≠ p → set_model p m ps q = ps q.
Proof. intros Hne. unfold set_model. by rewrite decide_False. Qed.

Lemma elem_of_available p ps : p ∈ available_providers ps ↔ client (ps p) = true.
Proof.
  unfold available_providers. rewrite list_elem_of_filter.
  split; [by intros [? _]|]. intros Hc. split; [done|].
  unfold priority. destruct p; set_solver.
Qed.

Lemma NoDup_available ps : NoDup (available_providers ps).
Proof.
  apply NoDup_filter. unfold priority.
  apply (bool_decide_unpack _). by vm_compute.
Qed.

Lemma available_providers_ext ps ps' :
  (∀ q, client (ps' q) = client (ps q)) →
  available_providers ps' = available_providers ps.
Proof.
  intros Hc. unfold available_providers. apply list_filter_iff.
  intros q. by rewrite Hc.
Qed.

Lemma cheap_route_Some ps p ps' :
  cheap_route ps = Some (p, ps') →
  client (ps p) = true ∧ (∀ q, client (ps' q) = client (ps q)).
Proof.
  unfold cheap_route.
  destruct (List.find _ priority) as [p0|] eqn:Hfind; [|done].
  apply List.find_some in Hfind as [_ Hc]. intros ?; simplify_eq.
  split; [done|]. intros q.
  destruct (get_cheap_model p); [apply set_model_client|done].
Qed.

(** Routing selects a provider that has a client, and changes no client. *)
Lemma get_provider_Some (provider_name : option pystr) (task_type : pystr) ps p ps' :
  get_provider provider_name task_type ps = (Some p, ps') →
  client (ps' p) = true ∧ (∀ q, client (ps' q) = client (ps q)).
Proof.
  unfold get_provider.
  assert (∀ p0, requested provider_name ps = Some p0 → client (ps p0) = true) as Hreq.
  { intros p0. unfold requested. destruct provider_name as [name|]; [|done].
    destruct (truthy (Some name)); [|done].
    unfold available_get. intros [Hin _]%List.find_some.
    by apply list_elem_of_In, elem_of_available in Hin. }
  destruct (requested provider_name ps) as [p0|];
    [intros ?; simplify_eq; split; [by apply Hreq|done]|].
  clear Hreq.
  set (routed := if bool_decide _ then _ else _).
  assert (∀ p0 ps0, routed = Some (p0, ps0) →
            client (ps p0) = true ∧ (∀ q, client (ps0 q) = client (ps q))) as Hrouted.
  { intros p0 ps0. unfold routed.
    repeat case_bool_decide; try done; try apply cheap_route_Some.
    destruct (client (ps Claude)) eqn:Hc.
    { intros ?; simplify_eq. split; [done|]. intros q. apply set_model_client. }
    destruct (client (ps OpenAI)) eqn:Ho; [|done].
    intros ?; simplify_eq. split; [done|]. intros q. apply set_model_client. }
  destruct routed as [[p0 ps0]|].
  - intros ?; simplify_eq. destruct (Hrouted p ps' eq_refl) as [Hc Hall].
    split; [by rewrite Hall|done].
  - intros ?; simplify_eq. split; [|done].
    match goal with
    | H : head _ = Some _ |- _ =>
        apply head_Some_elem_of in H; by apply elem_of_available in H
    end.
Qed.

(** The primary and the fallback chain are the available providers. *)
Lemma primary_then_others (l : list ProviderKind) p :
  NoDup l → p ∈ l → p :: filter (λ q, q ≠ p) l ≡ₚ l.
Proof.
  induction l as [|x l IH]; intros Hnd Hp; [by apply elem_of_nil in Hp|].
  apply NoDup_cons in Hnd as [Hx Hnd].
  destruct (decide (x = p)) as [->|Hne].
  - rewrite filter_cons_False by (intros ?; done).
    f_equiv. clear IH Hp Hnd. induction l as [|y l IH]; [done|].
    apply not_elem_of_cons in Hx as [Hy Hx].
    rewrite filter_cons_True by done. f_equiv. by apply IH.
  - apply elem_of_cons in Hp as [->|Hp]; [done|].
    rewrite filter_cons_True by done. rewrite Permutation_swap. f_equiv. by apply IH.
Qed.

Lemma providers_to_try_NoDup (req : Request) ps p :
  NoDup (providers_to_try req ps p).
Proof.
  unfold providers_to_try. apply NoDup_cons. split.
  - destruct (fallback req); [|apply not_elem_of_nil].
    rewrite list_elem_of_filter. by intros [? _].
  - destruct (fallback req); [|constructor].
    apply NoDup_filter, NoDup_available.
Qed.

End Routing.

(** ** C1: the contract of the fallback executor *)

Section Executor.

Import LLMManager.


(** [generate] once the cache has been missed and a primary routed. *)
Lemma generate_miss backend (t_get t_set : Z) req w p ps :
  truthy (looked_up t_get req w).1 = false →
  get_provider (provider_name req) (task_type req) (providers w) = (Some p, ps) →
  generate backend t_get t_set req w =
    try_providers backend req t_set (length (providers_to_try req ps p)) 0
      (providers_to_try req ps p) None
      {| providers := ps; cache := (looked_up t_get req w).2 |}.
Proof.
  intros Hmiss Hroute. unfold generate. fold (looked_up t_get req w).
  destruct (looked_up t_get req w) as [cached_response dir].
  simpl in Hmiss. rewrite Hmiss, Hroute. done.
Qed.


End Executor.



(** ** C6: low-cost routing *)

Section LowCostRouting.

Import LLMManager.

Implicit Types (p q : ProviderKind) (ps : Providers).

(** [List.find] returns the first element that passes. *)
Lemma find_first {A} (f : A → bool) (l : list A) x :
  List.find f l = Some x →
  ∃ l1 l2, l = l1 ++ x :: l2 ∧ f x = true ∧ ∀ y, y ∈ l1 → f y = false.
Proof.
  induction l as [|a l IH]; [done|]. simpl.
  destruct (f a) eqn:Ha.
  - intros ?; simplify_eq. exists [], l. split; [done|]. split; [done|].
    by intros y ?%elem_of_nil.
  - intros (l1 & l2 & -> & Hx & Hbefore)%IH.
    exists (a :: l1), l2. split; [done|]. split; [done|].
    intros y [->|Hy]%elem_of_cons; auto.
Qed.

Lemma find_none_available ps :
  List.find (λ p, client (ps p)) priority = None → available_providers ps = [].
Proof.
  intros Hnone. unfold available_providers.
  induction priority as [|q l IH]; [done|].
  simpl in Hnone. destruct (client (ps q)) eqn:Hq; [done|].
  rewrite filter_cons_False by (by rewrite Hq). by apply IH.
Qed.

Lemma get_provider_cheap (provider_name : option pystr) (task_type : pystr) ps :
  task_type = py "simple" ∨ task_type = py "refinement" →
  requested provider_name ps = None →
  get_provider provider_name task_type ps =
    match cheap_route ps with
    | Some (p, ps') => (Some p, ps')
    | None => (head (available_providers ps), ps)
    end.
Proof.
  intros Htask Hreq. unfold get_provider. rewrite Hreq.
  destruct Htask as [->| ->].
  - by rewrite bool_decide_eq_true_2 by done.
  - rewrite (bool_decide_eq_false_2 (py "refinement" = py "simple")) by (by vm_compute).
    rewrite (bool_decide_eq_false_2 (py "refinement" = py "script_generation"))
      by (by vm_compute).
    by rewrite bool_decide_eq_true_2 by done.
Qed.





End LowCostRouting.

(** ** C8: only valid text is a success *)

Section ResponseValidity.

Import LLMManager.

Variable backend : Backend.

Implicit Types (p q : ProviderKind) (args : GenArgs).

(** The three attempts of [range(Provider.max_retries)] return valid text or raise. *)
Lemma retry_loop_return p args r evs :
  Provider.retry_loop backend p args [0; 1; 2] = (Return r, evs) →
  Provider.validate_response r = true.
Proof.
  cbn [Provider.retry_loop].
  repeat (first
    [ progress simplify_eq
    | match goal with
      | |- context [match backend ?a ?b ?c with _ => _ end] =>
          destruct (backend a b c) eqn:?
      | |- context [if Provider.validate_response ?x then _ else _] =>
          destruct (Provider.validate_response x) eqn:?
      | |- context [if Provider.is_rate_limit ?a ?b then _ else _] =>
          destruct (Provider.is_rate_limit a b) eqn:?
      end
    | progress cbn [Nat.ltb Nat.leb Provider.max_retries Nat.sub] ]);
  intros; simplify_eq; done.
Qed.

Lemma generate_return p (client : bool) args r evs :
  Provider.generate backend p client args = (Return r, evs) →
  client = true ∧ ∃ text, r = Some text ∧ 10 ≤ length (strip text).
Proof.
  destruct client; [|done]. rewrite generate_unfold. intros Hrun.
  split; [done|].
  destruct (Provider.retry_loop backend p args [0; 1; 2]) as [r' evs'] eqn:Hloop.
  cbn [fst snd] in Hrun. simplify_eq.
  pose proof (retry_loop_return p args r evs' Hloop) as Hvalid.
  destruct r as [text|]; [|done].
  exists text. split; [done|]. by apply validate_response_Some.
Qed.

(** C8. [generate] of a provider succeeds only with text that has at
    least 10 characters once stripped. A reply that is missing, empty,
    blank or shorter than that is not returned: [generate] raises, that
    attempt is its last call of the SDK (no retry), and the executor
    moves on to the next provider of the chain, whose text it returns
    if it succeeds. *)
Theorem response_validity p args :
  (∀ (client : bool) r evs,
     Provider.generate backend p client args = (Return r, evs) →
     ∃ text, r = Some text ∧ 10 ≤ length (strip text)) ∧
  (∀ k response,
     k < Provider.max_retries → (∀ j, j < k → rate_limited_at backend p args j) →
     backend p args k = BackendText response →
     (response = None ∨ ∃ text, response = Some text ∧ length (strip text) < 10) →
     (Provider.generate backend p true args).1 = Raise (Provider.invalid_response p) ∧
     calls (Provider.generate backend p true args).2 = (λ j, (p, j)) <$> seq 0 (S k)) ∧
  (∀ (t_get t_set : Z) req w ps q rest next_response,
     truthy (looked_up t_get req w).1 = false →
     get_provider (provider_name req) (task_type req) (providers w) = (Some p, ps) →
     providers_to_try req ps p = p :: q :: rest →
     let w0 := {| providers := ps; cache := (looked_up t_get req w).2 |} in
     (outcome backend req w0 p).1 = Raise (Provider.invalid_response p) →
     (outcome backend req w0 q).1 = Return next_response →
     (LLMManager.generate backend t_get t_set req w).1.1 = Return next_response ∧
     attempted (LLMManager.generate backend t_get t_set req w).2 = [p; q]).
Proof.
  split; [|split].
  - intros client r evs Hrun. by apply generate_return in Hrun as [_ ?].
  - intros k response Hk Hlimit Hb Hbad.
    assert (Provider.validate_response response = false) as Hinvalid.
    { destruct Hbad as [->|(text & -> & Hshort)]; [done|].
      apply not_true_is_false. rewrite validate_response_Some. lia. }
    rewrite generate_unfold. unfold Provider.max_retries in Hk.
    destruct k as [|[|[|k]]]; [| | |lia].
    + rewrite (retry_loop_text backend p args 0 _ response) by done.
      by rewrite Hinvalid.
    + destruct (Hlimit 0) as (e0 & Hb0 & He0); [lia|].
      rewrite (retry_loop_rate_limited backend p args 0 _ e0) by done.
      rewrite (retry_loop_text backend p args 1 _ response) by done.
      by rewrite Hinvalid.
    + destruct (Hlimit 0) as (e0 & Hb0 & He0); [lia|].
      destruct (Hlimit 1) as (e1 & Hb1 & He1); [lia|].
      rewrite (retry_loop_rate_limited backend p args 0 _ e0) by done.
      rewrite (retry_loop_rate_limited backend p args 1 _ e1) by done.
      rewrite (retry_loop_text backend p args 2 _ response) by done.
      by rewrite Hinvalid.
  - intros t_get t_set req w ps q rest next_response Hmiss Hroute Hchain w0 Hp Hq.
    rewrite (generate_miss backend t_get t_set req w p ps Hmiss Hroute).
    fold w0. rewrite Hchain.
    assert (fallback req = true) as Hfb.
    { unfold providers_to_try in Hchain. by destruct (fallback req). }
    rewrite (try_providers_first_success backend req t_set [p] [Provider.invalid_response p]
               q next_response rest); [|by left|done|by repeat constructor|done].
    split; [done|]. cbn [snd]. apply attempted_events_of.
Qed.

End ResponseValidity.


Lemma response_validity_witness :
  (Provider.generate claude_too_short Claude true some_args).1
    = Raise (Provider.invalid_response Claude) ∧
  calls (Provider.generate claude_too_short Claude true some_args).2 = [(Claude, 0)] ∧
  (LLMManager.generate claude_too_short 0 7000000 simple_request (fresh_world two_keys)).1.1
    = Return (Some hook_text) ∧
  attempted
    (LLMManager.generate claude_too_short 0 7000000 simple_request (fresh_world two_keys)).2
    = [Claude; OpenAI].
Proof.
  destruct (response_validity claude_too_short Claude some_args) as (_ & Hinvalid & _).
  destruct (Hinvalid 0 (Some (py "  Hi!   "))) as [Hraise Hcalls].
  { unfold Provider.max_retries. lia. }
  { intros j Hj. lia. }
  { reflexivity. }
  { right. eexists. split; [reflexivity|]. vm_compute. lia. }
  pose (ps := (LLMManager.get_provider None (py "simple")
                 (providers (fresh_world two_keys))).2).
  destruct (response_validity claude_too_short Claude
              (LLMManager.gen_args simple_request
                 {| providers := ps;
                    cache := (looked_up 0 simple_request (fresh_world two_keys)).2 |}
                 Claude)) as (_ & _ & Hescalate).
  destruct (Hescalate 0%Z 7000000%Z simple_request (fresh_world two_keys) ps OpenAI []
              (Some hook_text)) as [Hresult Htried]; [by vm_compute..|].
  by split_and!.
Defined.

(** ** C9: what the cache entry of a request depends on *)

Section CacheSharing.

Import LLMManager.

Implicit Types (w : World) (req : Request).

(** A success of the loop is the success of one candidate, and its
    text is what the cache write stores. *)
Lemma try_providers_return backend req (t_set : Z) candidates :
  ∀ n idx last_error w r w' evs,
    try_providers backend req t_set n idx candidates last_error w = (Return r, w', evs) →
    w' = cache_written req t_set w r ∧
    ∃ p, p ∈ candidates ∧ (outcome backend req w p).1 = Return r.
Proof.
  induction candidates as [|p rest IH]; intros n idx last_error w r w' evs; [done|].
  cbn [try_providers]. fold (outcome backend req w p).
  destruct (outcome backend req w p) as [[response|e] evs0] eqn:Hp.
  - intros ?; simplify_eq. split; [done|]. exists p. split; [by left|].
    by rewrite Hp.
  - destruct (negb (fallback req) || (idx =? n - 1)%nat); [done|].
    destruct (try_providers backend req t_set n (S idx) rest (Some e) w)
      as [[r0 w0] evs1] eqn:Hrest.
    intros ?; simplify_eq.
    destruct (IH _ _ _ _ _ _ _ Hrest) as [? (q & Hq & Hout)].
    split; [done|]. exists q. split; [by right|done].
Qed.

(** The lookup of a request reads the prompt and the task type only. *)
Lemma looked_up_ext (t_get : Z) req1 req2 w :
  prompt req1 = prompt req2 → task_type req1 = task_type req2 →
  use_cache req1 = use_cache req2 →
  looked_up t_get req1 w = looked_up t_get req2 w.
Proof. intros Hp Ht Hc. unfold looked_up. by rewrite Hp, Ht, Hc. Qed.




End CacheSharing.

(** ** The decoder always answers *)

Section Decoder.

Lemma skip_ws_length s : length (skip_ws s) ≤ length s.
Proof. induction s as [|c s IH]; simpl; [done|]. destruct (is_json_ws c); simpl; lia. Qed.

Lemma skip_ws_cons s c t : skip_ws s = c :: t → length t < length s.
Proof. intros H. pose proof (skip_ws_length s) as Hl. rewrite H in Hl. simpl in Hl. lia. Qed.

Lemma cons_char_Some c r str rest :
  cons_char c r = Some (str, rest) → ∃ str', r = Some (str', rest).
Proof. destruct r as [[??]|]; simpl; intros; simplify_eq. by eexists. Qed.

Lemma scanstring_length n : ∀ s str rest,
  length s ≤ n → scanstring s = Some (str, rest) → length rest < length s.
Proof.
  induction n as [|n IH]; intros s str rest Hn.
  { destruct s; [done|simpl in Hn; lia]. }
  destruct s as [|c s1]; [done|]. cbn [scanstring]. simpl in Hn.
  repeat (case_match; simplify_eq; try done);
    try (intros ?; simplify_eq; simpl; lia);
    intros (str' & Hrec)%cons_char_Some;
    apply IH in Hrec; simpl in *; lia.
Qed.

Lemma span_digits_length s ds rest :
  span_digits s = (ds, rest) → length s = length ds + length rest.
Proof.
  revert ds rest. induction s as [|c s IH]; intros ds rest; simpl.
  { intros ?; by simplify_eq. }
  destruct (is_digit c); [|intros ?; by simplify_eq].
  destruct (span_digits s) as [ds' rest'] eqn:Hs. intros ?; simplify_eq.
  specialize (IH _ _ eq_refl). simpl. lia.
Qed.

Lemma match_number_length s v rest :
  match_number s = Some (v, rest) → length rest < length s.
Proof.
  unfold match_number.
  repeat (case_match; simplify_eq; try done);
  repeat match goal with
  | Hd : is_digit ?c = true, H : span_digits (?c :: ?s) = _ |- _ =>
      cbn [span_digits] in H; rewrite Hd in H;
      destruct (span_digits s) eqn:?; simplify_eq
  end;
  repeat match goal with
  | H : span_digits _ = _ |- _ => apply span_digits_length in H
  end; intros; simplify_eq; simpl in *; lia.
Qed.

Lemma starts_with_length prefix s : starts_with prefix s = true → length prefix ≤ length s.
Proof.
  revert s. induction prefix as [|p prefix IH]; intros [|c s]; simpl; try done; [lia|].
  intros [_ H]%andb_true_iff. apply IH in H. lia.
Qed.

(** What is left after a value is shorter than what was there. *)
Lemma scan_shorter fuel :
  (∀ s v rest, scan_once fuel s = POk v rest → length rest < length s) ∧
  (∀ s pairs r rest, object_pairs fuel s pairs = POk r rest → length rest < length s) ∧
  (∀ s values r rest, array_items fuel s values = POk r rest → length rest < length s).
Proof.
  induction fuel as [|fuel (IHscan & IHobj & IHarr)]; [done|].
  split_and!.
  - intros s v rest. cbn [scan_once].
    destruct s as [|nextchar s1]; [done|].
    repeat (case_match; simplify_eq; try done); intros ?; simplify_eq;
      repeat match goal with
      | H : skip_ws _ = _ :: _ |- _ => apply skip_ws_cons in H
      | H : scanstring _ = Some _ |- _ => apply (scanstring_length _ _ _ _ (le_n _)) in H
      | H : object_pairs _ _ _ = POk _ _ |- _ => apply IHobj in H
      | H : array_items _ _ _ = POk _ _ |- _ => apply IHarr in H
      | H : match_number _ = Some _ |- _ => apply match_number_length in H
      | H : starts_with _ _ = true |- _ => apply starts_with_length in H
      end; rewrite ?length_drop; simpl in *; lia.
  - intros s pairs r rest. cbn [object_pairs].
    repeat (case_match; simplify_eq; try done); intros Hrun; simplify_eq;
      repeat match goal with
      | H : skip_ws _ = _ :: _ |- _ => apply skip_ws_cons in H
      | H : scanstring _ = Some _ |- _ => apply (scanstring_length _ _ _ _ (le_n _)) in H
      | H : scan_once _ _ = POk _ _ |- _ => apply IHscan in H
      | H : object_pairs _ _ _ = POk _ _ |- _ => apply IHobj in H
      end;
      repeat match goal with
      | |- context [skip_ws ?x] => lazymatch goal with
          | _ : length (skip_ws x) ≤ length x |- _ => fail
          | _ => pose proof (skip_ws_length x) end
      | H : context [skip_ws ?x] |- _ => lazymatch goal with
          | _ : length (skip_ws x) ≤ length x |- _ => fail
          | _ => pose proof (skip_ws_length x) end
      end; simpl in *; lia.
  - intros s values r rest. cbn [array_items].
    repeat (case_match; simplify_eq; try done); intros Hrun; simplify_eq;
      repeat match goal with
      | H : skip_ws _ = _ :: _ |- _ => apply skip_ws_cons in H
      | H : scan_once _ _ = POk _ _ |- _ => apply IHscan in H
      | H : array_items _ _ _ = POk _ _ |- _ => apply IHarr in H
      end;
      repeat match goal with
      | H : context [skip_ws ?x] |- _ => lazymatch goal with
          | _ : length (skip_ws x) ≤ length x |- _ => fail
          | _ => pose proof (skip_ws_length x) end
      end; simpl in *; lia.
Qed.

Ltac note_skip_ws :=
  repeat match goal with
  | H : context [skip_ws ?x] |- _ => lazymatch goal with
      | _ : length (skip_ws x) ≤ length x |- _ => fail
      | _ => pose proof (skip_ws_length x) end
  | |- context [skip_ws ?x] => lazymatch goal with
      | _ : length (skip_ws x) ≤ length x |- _ => fail
      | _ => pose proof (skip_ws_length x) end
  end.

Ltac note_shorter :=
  repeat match goal with
  | H : skip_ws _ = _ :: _ |- _ => apply skip_ws_cons in H
  | H : scanstring _ = Some _ |- _ => apply (scanstring_length _ _ _ _ (le_n _)) in H
  | H : scan_once _ _ = POk _ _ |- _ => apply scan_shorter in H
  end.

(** Fuel for twice the length of the text, and one more, is enough. *)
Lemma scan_enough fuel :
  (∀ s, 2 * length s + 1 ≤ fuel → scan_once fuel s ≠ PFuel) ∧
  (∀ s pairs, 2 * length s + 2 ≤ fuel → object_pairs fuel s pairs ≠ PFuel) ∧
  (∀ s values, 2 * length s + 2 ≤ fuel → array_items fuel s values ≠ PFuel).
Proof.
  induction fuel as [|fuel (IHscan & IHobj & IHarr)]; [split_and!; intros; lia|].
  split_and!.
  - intros s Hfuel. cbn [scan_once].
    destruct s as [|nextchar s1]; [done|]. simpl in Hfuel.
    repeat (case_match; simplify_eq; try done);
      match goal with
      | H : object_pairs _ ?x _ = PFuel |- _ => apply (IHobj x) in H; [done|]
      | H : array_items _ ?x _ = PFuel |- _ => apply (IHarr x) in H; [done|]
      end; note_shorter; simpl in *; lia.
  - intros s pairs Hfuel. cbn [object_pairs].
    repeat (case_match; simplify_eq; try done);
      match goal with
      | H : scan_once _ ?x = PFuel |- _ => apply (IHscan x) in H; [done|]
      | |- object_pairs _ ?x _ ≠ PFuel => apply (IHobj x)
      end; note_shorter; note_skip_ws; simpl in *; lia.
  - intros s values Hfuel. cbn [array_items].
    repeat (case_match; simplify_eq; try done);
      match goal with
      | H : scan_once _ ?x = PFuel |- _ => apply (IHscan x) in H; [done|]
      | |- array_items _ ?x _ ≠ PFuel => apply (IHarr x)
      end; note_shorter; note_skip_ws; simpl in *; lia.
Qed.

(** [json_loads] never runs out of fuel: it returns a value or
    [JSONDecodeError]. *)
Lemma json_loads_total (s : pystr) : json_loads s ≠ PFuel.
Proof.
  unfold json_loads. destruct (starts_with _ s); [done|].
  destruct (scan_once _ (skip_ws s)) as [obj rest| |] eqn:Hscan;
    [by destruct (skip_ws rest)|done|].
  apply scan_enough in Hscan; [done|].
  pose proof (skip_ws_length s). lia.
Qed.

(** [json.loads] returns a value, having read the whole text, or raises
    [JSONDecodeError]. *)
Lemma json_loads_cases (s : pystr) :
  (∃ v, json_loads s = POk v []) ∨ json_loads s = PErr.
Proof.
  pose proof (json_loads_total s) as Htotal. unfold json_loads in *.
  destruct (starts_with _ s); [by right|].
  destruct (scan_once _ (skip_ws s)) as [obj rest| |]; [|by right|done].
  destruct (skip_ws rest); [left; by eexists|by right].
Qed.

End Decoder.

(** ** C5: the salvage parser *)

Section Salvage.

Import LLMManager.


Lemma from_first_spec (c : N) (s t : pystr) :
  from_first c s = Some t ↔
  ∃ pre rest, s = pre ++ (c :: rest) ∧ (c ∉ pre) ∧ t = c :: rest.
Proof.
  revert t. induction s as [|x s IH]; intros t; simpl.
  - split; [done|]. intros (pre & rest & Hs & _). by destruct pre.
  - destruct (N.eqb_spec x c) as [->|Hne].
    + split.
      * intros ?; simplify_eq. exists [], s.
        split; [done|]. split; [apply not_elem_of_nil|done].
      * intros (pre & rest & Hs & Hpre & ->). destruct pre as [|y pre].
        { simpl in Hs. by simplify_eq. }
        simpl in Hs. simplify_eq. exfalso. apply Hpre. by left.
    + rewrite IH. split.
      * intros (pre & rest & -> & Hpre & ->). exists (x :: pre), rest.
        split; [done|]. split; [|done]. by apply not_elem_of_cons.
      * intros (pre & rest & Hs & Hpre & ->). destruct pre as [|y pre].
        { simpl in Hs. by simplify_eq. }
        simpl in Hs. simplify_eq.
        apply not_elem_of_cons in Hpre as [_ Hpre]. by exists pre, rest.
Qed.

Lemma upto_last_spec (c : N) (s t : pystr) :
  upto_last c s = Some t ↔
  ∃ body post, s = body ++ (c :: post) ∧ (c ∉ post) ∧ t = body ++ [c].
Proof.
  unfold upto_last. rewrite fmap_Some. split.
  - intros (r & (pre & rest & Hs & Hpre & ->)%from_first_spec & ->).
    exists (reverse rest), (reverse pre).
    apply (f_equal reverse) in Hs. rewrite reverse_involutive in Hs.
    rewrite Hs, reverse_app, !reverse_cons, <- !(assoc_L (++)). simpl.
    split; [done|]. split; [by rewrite elem_of_reverse|done].
  - intros (body & post & -> & Hpost & ->).
    exists (c :: reverse body). split.
    + apply from_first_spec. exists (reverse post), (reverse body).
      rewrite reverse_app, reverse_cons, <- (assoc_L (++)). simpl.
      split; [done|]. split; [by rewrite elem_of_reverse|done].
    + by rewrite reverse_cons, reverse_involutive.
Qed.

(** The search finds the text from the first [open] to the last
    [close] after it. *)
Lemma re_search_between_spec (open close : N) (s json_match : pystr) :
  re_search_between open close s = Some json_match ↔
  ∃ pre body post,
    s = pre ++ (open :: body ++ (close :: post)) ∧
    (open ∉ pre) ∧ (close ∉ post) ∧ json_match = open :: body ++ [close].
Proof.
  unfold re_search_between. split.
  - destruct (from_first open s) as [[|o after]|] eqn:Hfirst; try done.
    apply from_first_spec in Hfirst as (pre & rest & -> & Hpre & ?). simplify_eq.
    rewrite fmap_Some.
    intros (t & (body & post & -> & Hpost & ->)%upto_last_spec & ->).
    by exists pre, body, post.
  - intros (pre & body & post & -> & Hpre & Hpost & ->).
    assert (from_first open (pre ++ (open :: body ++ (close :: post)))
            = Some (open :: body ++ (close :: post))) as ->.
    { apply from_first_spec. by exists pre, (body ++ (close :: post)). }
    assert (upto_last close (body ++ (close :: post)) = Some (body ++ [close])) as ->.
    { apply upto_last_spec. by exists body, post. }
    done.
Qed.

(** A text that opens with a brace parses to a [dict] or not at all;
    one that opens with a bracket, to a [list]. *)
Lemma json_loads_object (t : pystr) v rest :
  json_loads (123%N :: t) = POk v rest → ∃ d, v = PDict d.
Proof.
  unfold json_loads.
  change (starts_with [65279%N] (123%N :: t)) with false.
  change (skip_ws (123%N :: t)) with (123%N :: t).
  cbn [scan_once]. change (123 =? 34)%N with false. change (123 =? 123)%N with true.
  cbv iota.
  destruct (skip_ws t) as [|c s2]; [done|].
  destruct (c =? 125)%N.
  { destruct (skip_ws s2); [|done]. intros ?; simplify_eq. by eexists. }
  destruct (c =? 34)%N; [|done].
  destruct (object_pairs _ s2 []) as [pairs rest'| |]; [|done..].
  destruct (skip_ws rest'); [|done]. intros ?; simplify_eq. by eexists.
Qed.

Lemma json_loads_array (t : pystr) v rest :
  json_loads (91%N :: t) = POk v rest → ∃ l, v = PList l.
Proof.
  unfold json_loads.
  change (starts_with [65279%N] (91%N :: t)) with false.
  change (skip_ws (91%N :: t)) with (91%N :: t).
  cbn [scan_once]. change (91 =? 34)%N with false. change (91 =? 123)%N with false.
  change (91 =? 91)%N with true. cbv iota.
  destruct (skip_ws t) as [|c s2]; [done|].
  destruct (c =? 93)%N.
  { destruct (skip_ws s2); [|done]. intros ?; simplify_eq. by eexists. }
  destruct (array_items _ (c :: s2) []) as [values rest'| |]; [|done..].
  destruct (skip_ws rest'); [|done]. intros ?; simplify_eq. by eexists.
Qed.




End Salvage.

(** ** C7: cost estimation *)

Section Cost.

Import Pricing.



End Cost.

(** ** The other operations of the cache *)

Section CacheMaintenance.

Import LLMCache.

Implicit Types (dir : CacheDir) (files : list pystr).

Lemma NoDup_glob dir : NoDup (glob dir).
Proof. apply NoDup_fst_map_to_list. Qed.

Lemma elem_of_glob dir k : k ∈ glob dir ↔ is_Some (dir !! k).
Proof.
  unfold glob. rewrite list_elem_of_fmap. split.
  - intros ([k' f] & -> & Hin). apply elem_of_map_to_list in Hin. by eexists.
  - intros [f Hf]. exists (k, f). split; [done|]. by apply elem_of_map_to_list.
Qed.

Lemma length_glob dir : length (glob dir) = size dir.
Proof. unfold glob. by rewrite length_fmap, length_map_to_list. Qed.

Lemma filter_ext_elem_of {A} (P1 P2 : A → Prop) `{!∀ x, Decision (P1 x)}
    `{!∀ x, Decision (P2 x)} (l : list A) :
  (∀ x, x ∈ l → P1 x ↔ P2 x) → filter P1 l = filter P2 l.
Proof.
  induction l as [|a l IH]; intros Hl; [done|].
  rewrite !filter_cons. rewrite IH by (intros x Hx; apply Hl; by right).
  destruct (decide (P1 a)) as [H1|H1], (decide (P2 a)) as [H2|H2]; try done;
    apply (Hl a) in H1 || apply (Hl a) in H2; done || by left.
Qed.

(** What a file becomes when entries cached before [cutoff_time] go. *)
Lemma clear_expired_loop_lookup cutoff_time files :
  ∀ dir n, NoDup files →
    (∀ k, (clear_expired_loop cutoff_time files dir n).2 !! k =
            if decide (k ∈ files)
            then f ← dir !! k;
                 if cached_before cutoff_time f then None else Some f
            else dir !! k) ∧
    (clear_expired_loop cutoff_time files dir n).1 =
      n + length (filter (λ k, from_option (cached_before cutoff_time) false (dir !! k) = true)
                    files).
Proof.
  induction files as [|file rest IH]; intros dir n Hnd.
  { cbn [clear_expired_loop fst snd]. split; [|by rewrite filter_nil; simpl; lia].
    intros k. by rewrite decide_False by apply not_elem_of_nil. }
  apply NoDup_cons in Hnd as [Hfile Hnd].
  assert (∀ dir' n',
    (∀ k, k ≠ file → dir' !! k = dir !! k) →
    dir' !! file = (f ← dir !! file; if cached_before cutoff_time f then None else Some f) →
    n' = n + (if from_option (cached_before cutoff_time) false (dir !! file) then 1 else 0) →
    (∀ k, (clear_expired_loop cutoff_time rest dir' n').2 !! k =
            if decide (k ∈ file :: rest)
            then f ← dir !! k;
                 if cached_before cutoff_time f then None else Some f
            else dir !! k) ∧
    (clear_expired_loop cutoff_time rest dir' n').1 =
      n + length (filter (λ k, from_option (cached_before cutoff_time) false (dir !! k) = true)
                    (file :: rest))) as Hstep.
  { intros dir' n' Hother Hthis Hn'.
    destruct (IH dir' n' Hnd) as [IHl IHn]. split.
    - intros k. rewrite IHl. destruct (decide (k = file)) as [->|Hne].
      + rewrite decide_False by done. by rewrite decide_True by (by left).
      + rewrite Hother by done. destruct (decide (k ∈ rest)).
        * by rewrite decide_True by (by right).
        * rewrite decide_False; [done|]. by intros [?|?]%elem_of_cons.
    - rewrite IHn, Hn'.
      assert (filter (λ k, from_option (cached_before cutoff_time) false (dir' !! k) = true) rest
              = filter (λ k, from_option (cached_before cutoff_time) false (dir !! k) = true) rest)
        as ->.
      { apply filter_ext_elem_of. intros k Hk. rewrite Hother; [done|]. by intros ->. }
      destruct (from_option (cached_before cutoff_time) false (dir !! file)) eqn:Hexp.
      + rewrite filter_cons_True by done. simpl. lia.
      + rewrite filter_cons_False by (by rewrite Hexp). lia. }
  cbn [clear_expired_loop].
  destruct (dir !! file) as [[e|]|] eqn:Hf; cbn [from_option cached_before mbind option_bind] in Hstep.
  - destruct (ce_cached_at e <? cutoff_time)%Z eqn:Hlt.
    + apply Hstep; [|by rewrite lookup_delete_eq|done].
      intros k Hk. by rewrite lookup_delete_ne.
    + apply Hstep; [done|done|lia].
  - apply Hstep; [done|done|lia].
  - apply Hstep; [done|done|lia].
Qed.

(** The files of the directory that [clear_expired] leaves. *)
Lemma clear_expired_lookup (max_age_hours now : Z) dir files k :
  files ≡ₚ glob dir →
  (clear_expired_loop (now - timedelta_hours max_age_hours) files dir 0).2 !! k =
    f ← dir !! k;
    if cached_before (now - timedelta_hours max_age_hours) f then None else Some f.
Proof.
  intros Hfiles.
  assert (NoDup files) as Hnd by (rewrite Hfiles; apply NoDup_glob).
  destruct (clear_expired_loop_lookup (now - timedelta_hours max_age_hours) files dir 0 Hnd)
    as [Hl _].
  rewrite Hl. case_decide as Hin; [done|].
  rewrite Hfiles, elem_of_glob in Hin.
  destruct (dir !! k); [|done]. by destruct Hin.
Qed.

Lemma clear_expired_loop_order (cutoff_time : Z) dir files1 files2 :
  NoDup files1 → files1 ≡ₚ files2 →
  clear_expired_loop cutoff_time files1 dir 0 = clear_expired_loop cutoff_time files2 dir 0.
Proof.
  intros Hnd Hperm.
  assert (NoDup files2) as Hnd2 by (by rewrite <- Hperm).
  destruct (clear_expired_loop_lookup cutoff_time files1 dir 0 Hnd) as [Hl1 Hn1].
  destruct (clear_expired_loop_lookup cutoff_time files2 dir 0 Hnd2) as [Hl2 Hn2].
  destruct (clear_expired_loop cutoff_time files1 dir 0) as [n1 d1].
  destruct (clear_expired_loop cutoff_time files2 dir 0) as [n2 d2].
  cbn [fst snd] in *. f_equal.
  - rewrite Hn1, Hn2. by rewrite Hperm.
  - apply map_eq. intros k. rewrite Hl1, Hl2.
    destruct (decide (k ∈ files1)) as [Hin|Hin]; rewrite Hperm in Hin.
    + by rewrite decide_True.
    + by rewrite decide_False.
Qed.


Lemma clear_expired_loop_size cutoff_time files :
  ∀ dir n,
    (clear_expired_loop cutoff_time files dir n).1
      + size (clear_expired_loop cutoff_time files dir n).2 = n + size dir.
Proof.
  induction files as [|file rest IH]; intros dir n; [done|].
  cbn [clear_expired_loop].
  destruct (dir !! file) as [[e|]|] eqn:Hf; [|apply IH..].
  destruct (ce_cached_at e <? cutoff_time)%Z; [|apply IH].
  rewrite IH. rewrite (map_size_delete_Some file dir) by (by eexists).
  assert (size dir ≠ 0) by (apply (map_size_ne_0_lookup_2 dir file); by eexists). lia.
Qed.



Lemma clear_all_loop_lookup files :
  ∀ dir n, NoDup files →
    (∀ k, (clear_all_loop files dir n).2 !! k =
            if decide (k ∈ files) then None else dir !! k) ∧
    (clear_all_loop files dir n).1 + size (clear_all_loop files dir n).2 = n + size dir.
Proof.
  induction files as [|file rest IH]; intros dir n Hnd.
  { cbn [clear_all_loop fst snd]. split; [|done].
    intros k. by rewrite decide_False by apply not_elem_of_nil. }
  apply NoDup_cons in Hnd as [Hfile Hnd]. cbn [clear_all_loop].
  destruct (dir !! file) as [f|] eqn:Hf.
  - destruct (IH (delete file dir) (n + 1) Hnd) as [IHl IHn]. split.
    + intros k. rewrite IHl. destruct (decide (k = file)) as [->|Hne].
      * rewrite decide_False by done. rewrite lookup_delete_eq.
        by rewrite decide_True by (by left).
      * rewrite lookup_delete_ne by done. destruct (decide (k ∈ rest)).
        -- by rewrite decide_True by (by right).
        -- rewrite decide_False; [done|]. by intros [?|?]%elem_of_cons.
    + rewrite IHn. rewrite (map_size_delete_Some file dir) by (by eexists).
      assert (size dir ≠ 0) by (apply (map_size_ne_0_lookup_2 dir file); by eexists). lia.
  - destruct (IH dir n Hnd) as [IHl IHn]. split; [|done].
    intros k. rewrite IHl. destruct (decide (k = file)) as [->|Hne].
    + rewrite decide_False by done. by rewrite decide_True by (by left).
    + destruct (decide (k ∈ rest)).
      * by rewrite decide_True by (by right).
      * rewrite decide_False; [done|]. by intros [?|?]%elem_of_cons.
Qed.

(** [clear_all] over any listing of the directory. *)
Lemma clear_all_loop_glob dir files :
  files ≡ₚ glob dir → clear_all_loop files dir 0 = (size dir, ∅).
Proof.
  intros Hfiles.
  assert (NoDup files) as Hnd by (rewrite Hfiles; apply NoDup_glob).
  destruct (clear_all_loop_lookup files dir 0 Hnd) as [Hl Hn].
  destruct (clear_all_loop files dir 0) as [n d]. cbn [fst snd] in *.
  assert (d = ∅) as ->.
  { apply map_eq. intros k. rewrite Hl, lookup_empty. case_decide as Hin; [done|].
    rewrite Hfiles, elem_of_glob in Hin. by apply eq_None_not_Some. }
  rewrite map_size_empty in Hn. f_equal. lia.
Qed.

(** X3. [clear_all] empties the cache directory, files that cannot be
    read included, and returns the number of files it held, in whatever
    order the directory is listed. Every [get] that follows is a miss.
    [LLMManager.clear_cache] does the same and touches no provider. *)
Theorem clear_all_empties_the_cache dir :
  clear_all dir = (size dir, ∅) ∧
  (∀ files, files ≡ₚ glob dir → clear_all_loop files dir 0 = (size dir, ∅)) ∧
  (∀ prompt model max_age_hours kwargs now,
     get prompt model max_age_hours kwargs now (clear_all dir).2 = (None, ∅)) ∧
  (∀ ps, LLMManager.clear_cache {| providers := ps; cache := dir |}
         = (size dir, {| providers := ps; cache := ∅ |})).
Proof.
  assert (clear_all dir = (size dir, ∅)) as Hall by (by apply clear_all_loop_glob).
  split_and!; [done|apply clear_all_loop_glob| |].
  - intros. rewrite Hall. cbn [snd]. unfold get. by rewrite lookup_empty.
  - intros ps. unfold LLMManager.clear_cache. cbn [cache providers]. by rewrite Hall.
Qed.

(** The two running values of the loop of [get_cache_stats]. *)
Lemma oldest_newest_fold files dir :
  ∀ oldest_time newest_time,
    oldest_newest files dir oldest_time newest_time =
      (foldl (λ acc t, Some (from_option (Z.min t) t acc)) oldest_time (cached_ats files dir),
       foldl (λ acc t, Some (from_option (Z.max t) t acc)) newest_time (cached_ats files dir)).
Proof.
  unfold cached_ats.
  induction files as [|file rest IH]; intros oldest_time newest_time; [done|].
  cbn [oldest_newest omap list_omap].
  destruct (dir !! file) as [[e|]|]; [|apply IH..].
  rewrite IH. cbn [foldl]. f_equal; f_equal.
  - destruct oldest_time as [t|]; [|done]. cbn [from_option].
    destruct (Z.ltb_spec (ce_cached_at e) t); f_equal; lia.
  - destruct newest_time as [t|]; [|done]. cbn [from_option].
    destruct (Z.gtb_spec (ce_cached_at e) t); f_equal; lia.
Qed.

Lemma foldl_min_spec (ts : list Z) :
  ∀ acc,
    match foldl (λ acc t, Some (from_option (Z.min t) t acc)) acc ts with
    | None => acc = None ∧ ts = []
    | Some lo =>
        (acc = Some lo ∨ lo ∈ ts) ∧ (∀ t, t ∈ ts → lo ≤ t)%Z ∧
        (∀ a, acc = Some a → lo ≤ a)%Z
    end.
Proof.
  induction ts as [|t ts IH]; intros acc.
  { cbn [foldl]. destruct acc as [a|]; [|done].
    split_and!; [by left|by intros ? ?%elem_of_nil|]. intros ? ?; simplify_eq. lia. }
  cbn [foldl]. specialize (IH (Some (from_option (Z.min t) t acc))).
  destruct (foldl _ _ ts) as [lo|]; [|by destruct IH].
  destruct IH as (Hin & Hle & Hacc). specialize (Hacc _ eq_refl).
  split_and!.
  - destruct Hin as [Hin|Hin]; [|by right; right].
    simplify_eq. destruct acc as [a|]; cbn [from_option]; [|by right; left].
    destruct (Z.min_spec t a) as [[_ ->]|[_ ->]]; [right; by left|by left].
  - intros t' [->|Ht']%elem_of_cons; [|by apply Hle].
    destruct acc as [a|]; cbn [from_option] in Hacc; lia.
  - intros a ->. cbn [from_option] in Hacc. lia.
Qed.

Lemma foldl_max_spec (ts : list Z) :
  ∀ acc,
    match foldl (λ acc t, Some (from_option (Z.max t) t acc)) acc ts with
    | None => acc = None ∧ ts = []
    | Some hi =>
        (acc = Some hi ∨ hi ∈ ts) ∧ (∀ t, t ∈ ts → t ≤ hi)%Z ∧
        (∀ a, acc = Some a → a ≤ hi)%Z
    end.
Proof.
  induction ts as [|t ts IH]; intros acc.
  { cbn [foldl]. destruct acc as [a|]; [|done].
    split_and!; [by left|by intros ? ?%elem_of_nil|]. intros ? ?; simplify_eq. lia. }
  cbn [foldl]. specialize (IH (Some (from_option (Z.max t) t acc))).
  destruct (foldl _ _ ts) as [hi|]; [|by destruct IH].
  destruct IH as (Hin & Hle & Hacc). specialize (Hacc _ eq_refl).
  split_and!.
  - destruct Hin as [Hin|Hin]; [|by right; right].
    simplify_eq. destruct acc as [a|]; cbn [from_option]; [|by right; left].
    destruct (Z.max_spec t a) as [[_ ->]|[_ ->]]; [by left|right; by left].
  - intros t' [->|Ht']%elem_of_cons; [|by apply Hle].
    destruct acc as [a|]; cbn [from_option] in Hacc; lia.
  - intros a ->. cbn [from_option] in Hacc. lia.
Qed.

Lemma elem_of_cached_ats files dir t :
  files ≡ₚ glob dir →
  t ∈ cached_ats files dir ↔ ∃ k e, dir !! k = Some (Entry e) ∧ ce_cached_at e = t.
Proof.
  intros Hfiles. unfold cached_ats. rewrite list_elem_of_omap. split.
  - intros (k & _ & Hk). destruct (dir !! k) as [[e|]|] eqn:Hf; [|done..].
    exists k, e. by simplify_eq.
  - intros (k & e & Hf & <-). exists k. rewrite Hf. split; [|done].
    rewrite Hfiles. apply elem_of_glob. by eexists.
Qed.

(** The statistics for any listing of the directory. *)
Lemma get_cache_stats_over_spec files dir :
  files ≡ₚ glob dir →
  let stats := get_cache_stats_over files dir in
  total_entries stats = size dir ∧
  match oldest_entry stats, newest_entry stats with
  | None, None => ∀ k e, dir !! k ≠ Some (Entry e)
  | Some lo, Some hi =>
      (∃ k e, dir !! k = Some (Entry e) ∧ ce_cached_at e = lo) ∧
      (∃ k e, dir !! k = Some (Entry e) ∧ ce_cached_at e = hi) ∧
      (∀ k e, dir !! k = Some (Entry e) → lo ≤ ce_cached_at e ≤ hi)%Z
  | _, _ => False
  end.
Proof.
  intros Hfiles stats. subst stats. unfold get_cache_stats_over.
  assert (length files = size dir) as Hlen by (by rewrite Hfiles, length_glob).
  destruct (Nat.eqb_spec (length files) 0) as [Hzero|Hpos].
  { cbn [total_entries oldest_entry newest_entry]. split; [lia|].
    intros k e Hk. assert (size dir ≠ 0); [|lia].
    apply (map_size_ne_0_lookup_2 dir k). by eexists. }
  rewrite oldest_newest_fold. cbn [total_entries oldest_entry newest_entry].
  split; [done|].
  pose proof (foldl_min_spec (cached_ats files dir) None) as Hmin.
  pose proof (foldl_max_spec (cached_ats files dir) None) as Hmax.
  destruct (foldl _ None (cached_ats files dir)) as [lo|],
    (foldl _ None (cached_ats files dir)) as [hi|].
  - destruct Hmin as ([?|Hlo] & Hle & _); [done|].
    destruct Hmax as ([?|Hhi] & Hge & _); [done|].
    split_and!.
    + by apply (elem_of_cached_ats files dir lo Hfiles).
    + by apply (elem_of_cached_ats files dir hi Hfiles).
    + intros k e Hk.
      assert (ce_cached_at e ∈ cached_ats files dir) as Hin
        by (apply (elem_of_cached_ats files dir _ Hfiles); by exists k, e).
      split; [by apply Hle|by apply Hge].
  - destruct Hmin as ([?|Hlo] & _); [done|]. destruct Hmax as [_ Hnil].
    rewrite Hnil in Hlo. by apply elem_of_nil in Hlo.
  - destruct Hmax as ([?|Hhi] & _); [done|]. destruct Hmin as [_ Hnil].
    rewrite Hnil in Hhi. by apply elem_of_nil in Hhi.
  - destruct Hmin as [_ Hnil]. intros k e Hk.
    assert (ce_cached_at e ∈ cached_ats files dir) as Hin
      by (apply (elem_of_cached_ats files dir _ Hfiles); by exists k, e).
    rewrite Hnil in Hin. by apply elem_of_nil in Hin.
Qed.

(** X4. [get_cache_stats] counts every file of the directory, readable
    or not, and skips the files it cannot read when it looks for the
    oldest and the newest entry: the two times are those of entries of
    the directory, every entry was cached between them, and both are
    missing exactly when no file holds an entry. The result does not
    depend on the order in which the directory is listed. *)
Theorem get_cache_stats_oldest_newest dir :
  let stats := get_cache_stats dir in
  total_entries stats = size dir ∧
  (oldest_entry stats = None ↔ ∀ k e, dir !! k ≠ Some (Entry e)) ∧
  (newest_entry stats = None ↔ oldest_entry stats = None) ∧
  (∀ lo, oldest_entry stats = Some lo →
     (∃ k e, dir !! k = Some (Entry e) ∧ ce_cached_at e = lo) ∧
     ∀ k e, dir !! k = Some (Entry e) → (lo ≤ ce_cached_at e)%Z) ∧
  (∀ hi, newest_entry stats = Some hi →
     (∃ k e, dir !! k = Some (Entry e) ∧ ce_cached_at e = hi) ∧
     ∀ k e, dir !! k = Some (Entry e) → (ce_cached_at e ≤ hi)%Z) ∧
  (∀ files, files ≡ₚ glob dir → get_cache_stats_over files dir = stats).
Proof.
  intros stats.
  destruct (get_cache_stats_over_spec (glob dir) dir (reflexivity _)) as [Htotal Hspec].
  fold (get_cache_stats dir) in Htotal, Hspec. fold stats in Htotal, Hspec.
  split_and!.
  - done.
  - destruct (oldest_entry stats) as [lo|], (newest_entry stats) as [hi|]; try done.
    destruct Hspec as ((k & e & Hk & _) & _). split; [done|]. intros Hnone.
    by destruct (Hnone k e).
  - by destruct (oldest_entry stats) as [lo|], (newest_entry stats) as [hi|].
  - intros lo Hlo. rewrite Hlo in Hspec.
    destruct (newest_entry stats) as [hi|]; [|done].
    destruct Hspec as (Hex & _ & Hall). split; [done|]. intros k e Hk.
    by apply (Hall k e).
  - intros hi Hhi. rewrite Hhi in Hspec.
    destruct (oldest_entry stats) as [lo|]; [|done].
    destruct Hspec as (_ & Hex & Hall). split; [done|]. intros k e Hk.
    by apply (Hall k e).
  - intros files Hfiles.
    destruct (get_cache_stats_over_spec files dir Hfiles) as [Htotal' Hspec'].
    destruct (get_cache_stats_over files dir) as [n' o' m'].
    destruct stats as [n o m]. cbn [total_entries oldest_entry newest_entry] in *.
    assert (o' = o ∧ m' = m) as [-> ->]; [|by f_equal; lia].
    destruct o' as [lo'|], m' as [hi'|], o as [lo|], m as [hi|]; try done.
    + destruct Hspec as ((k1 & e1 & Hk1 & <-) & (k2 & e2 & Hk2 & <-) & Hall).
      destruct Hspec' as ((k3 & e3 & Hk3 & <-) & (k4 & e4 & Hk4 & <-) & Hall').
      pose proof (Hall _ _ Hk3). pose proof (Hall _ _ Hk4).
      pose proof (Hall' _ _ Hk1). pose proof (Hall' _ _ Hk2).
      split; f_equal; lia.
    + destruct Hspec' as ((k & e & Hk & _) & _). by destruct (Hspec k e).
    + destruct Hspec as ((k & e & Hk & _) & _). by destruct (Hspec' k e).
Qed.

End CacheMaintenance.

(** ** The cache as a store, and its keys *)

Section CacheStore.

Import LLMCache.

Implicit Types (dir : CacheDir) (prompt model : pystr) (kwargs : pydict).



End CacheStore.

Section KeyText.

Import LLMCache.

Lemma hex_digit_inj (a b : N) :
  (a < 16)%N → (b < 16)%N → hex_digit a = hex_digit b → a = b.
Proof.
  unfold hex_digit. intros Ha Hb.
  destruct (N.ltb_spec a 10), (N.ltb_spec b 10); lia.
Qed.

Lemma hex_digits_value (n : N) :
  (n < 65536)%N →
  n = (4096 * ((n / 4096) mod 16) + 256 * ((n / 256) mod 16)
       + 16 * ((n / 16) mod 16) + n mod 16)%N.
Proof.
  intros Hn.
  pose proof (N.div_mod' n 16) as H0.
  pose proof (N.div_mod' (n / 16) 16) as H1.
  pose proof (N.div_mod' (n / 256) 16) as H2.
  replace (n / 16 / 16)%N with (n / 256)%N in H1 by (by rewrite N.Div0.div_div).
  replace (n / 256 / 16)%N with (n / 4096)%N in H2 by (by rewrite N.Div0.div_div).
  assert ((n / 4096) mod 16 = n / 4096)%N as ->.
  { apply N.mod_small. apply N.Div0.div_lt_upper_bound; lia. }
  lia.
Qed.

Lemma u_escape_app_inj (n m : N) (r1 r2 : pystr) :
  (n < 65536)%N → (m < 65536)%N →
  u_escape n ++ r1 = u_escape m ++ r2 → n = m ∧ r1 = r2.
Proof.
  intros Hn Hm. unfold u_escape. cbn [app]. intros [= H1 H2 H3 H4 ->].
  apply hex_digit_inj in H1, H2, H3, H4; try (apply N.mod_lt; lia).
  split; [|done].
  rewrite (hex_digits_value n Hn), (hex_digits_value m Hm). congruence.
Qed.


(** The escape of a character, by the class of the character. *)
Lemma escape_char_cases (c : N) :
  (c = 34 ∧ escape_char c = [92; 34])%N ∨
  (c = 92 ∧ escape_char c = [92; 92])%N ∨
  (c = 10 ∧ escape_char c = [92; 110])%N ∨
  (c = 13 ∧ escape_char c = [92; 114])%N ∨
  (c = 9 ∧ escape_char c = [92; 116])%N ∨
  (c = 12 ∧ escape_char c = [92; 102])%N ∨
  (c = 8 ∧ escape_char c = [92; 98])%N ∨
  ((32 ≤ c ≤ 126)%N ∧ c ≠ 34%N ∧ c ≠ 92%N ∧ escape_char c = [c]) ∨
  ((c < 65536)%N ∧ (c < 32 ∨ 126 < c)%N ∧ escape_char c = u_escape c) ∨
  ((65536 ≤ c)%N ∧
   escape_char c = u_escape (55296 + (c - 65536) / 1024 mod 1024)
                   ++ u_escape (56320 + (c - 65536) mod 1024)).
Proof.
  unfold escape_char.
  destruct (N.eqb_spec c 34) as [->|?]; [by left|right].
  destruct (N.eqb_spec c 92) as [->|?]; [by left|right].
  destruct (N.eqb_spec c 10) as [->|?]; [by left|right].
  destruct (N.eqb_spec c 13) as [->|?]; [by left|right].
  destruct (N.eqb_spec c 9) as [->|?]; [by left|right].
  destruct (N.eqb_spec c 12) as [->|?]; [by left|right].
  destruct (N.eqb_spec c 8) as [->|?]; [by left|right].
  destruct (N.leb_spec 32 c), (N.leb_spec c 126); cbn [andb]; [by left|right..];
    (destruct (N.ltb_spec c 65536); [left; split; [done|split; [lia|done]]|by right]).
Qed.

(** No escape is the beginning of another: a text made of escapes is
    read back in one way only. *)
Lemma escape_char_app_inj (c d : N) (r1 r2 : pystr) :
  is_scalar c = true → is_scalar d = true →
  escape_char c ++ r1 = escape_char d ++ r2 → c = d ∧ r1 = r2.
Proof.
  unfold is_scalar. intros Hc Hd.
  assert (c < 55296 ∨ 57344 ≤ c ∧ c < 1114112)%N as Hc'.
  { destruct (N.ltb_spec c 55296); [by left|right].
    destruct (N.leb_spec 57344 c), (N.ltb_spec c 1114112); cbn in Hc; done. }
  assert (d < 55296 ∨ 57344 ≤ d ∧ d < 1114112)%N as Hd'.
  { destruct (N.ltb_spec d 55296); [by left|right].
    destruct (N.leb_spec 57344 d), (N.ltb_spec d 1114112); cbn in Hd; done. }
  clear Hc Hd.
  assert (∀ x : N, (x mod 1024 < 1024)%N) as Hmod by (intros; apply N.mod_lt; lia).
  assert (∀ x y : N, (65536 ≤ x < 1114112)%N → (65536 ≤ y < 1114112)%N →
            ((x - 65536) / 1024 mod 1024 = (y - 65536) / 1024 mod 1024)%N →
            ((x - 65536) mod 1024 = (y - 65536) mod 1024)%N → x = y) as Hpair.
  { intros x y Hx Hy Hhi Hlo.
    pose proof (N.div_mod' (x - 65536) 1024) as Ex.
    pose proof (N.div_mod' (y - 65536) 1024) as Ey.
    rewrite N.mod_small in Hhi by (apply N.Div0.div_lt_upper_bound; lia).
    rewrite N.mod_small in Hhi by (apply N.Div0.div_lt_upper_bound; lia).
    lia. }
  destruct (escape_char_cases c)
    as [[-> ->]|[[-> ->]|[[-> ->]|[[-> ->]|[[-> ->]|[[-> ->]|[[-> ->]|
        [(Hc1 & Hc2 & Hc3 & ->)|[(Hc1 & Hc2 & ->)|(Hc1 & ->)]]]]]]]]];
  destruct (escape_char_cases d)
    as [[-> ->]|[[-> ->]|[[-> ->]|[[-> ->]|[[-> ->]|[[-> ->]|[[-> ->]|
        [(Hd1 & Hd2 & Hd3 & ->)|[(Hd1 & Hd2 & ->)|(Hd1 & ->)]]]]]]]]];
  try (by intros [= ->]);
  try (by intros [=]);
  try (by unfold u_escape; cbn [app]; intros [=]);
  try (unfold u_escape; cbn [app]; intros [= ? ?]; subst; lia).
  - intros [Heq ->]%u_escape_app_inj; done.
  - rewrite <- app_assoc.
    intros [Heq _]%u_escape_app_inj; [exfalso|done|];
      specialize (Hmod ((d - 65536) / 1024)%N);
      set (hi := (((d - 65536) / 1024) mod 1024)%N) in *; clearbody hi; lia.
  - rewrite <- app_assoc.
    intros [Heq _]%u_escape_app_inj; [exfalso| |done];
      specialize (Hmod ((c - 65536) / 1024)%N);
      set (hi := (((c - 65536) / 1024) mod 1024)%N) in *; clearbody hi; lia.
  - rewrite <- !app_assoc.
    intros [Hhi Hrest]%u_escape_app_inj;
      [|specialize (Hmod ((c - 65536) / 1024)%N); lia
       |specialize (Hmod ((d - 65536) / 1024)%N); lia].
    apply u_escape_app_inj in Hrest as [Hlo ->];
      [|specialize (Hmod (c - 65536)%N); lia|specialize (Hmod (d - 65536)%N); lia].
    split; [|done]. apply Hpair; lia.
Qed.


Lemma escape_char_not_quote (d : N) (r x : pystr) : escape_char d ++ r ≠ 34%N :: x.
Proof.
  destruct (escape_char_cases d)
    as [[-> ->]|[[-> ->]|[[-> ->]|[[-> ->]|[[-> ->]|[[-> ->]|[[-> ->]|
        [(Hd1 & Hd2 & Hd3 & ->)|[(Hd1 & Hd2 & ->)|(Hd1 & ->)]]]]]]]]];
    try done; try (by intros [= ->]); unfold u_escape; by cbn [app].
Qed.

(** The escapes of a text, up to the closing quote, are read back in
    one way only. *)
Lemma escaped_app_inj (a : pystr) :
  ∀ (b x y : pystr),
    Forall (λ c, is_scalar c = true) a → Forall (λ c, is_scalar c = true) b →
    concat (escape_char <$> a) ++ 34%N :: x = concat (escape_char <$> b) ++ 34%N :: y →
    a = b ∧ x = y.
Proof.
  induction a as [|c a IH]; intros [|d b] x y Ha Hb.
  - by intros [= ->].
  - cbn [fmap list_fmap concat app]. rewrite <- app_assoc. intros Heq. symmetry in Heq.
    by apply escape_char_not_quote in Heq.
  - cbn [fmap list_fmap concat app]. rewrite <- app_assoc. intros Heq.
    by apply escape_char_not_quote in Heq.
  - cbn [fmap list_fmap concat]. rewrite <- !app_assoc.
    apply Forall_cons in Ha as [Hc Ha]. apply Forall_cons in Hb as [Hd Hb].
    intros [-> Hrest]%escape_char_app_inj; [|done..].
    by apply IH in Hrest as [-> ->].
Qed.

Lemma encode_basestring_ascii_app_inj (a b x y : pystr) :
  Forall (λ c, is_scalar c = true) a → Forall (λ c, is_scalar c = true) b →
  encode_basestring_ascii a ++ x = encode_basestring_ascii b ++ y → a = b ∧ x = y.
Proof.
  intros Ha Hb. unfold encode_basestring_ascii. rewrite <- !app_assoc.
  cbn [app]. intros [= Heq]. by apply escaped_app_inj in Heq.
Qed.

(** The text hashed for a prompt and a model without parameters. *)
Lemma cache_str_nil (prompt model : pystr) :
  cache_str prompt model [] =
    py "{" ++ encode_basestring_ascii (py "model") ++ py ": "
    ++ encode_basestring_ascii model ++ py ", "
    ++ encode_basestring_ascii (py "prompt") ++ py ": "
    ++ encode_basestring_ascii prompt ++ py "}".
Proof.
  assert (∀ a b : pystr,
            sorted [(py "prompt", a); (py "model", b)] = [(py "model", b); (py "prompt", a)])
    as Hsorted by (intros; by vm_compute).
  unfold cache_str.
  change (filter not_None (sorted [])) with ([] : pydict).
  cbn [dict_update foldl].
  with_strategy transparent [json_dumps] (cbn [json_dumps]).
  rewrite Hsorted. cbn [fmap list_fmap join_comma fst snd].
  by rewrite <- !app_assoc.
Qed.

Lemma hex_digit_ascii (a : N) : (a < 16)%N → (hex_digit a < 128)%N.
Proof. unfold hex_digit. intros Ha. destruct (N.ltb_spec a 10); lia. Qed.

Lemma u_escape_ascii (n : N) : Forall (λ c, (c < 128)%N) (u_escape n).
Proof.
  unfold u_escape. cbn [app].
  repeat (constructor; [first [lia | apply hex_digit_ascii, N.mod_lt; lia]|]).
  constructor.
Qed.

Lemma escape_char_ascii (c : N) : Forall (λ c, (c < 128)%N) (escape_char c).
Proof.
  destruct (escape_char_cases c)
    as [[-> ->]|[[-> ->]|[[-> ->]|[[-> ->]|[[-> ->]|[[-> ->]|[[-> ->]|
        [(Hc1 & Hc2 & Hc3 & ->)|[(Hc1 & Hc2 & ->)|(Hc1 & ->)]]]]]]]]];
    try (repeat constructor; lia); try apply u_escape_ascii.
  apply Forall_app. split; apply u_escape_ascii.
Qed.

Lemma encode_basestring_ascii_ascii (s : pystr) :
  Forall (λ c, (c < 128)%N) (encode_basestring_ascii s).
Proof.
  unfold encode_basestring_ascii. apply Forall_app. split; [by repeat constructor|].
  apply Forall_app. split; [|by repeat constructor].
  induction s as [|c s IH]; [constructor|].
  cbn [fmap list_fmap concat]. apply Forall_app. split; [apply escape_char_ascii|done].
Qed.

(** [str.encode()] of an ASCII text is the text. *)
Lemma encode_ascii (s : pystr) : Forall (λ c, (c < 128)%N) s → encode s = s.
Proof.
  unfold encode. induction 1 as [|c s Hc Hs IH]; [done|].
  cbn [fmap list_fmap concat]. rewrite IH. unfold utf8_char.
  by destruct (N.ltb_spec c 128); [|lia].
Qed.

(** X20. The cache key is the MD5 digest of a text that tells prompts
    and task types apart. For a request of the manager (no keyword
    parameters), the text hashed is ASCII and determines the prompt and
    the model (the task type), as long as these are made of characters:
    code points below 0x110000 that are not surrogates. So two requests
    have the same cache key only when they have the same prompt and task
    type, or when MD5 collides. A surrogate pair written as two code
    points is hashed like the character it encodes. *)
Theorem cache_key_text_is_injective (prompt1 model1 prompt2 model2 : pystr) :
  (∀ prompt model kwargs,
     _generate_cache_key prompt model kwargs
       = md5_hexdigest (encode (cache_str prompt model kwargs))) ∧
  (Forall (λ c, is_scalar c = true) (prompt1 ++ model1) →
   Forall (λ c, is_scalar c = true) (prompt2 ++ model2) →
   cache_str prompt1 model1 [] = cache_str prompt2 model2 [] →
   prompt1 = prompt2 ∧ model1 = model2) ∧
  Forall (λ c, (c < 128)%N) (cache_str prompt1 model1 []) ∧
  encode (cache_str prompt1 model1 []) = cache_str prompt1 model1 [] ∧
  cache_str [65536%N] model1 [] = cache_str [55296%N; 56320%N] model1 [].
Proof.
  assert (Forall (λ c, (c < 128)%N) (cache_str prompt1 model1 [])) as Hascii.
  { rewrite cache_str_nil.
    do 8 (apply Forall_app; split;
            [first [apply encode_basestring_ascii_ascii
                   | apply (bool_decide_unpack _); by vm_compute]|]).
    apply (bool_decide_unpack _). by vm_compute. }
  split_and!.
  - done.
  - intros [Hp1 Hm1]%Forall_app [Hp2 Hm2]%Forall_app. rewrite !cache_str_nil.
    intros Heq. do 3 apply app_inv_head in Heq.
    apply encode_basestring_ascii_app_inj in Heq as [-> Heq]; [|done..].
    do 3 apply app_inv_head in Heq.
    by apply encode_basestring_ascii_app_inj in Heq as [-> _].
  - done.
  - by apply encode_ascii.
  - rewrite !cache_str_nil. do 7 f_equal.
Qed.

End KeyText.

(** ** The routing table *)

Section RoutingTable.

Import LLMManager.

Implicit Types (p q : ProviderKind) (ps : Providers) (name : pystr).

(** X5. A provider is available exactly when its credentials are
    configured: a key that is missing or empty does not count, and
    Bedrock needs boto3, both AWS credentials and a client that could
    be built. [get_available_providers] lists the names of the
    available providers in the order claude, openai, bedrock, and every
    provider starts on its default model, the cheapest of its price
    table. *)
Theorem available_iff_configured (settings : Settings) :
  let ps := init settings in
  (py "claude" ∈ get_available_providers ps ↔ truthy (anthropic_api_key settings) = true) ∧
  (py "openai" ∈ get_available_providers ps ↔ truthy (openai_api_key settings) = true) ∧
  (py "bedrock" ∈ get_available_providers ps ↔
     BOTO3_AVAILABLE settings = true ∧ truthy (aws_access_key_id settings) = true ∧
     truthy (aws_secret_access_key settings) = true ∧ boto3_client_ok settings = true) ∧
  get_available_providers ps `sublist_of` [py "claude"; py "openai"; py "bedrock"] ∧
  (∀ name, name ∈ get_available_providers ps →
     ∃ p, available_get name ps = Some p ∧ Provider.provider_name p = name) ∧
  (∀ p, model (ps p) = DEFAULT_MODEL p ∧ Pricing.cheapest p (DEFAULT_MODEL p) = true).
Proof.
  intros ps.
  assert (∀ p, Provider.provider_name p ∈ get_available_providers ps ↔ client (ps p) = true)
    as Hname.
  { intros p. unfold get_available_providers. rewrite list_elem_of_fmap. split.
    - intros (q & Hq & Hin). apply elem_of_available in Hin.
      by destruct p, q; vm_compute in Hq; simplify_eq.
    - intros Hc. exists p. split; [done|]. by apply elem_of_available. }
  split_and!.
  - apply (Hname Claude).
  - apply (Hname OpenAI).
  - rewrite (Hname Bedrock). unfold ps, init. cbn [client]. rewrite !andb_true_iff. tauto.
  - unfold get_available_providers, available_providers, priority.
    change [py "claude"; py "openai"; py "bedrock"] with
      (Provider.provider_name <$> [Claude; OpenAI; Bedrock]).
    apply fmap_sublist, sublist_filter.
  - intros name (p & -> & Hin)%list_elem_of_fmap. exists p. split; [|done].
    unfold available_get.
    destruct (List.find _ (available_providers ps)) as [q|] eqn:Hfind.
    + apply List.find_some in Hfind as [_ Hq]. apply bool_decide_eq_true in Hq.
      by destruct p, q; vm_compute in Hq; simplify_eq.
    + apply list_elem_of_In in Hin.
      pose proof (List.find_none _ _ Hfind p Hin) as Hp.
      cbv beta in Hp. by rewrite bool_decide_eq_true_2 in Hp.
  - intros p. split; [done|]. by destruct p; vm_compute.
Qed.


(** What [get_provider] can do: select an available provider and leave
    the models alone, select Claude or OpenAI and set its model to its
    cheap or its quality model, or select nothing when no provider is
    available. *)
Lemma get_provider_cases (provider_name : option pystr) (task_type : pystr) ps :
  (∃ p, get_provider provider_name task_type ps = (Some p, ps) ∧ client (ps p) = true) ∨
  (∃ p m, get_provider provider_name task_type ps = (Some p, set_model p m ps) ∧
     client (ps p) = true ∧
     (p = Claude ∧ (m = py "claude-3-5-haiku-20241022" ∨ m = py "claude-3-5-sonnet-20241022") ∨
      p = OpenAI ∧ (m = py "gpt-4o-mini" ∨ m = py "gpt-4o"))) ∨
  (get_provider provider_name task_type ps = (None, ps) ∧ available_providers ps = []).
Proof.
  assert (∀ h, head (available_providers ps) = h →
            match h with
            | Some p => client (ps p) = true
            | None => available_providers ps = []
            end) as Hhead.
  { intros [p|] Hh.
    - apply head_Some_elem_of in Hh. by apply elem_of_available in Hh.
    - by apply head_None in Hh. }
  assert (∀ routed, routed = cheap_route ps →
            match routed with
            | Some (p, ps') =>
                client (ps p) = true ∧
                (ps' = ps ∨
                 ∃ m, ps' = set_model p m ps ∧
                   (p = Claude ∧ m = py "claude-3-5-haiku-20241022" ∨
                    p = OpenAI ∧ m = py "gpt-4o-mini"))
            | None => True
            end) as Hcheap.
  { intros routed ->. unfold cheap_route.
    destruct (List.find _ priority) as [p|] eqn:Hfind; [|done].
    apply List.find_some in Hfind as [_ Hc]. split; [done|].
    destruct p; cbn [get_cheap_model]; [right; eexists; split; [done|]; by left|
      right; eexists; split; [done|]; by right|by left]. }
  unfold get_provider.
  destruct (requested provider_name ps) as [p|] eqn:Hreq.
  { left. exists p. split; [done|].
    unfold requested in Hreq. destruct provider_name as [name|]; [|done].
    destruct (truthy (Some name)); [|done].
    unfold available_get in Hreq. apply List.find_some in Hreq as [Hin _].
    by apply list_elem_of_In, elem_of_available in Hin. }
  assert (∀ routed : option (ProviderKind * Providers),
    match routed with
    | Some (p, ps') =>
        client (ps p) = true ∧
        (ps' = ps ∨
         ∃ m, ps' = set_model p m ps ∧
           (p = Claude ∧ (m = py "claude-3-5-haiku-20241022"
                          ∨ m = py "claude-3-5-sonnet-20241022") ∨
            p = OpenAI ∧ (m = py "gpt-4o-mini" ∨ m = py "gpt-4o")))
    | None => True
    end →
    (∃ p, match routed with
          | Some (p, ps') => (Some p, ps')
          | None => (head (available_providers ps), ps)
          end = (Some p, ps) ∧ client (ps p) = true) ∨
    (∃ p m, match routed with
            | Some (p, ps') => (Some p, ps')
            | None => (head (available_providers ps), ps)
            end = (Some p, set_model p m ps) ∧ client (ps p) = true ∧
       (p = Claude ∧ (m = py "claude-3-5-haiku-20241022"
                      ∨ m = py "claude-3-5-sonnet-20241022") ∨
        p = OpenAI ∧ (m = py "gpt-4o-mini" ∨ m = py "gpt-4o"))) ∨
    (match routed with
     | Some (p, ps') => (Some p, ps')
     | None => (head (available_providers ps), ps)
     end = (None, ps) ∧ available_providers ps = [])) as Hfinish.
  { intros [[p ps']|].
    - intros [Hc [->|(m & -> & Hm)]]; [left; by exists p|].
      right; left. by exists p, m.
    - intros _. pose proof (Hhead _ eq_refl) as Hh.
      destruct (head (available_providers ps)) as [p|]; [left; by exists p|by right; right]. }
  apply Hfinish.
  repeat case_bool_decide.
  - pose proof (Hcheap _ eq_refl) as Hc. destruct (cheap_route ps) as [[p ps']|]; [|done].
    destruct Hc as [Hc [->|(m & -> & [[-> ->]|[-> ->]])]]; (split; [done|]); [by left|..].
    + right. eexists. split; [done|]. left. split; [done|]. by left.
    + right. eexists. split; [done|]. right. split; [done|]. by left.
  - destruct (client (ps Claude)) eqn:Hc.
    { split; [done|]. right. eexists. split; [done|]. left. split; [done|]. by right. }
    destruct (client (ps OpenAI)) eqn:Ho; [|done].
    split; [done|]. right. eexists. split; [done|]. right. split; [done|]. by right.
  - pose proof (Hcheap _ eq_refl) as Hc. destruct (cheap_route ps) as [[p ps']|]; [|done].
    destruct Hc as [Hc [->|(m & -> & [[-> ->]|[-> ->]])]]; (split; [done|]); [by left|..].
    + right. eexists. split; [done|]. left. split; [done|]. by left.
    + right. eexists. split; [done|]. right. split; [done|]. by left.
  - done.
Qed.

(** Routing leaves the providers it does not select as they are. *)
Lemma get_provider_other (provider_name : option pystr) (task_type : pystr) ps q :
  (get_provider provider_name task_type ps).1 ≠ Some q →
  (get_provider provider_name task_type ps).2 q = ps q.
Proof.
  destruct (get_provider_cases provider_name task_type ps)
    as [(p & -> & _)|[(p & m & -> & _)|[-> _]]]; cbn [fst snd]; [done| |done].
  intros Hq. apply set_model_other. by intros ->.
Qed.

(** X6. [get_provider] never selects a provider that is not available,
    and selects none only when no provider is available. It changes no
    client, so the available providers stay the same, and it changes at
    most the model of the provider it selects. *)
Theorem get_provider_selects_available (provider_name : option pystr)
    (task_type : pystr) ps :
  let selected := (get_provider provider_name task_type ps).1 in
  let ps' := (get_provider provider_name task_type ps).2 in
  (selected = None ↔ available_providers ps = []) ∧
  (∀ p, selected = Some p → client (ps p) = true ∧ p ∈ available_providers ps') ∧
  (∀ q, client (ps' q) = client (ps q)) ∧
  available_providers ps' = available_providers ps ∧
  (∀ q, selected ≠ Some q → ps' q = ps q).
Proof.
  intros selected ps'. subst selected ps'.
  destruct (get_provider_cases provider_name task_type ps)
    as [(p & -> & Hc)|[(p & m & -> & Hc & _)|[-> Hnone]]]; cbn [fst snd].
  - split_and!; try done.
    + split; [done|]. intros Hnil. apply elem_of_available in Hc.
      rewrite Hnil in Hc. by apply elem_of_nil in Hc.
    + intros q ?; simplify_eq. split; [done|]. by apply elem_of_available.
  - assert (∀ q, client (set_model p m ps q) = client (ps q)) as Hclients
      by (intros; apply set_model_client).
    split_and!.
    + split; [done|]. intros Hnil. apply elem_of_available in Hc.
      rewrite Hnil in Hc. by apply elem_of_nil in Hc.
    + intros q ?; simplify_eq. split; [done|].
      apply elem_of_available. by rewrite Hclients.
    + done.
    + by apply available_providers_ext.
    + intros q Hq. apply set_model_other. by intros ->.
  - split_and!; try done. 
Qed.

(** X7. Script generation is routed to Claude on its quality model
    (Sonnet) when Claude is available, else to OpenAI on its quality
    model (GPT-4o). When only Bedrock is available it is selected with
    the model it has, and with no provider available none is selected.
    The quality models are in the price tables and are not the cheapest
    of them. *)
Theorem quality_routing (provider_name : option pystr) ps :
  requested provider_name ps = None →
  get_provider provider_name (py "script_generation") ps =
    (if client (ps Claude)
     then (Some Claude, set_model Claude (py "claude-3-5-sonnet-20241022") ps)
     else if client (ps OpenAI)
     then (Some OpenAI, set_model OpenAI (py "gpt-4o") ps)
     else (if client (ps Bedrock) then Some Bedrock else None, ps)) ∧
  (Pricing.get_cost Claude (py "claude-3-5-sonnet-20241022") 0 0).2 = false ∧
  (Pricing.get_cost OpenAI (py "gpt-4o") 0 0).2 = false ∧
  Pricing.cheapest Claude (py "claude-3-5-sonnet-20241022") = false ∧
  Pricing.cheapest OpenAI (py "gpt-4o") = false.
Proof.
  intros Hreq. split; [|by vm_compute].
  unfold get_provider. rewrite Hreq.
  rewrite (bool_decide_eq_false_2 (py "script_generation" = py "simple")) by (by vm_compute).
  rewrite bool_decide_eq_true_2 by done.
  destruct (client (ps Claude)) eqn:Hc; [done|].
  destruct (client (ps OpenAI)) eqn:Ho; [done|].
  unfold available_providers, priority.
  rewrite !filter_cons, filter_nil.
  rewrite decide_False by (by rewrite Hc). rewrite decide_False by (by rewrite Ho).
  by destruct (client (ps Bedrock)) eqn:Hb.
Qed.

Lemma quality_routing_witness :
  get_provider None (py "script_generation") (init two_keys)
    = (Some Claude, set_model Claude (py "claude-3-5-sonnet-20241022") (init two_keys)) ∧
  get_provider (Some (py "gemini")) (py "script_generation") (init bedrock_only)
    = (Some Bedrock, init bedrock_only).
Proof.
  split.
  - by destruct (quality_routing None (init two_keys) eq_refl) as [-> _].
  - by destruct (quality_routing (Some (py "gemini")) (init bedrock_only) eq_refl) as [-> _].
Defined.


Lemma length_lower name : length (lower name) = length name.
Proof. unfold lower. apply length_fmap. Qed.

Lemma requested_Some name ps p :
  requested (Some name) ps = Some p ↔
  lower name = Provider.provider_name p ∧ client (ps p) = true.
Proof.
  unfold requested.
  assert (available_get (lower name) ps = Some p ↔
          lower name = Provider.provider_name p ∧ client (ps p) = true) as Hget.
  { unfold available_get. split.
    - intros [Hin Hname]%List.find_some. apply bool_decide_eq_true in Hname.
      by apply list_elem_of_In, elem_of_available in Hin.
    - intros [Hname Hc].
      destruct (List.find _ (available_providers ps)) as [q|] eqn:Hfind.
      + apply List.find_some in Hfind as [_ Hq]. apply bool_decide_eq_true in Hq.
        rewrite Hname in Hq.
        by destruct p, q; vm_compute in Hq; simplify_eq.
      + apply elem_of_available, list_elem_of_In in Hc.
        pose proof (List.find_none _ _ Hfind p Hc) as Hp. cbv beta in Hp.
        by rewrite bool_decide_eq_true_2 in Hp. }
  destruct name as [|c name]; [|done].
  cbn [truthy]. split; [done|]. intros [Hname _]. by destruct p.
Qed.

(** X8. A provider asked for by name is matched without regard to
    case. When it is available it is selected as it is, whatever the
    task type: its model is not changed. When the name is empty,
    unknown or that of a provider that is not available, routing goes
    on as if no name had been given. A task type other than "simple",
    "script_generation" and "refinement" selects the first available
    provider in the order claude, openai, bedrock and changes no
    model. *)
Theorem named_provider_and_generic_routing (name task_type : pystr) ps :
  (∀ p, lower name = Provider.provider_name p → client (ps p) = true →
     get_provider (Some name) task_type ps = (Some p, ps)) ∧
  ((∀ p, lower name = Provider.provider_name p → client (ps p) = false) →
     get_provider (Some name) task_type ps = get_provider None task_type ps) ∧
  (∀ name', lower name' = lower name →
     get_provider (Some name') task_type ps = get_provider (Some name) task_type ps) ∧
  (task_type ≠ py "simple" → task_type ≠ py "script_generation" →
   task_type ≠ py "refinement" →
     get_provider None task_type ps = (head (available_providers ps), ps) ∧
     head (available_providers ps) = List.find (λ p, client (ps p)) priority).
Proof.
  split_and!.
  - intros p Hname Hc. unfold get_provider.
    by rewrite (proj2 (requested_Some name ps p)).
  - intros Hnone. unfold get_provider.
    destruct (requested (Some name) ps) as [p|] eqn:Hreq; [|done].
    apply requested_Some in Hreq as [Hname Hc]. by rewrite (Hnone p Hname) in Hc.
  - intros name' Hlower. unfold get_provider.
    assert (requested (Some name') ps = requested (Some name) ps) as ->; [|done].
    destruct (requested (Some name) ps) as [p|] eqn:Hreq.
    + apply requested_Some. rewrite Hlower. by apply requested_Some.
    + destruct (requested (Some name') ps) as [p|] eqn:Hreq'; [|done].
      apply requested_Some in Hreq'. rewrite Hlower in Hreq'.
      apply requested_Some in Hreq'. congruence.
  - intros H1 H2 H3. split.
    + unfold get_provider. cbn [requested].
      by rewrite !bool_decide_eq_false_2 by done.
    + unfold available_providers, priority. rewrite !filter_cons, filter_nil.
      cbn [List.find].
      destruct (client (ps Claude)) eqn:Hc.
      { by rewrite decide_True. }
      rewrite decide_False by done.
      destruct (client (ps OpenAI)) eqn:Ho.
      { by rewrite decide_True. }
      rewrite decide_False by done.
      destruct (client (ps Bedrock)) eqn:Hb.
      { by rewrite decide_True. }
      by rewrite decide_False.
Qed.

(** The models a process can have: the default or the quality model
    for Claude and OpenAI, the default model for Bedrock. *)
Lemma after_routing_models routes :
  ∀ ps,
    (model (ps Claude) = py "claude-3-5-haiku-20241022"
     ∨ model (ps Claude) = py "claude-3-5-sonnet-20241022") →
    (model (ps OpenAI) = py "gpt-4o-mini" ∨ model (ps OpenAI) = py "gpt-4o") →
    (model (after_routing routes ps Claude) = py "claude-3-5-haiku-20241022"
     ∨ model (after_routing routes ps Claude) = py "claude-3-5-sonnet-20241022") ∧
    (model (after_routing routes ps OpenAI) = py "gpt-4o-mini"
     ∨ model (after_routing routes ps OpenAI) = py "gpt-4o") ∧
    model (after_routing routes ps Bedrock) = model (ps Bedrock) ∧
    (∀ p, client (after_routing routes ps p) = client (ps p)).
Proof.
  induction routes as [|[provider_name task_type] routes IH]; intros ps Hc Ho; [done|].
  change (after_routing ((provider_name, task_type) :: routes) ps) with
    (after_routing routes (get_provider provider_name task_type ps).2).
  destruct (get_provider_cases provider_name task_type ps)
    as [(p & -> & _)|[(p & m & -> & _ & Hm)|[-> _]]]; cbn [snd]; [by apply IH| |by apply IH].
  destruct (IH (set_model p m ps)) as (Hc' & Ho' & Hb' & Hcl').
  - destruct Hm as [[-> Hm]|[-> Hm]]; [by rewrite set_model_model|].
    by rewrite set_model_other.
  - destruct Hm as [[-> Hm]|[-> Hm]]; [by rewrite set_model_other|].
    by rewrite set_model_model.
  - split_and!; [done|done| |].
    + rewrite Hb'. destruct Hm as [[-> _]|[-> _]]; by rewrite set_model_other.
    + intros q. rewrite Hcl'. apply set_model_client.
Qed.

(** X9. Whatever requests a process has routed since it started, the
    model of every provider is one of its price table, so that
    [get_cost] never falls back to zero with a warning: Claude is on
    Haiku or Sonnet, OpenAI on GPT-4o-mini or GPT-4o, and Bedrock, whose
    model routing never sets, on its default model, the cheapest of its
    table. The clients are those built when the process started. *)
Theorem routed_models_are_priced (settings : Settings)
    (routes : list (option pystr * pystr)) :
  let ps := after_routing routes (init settings) in
  (model (ps Claude) = py "claude-3-5-haiku-20241022"
   ∨ model (ps Claude) = py "claude-3-5-sonnet-20241022") ∧
  (model (ps OpenAI) = py "gpt-4o-mini" ∨ model (ps OpenAI) = py "gpt-4o") ∧
  model (ps Bedrock) = DEFAULT_MODEL Bedrock ∧
  Pricing.cheapest Bedrock (model (ps Bedrock)) = true ∧
  (∀ p, client (ps p) = client (init settings p)) ∧
  (∀ p input_tokens output_tokens,
     (Pricing.get_cost p (model (ps p)) input_tokens output_tokens).2 = false).
Proof.
  intros ps.
  destruct (after_routing_models routes (init settings)) as (Hc & Ho & Hb & Hcl);
    [by left|by left|].
  fold ps in Hc, Ho, Hb, Hcl.
  split_and!; [done|done|done|by rewrite Hb| done|].
  intros [] i o; unfold Pricing.get_cost.
  - by destruct Hc as [-> | ->].
  - by destruct Ho as [-> | ->].
  - by rewrite Hb.
Qed.

End RoutingTable.

(** ** The effort and the footprint of a request *)

Section Effort.

Import LLMManager.

Variable backend : Backend.

Implicit Types (p q : ProviderKind) (args : GenArgs) (w : World) (req : Request)
  (evs : list Event).

Lemma calls_app evs1 evs2 : calls (evs1 ++ evs2) = calls evs1 ++ calls evs2.
Proof. apply omap_app. Qed.

Lemma sleeps_app evs1 evs2 : sleeps (evs1 ++ evs2) = sleeps evs1 ++ sleeps evs2.
Proof. apply omap_app. Qed.

Lemma total_sleep_app evs1 evs2 :
  total_sleep (evs1 ++ evs2) = (total_sleep evs1 + total_sleep evs2)%Z.
Proof.
  unfold total_sleep. rewrite sleeps_app.
  induction (sleeps evs1) as [|s l IH]; simpl; lia.
Qed.

(** The calls and the sleeps of a retry loop: one call per attempt
    made, and a sleep of [2 ^ attempt] seconds after each attempt but
    the last of the range. *)
Lemma retry_loop_effort p args attempts :
  calls (Provider.retry_loop backend p args attempts).2
    `prefix_of` ((λ k, (p, k)) <$> attempts) ∧
  sleeps (Provider.retry_loop backend p args attempts).2
    `prefix_of` ((λ k, 2 ^ Z.of_nat k)%Z <$>
                   filter (λ k, k < Provider.max_retries - 1) attempts) ∧
  (attempts ≠ [] → calls (Provider.retry_loop backend p args attempts).2 ≠ []) ∧
  Forall (λ ev, ∀ q a k, ev = EvCall q a k → q = p ∧ a = args)
    (Provider.retry_loop backend p args attempts).2.
Proof.
  induction attempts as [|attempt rest (IHc & IHs & _ & IHa)].
  { split_and!; try done. }
  cbn [Provider.retry_loop fmap list_fmap].
  assert (∀ l : list (ProviderKind * nat), [(p, attempt)] `prefix_of` (p, attempt) :: l)
    as Hone by (intros l; by exists l).
  assert (Forall (λ ev, ∀ q a k, ev = EvCall q a k → q = p ∧ a = args)
            [EvCall p args attempt]) as Hargs.
  { constructor; [|constructor]. by intros q a k [= <- <- _]. }
  destruct (backend p args attempt) as [response|e].
  - destruct (Provider.validate_response response); cbn [snd];
      (split_and!; [apply Hone|apply prefix_nil|done|done]).
  - destruct (Provider.is_rate_limit p e);
      [|split_and!; [apply Hone|apply prefix_nil|done|done]].
    destruct (Nat.ltb_spec attempt (Provider.max_retries - 1)) as [Hlt|Hge];
      [|split_and!; [apply Hone|apply prefix_nil|done|done]].
    destruct (Provider.retry_loop backend p args rest) as [r evs]. cbn [snd] in *.
    split_and!.
    + change (calls (EvCall p args attempt :: EvSleep _ :: evs))
        with ((p, attempt) :: calls evs).
      by apply prefix_cons.
    + change (sleeps (EvCall p args attempt :: EvSleep ?s :: evs)) with (s :: sleeps evs).
      rewrite filter_cons_True by done. cbn [fmap list_fmap].
      unfold Provider.retry_delay. rewrite Z.mul_1_l. by apply prefix_cons.
    + done.
    + constructor; [by intros q a k [= <- <- _]|]. constructor; [done|done].
Qed.

Lemma prefix_of_length {A} (l1 l2 : list A) : l1 `prefix_of` l2 → length l1 ≤ length l2.
Proof. intros [k ->]. rewrite length_app. lia. Qed.

(** One [generate] of a provider: at most three calls, numbered from 0,
    all with the arguments given, and at most 1 + 2 seconds slept. *)
Lemma generate_effort p (client : bool) args :
  let evs := (Provider.generate backend p client args).2 in
  calls evs `prefix_of` [(p, 0); (p, 1); (p, 2)] ∧
  (client = true → calls evs ≠ []) ∧
  (client = false → calls evs = []) ∧
  sleeps evs `prefix_of` [1; 2]%Z ∧
  (0 ≤ total_sleep evs ≤ 3)%Z ∧
  Forall (λ ev, ∀ q a k, ev = EvCall q a k → q = p ∧ a = args) evs.
Proof.
  intros evs. subst evs. unfold Provider.generate.
  destruct client; cbn [negb].
  2: { split_and!; [apply prefix_nil|done|done|apply prefix_nil|done|done|].
       constructor; [by intros|constructor]. }
  destruct (retry_loop_effort p args (seq 0 Provider.max_retries)) as (Hc & Hs & Hne & Ha).
  destruct (Provider.retry_loop backend p args (seq 0 Provider.max_retries)) as [r evs].
  cbn [snd] in *.
  change (calls (EvGenerate p :: evs)) with (calls evs).
  change (sleeps (EvGenerate p :: evs)) with (sleeps evs).
  change (total_sleep (EvGenerate p :: evs)) with (total_sleep evs).
  change ((λ k : nat, (2 ^ Z.of_nat k)%Z) <$>
            filter (λ k, k < Provider.max_retries - 1) (seq 0 Provider.max_retries))
    with [1; 2]%Z in Hs.
  assert (0 ≤ total_sleep evs ≤ 3)%Z as Hsleep.
  { unfold total_sleep. destruct Hs as [k Hk].
    destruct (sleeps evs) as [|s1 [|s2 [|s3 l]]]; simpl in Hk; simplify_eq; simpl; lia. }
  split_and!; [done|intros _; by apply Hne|done|done|lia|lia|by constructor].
Qed.


(** The loop of the executor tries a prefix of its candidates, the
    first of them at least. It writes the cache when it returns, and
    leaves the world as it is when it raises. *)
Lemma try_providers_tried req (t_set : Z) candidates :
  ∀ n idx last_error w,
    ∃ tried, tried `prefix_of` candidates ∧
      head tried = head candidates ∧
      (try_providers backend req t_set n idx candidates last_error w).2
        = events_of backend req w tried ∧
      (try_providers backend req t_set n idx candidates last_error w).1.2
        = match (try_providers backend req t_set n idx candidates last_error w).1.1 with
          | Return r => cache_written req t_set w r
          | Raise _ => w
          end.
Proof.
  induction candidates as [|p rest IH]; intros n idx last_error w.
  { exists []. by split_and!. }
  cbn [try_providers]. fold (outcome backend req w p).
  destruct (outcome backend req w p) as [[response|e] evs] eqn:Hp.
  - exists [p]. split; [by exists rest|]. split; [done|]. split.
    + unfold events_of. simpl. by rewrite Hp, app_nil_r.
    + unfold cache_written. by destruct (use_cache req).
  - destruct (negb (fallback req) || (idx =? n - 1)%nat).
    + exists [p]. split; [by exists rest|]. split; [done|]. split; [|done].
      unfold events_of. simpl. by rewrite Hp, app_nil_r.
    + destruct (IH n (S idx) (Some e) w) as (tried & Hpre & _ & Hevs & Hw).
      destruct (try_providers backend req t_set n (S idx) rest (Some e) w)
        as [[r w'] evs'].
      cbn [fst snd] in *. exists (p :: tried). split; [by apply prefix_cons|].
      split; [done|]. split; [|done]. rewrite events_of_cons, Hp, Hevs. done.
Qed.

Lemma calls_of_app p evs1 evs2 : calls_of p (evs1 ++ evs2) = calls_of p evs1 ++ calls_of p evs2.
Proof. unfold calls_of. by rewrite calls_app, filter_app. Qed.

(** The calls of one provider in its own [generate]. *)
Lemma calls_of_generate p q (client : bool) args :
  calls_of p (Provider.generate backend q client args).2 =
    if decide (p = q) then calls (Provider.generate backend q client args).2 else [].
Proof.
  destruct (generate_effort q client args) as ([k Hk] & _).
  unfold calls_of.
  assert (Forall (λ c, c.1 = q) (calls (Provider.generate backend q client args).2)) as Hall.
  { assert (Forall (λ c : ProviderKind * nat, c.1 = q) [(q, 0); (q, 1); (q, 2)]) as H3
      by (by repeat constructor).
    rewrite Hk in H3. by apply Forall_app in H3 as [? _]. }
  clear Hk.
  destruct (decide (p = q)) as [->|Hne].
  - induction Hall as [|c l Hc Hl IH]; [done|].
    by rewrite filter_cons_True, IH.
  - induction Hall as [|c l Hc Hl IH]; [done|].
    rewrite filter_cons_False; [done|]. by rewrite Hc.
Qed.

(** The effort of a run over providers that are tried once each. *)
Lemma events_of_effort req w tried :
  NoDup tried →
  (∀ p, p ∈ tried → client (providers w p) = true) →
  (∀ p, p ∈ tried →
     calls_of p (events_of backend req w tried) ≠ [] ∧
     calls_of p (events_of backend req w tried) `prefix_of` [(p, 0); (p, 1); (p, 2)]) ∧
  (∀ p, p ∉ tried → calls_of p (events_of backend req w tried) = []) ∧
  length (calls (events_of backend req w tried)) ≤ 3 * length tried ∧
  (0 ≤ total_sleep (events_of backend req w tried) ≤ 3 * Z.of_nat (length tried))%Z ∧
  Forall (λ ev, ∀ q a k, ev = EvCall q a k → a = gen_args req w q)
    (events_of backend req w tried).
Proof.
  induction tried as [|q tried IH]; intros Hnd Hclients.
  { split_and!; try done. intros p Hp. by apply elem_of_nil in Hp. }
  apply NoDup_cons in Hnd as [Hq Hnd].
  destruct IH as (IHin & IHout & IHlen & IHsleep & IHargs); [done|..].
  { intros p Hp. apply Hclients. by right. }
  rewrite events_of_cons.
  change (outcome backend req w q)
    with (Provider.generate backend q (client (providers w q)) (gen_args req w q)).
  destruct (generate_effort q (client (providers w q)) (gen_args req w q))
    as (Hpre & Hne & _ & _ & Hsleep & Hargs).
  split_and!.
  - intros p [->|Hp]%elem_of_cons.
    + rewrite calls_of_app, calls_of_generate, decide_True by done.
      rewrite (IHout q Hq), app_nil_r. split; [|done].
      apply Hne, Hclients. by left.
    + rewrite calls_of_app, calls_of_generate.
      rewrite decide_False by (by intros ->). by apply IHin.
  - intros p [Hpq Hp]%not_elem_of_cons.
    rewrite calls_of_app, calls_of_generate, decide_False by done.
    by apply IHout.
  - rewrite calls_app, length_app. apply prefix_of_length in Hpre. simpl in *. lia.
  - rewrite total_sleep_app. cbn [length]. lia.
  - rewrite total_sleep_app. cbn [length]. lia.
  - apply Forall_app. split; [|done].
    eapply Forall_impl; [exact Hargs|]. intros ev Hev q' a k Hcall.
    by destruct (Hev q' a k Hcall) as [-> ->].
Qed.


(** What a run of [generate] is made of: a hit of the lookup, or no
    provider to route to, or a routing followed by the loop over a
    prefix of the candidates. *)
Lemma generate_run (t_get t_set : Z) req w :
  (truthy (looked_up t_get req w).1 = true ∧
   generate backend t_get t_set req w
     = (Return (looked_up t_get req w).1,
        {| providers := providers w; cache := (looked_up t_get req w).2 |}, [])) ∨
  (truthy (looked_up t_get req w).1 = false ∧
   get_provider (provider_name req) (task_type req) (providers w) = (None, providers w) ∧
   available_providers (providers w) = [] ∧
   generate backend t_get t_set req w
     = (Raise no_providers,
        {| providers := providers w; cache := (looked_up t_get req w).2 |}, [])) ∨
  ∃ provider ps tried,
    truthy (looked_up t_get req w).1 = false ∧
    get_provider (provider_name req) (task_type req) (providers w) = (Some provider, ps) ∧
    tried `prefix_of` providers_to_try req ps provider ∧
    head tried = Some provider ∧
    (generate backend t_get t_set req w).2
      = events_of backend req {| providers := ps; cache := (looked_up t_get req w).2 |} tried ∧
    (generate backend t_get t_set req w).1.2
      = match (generate backend t_get t_set req w).1.1 with
        | Return r =>
            cache_written req t_set
              {| providers := ps; cache := (looked_up t_get req w).2 |} r
        | Raise _ => {| providers := ps; cache := (looked_up t_get req w).2 |}
        end ∧
    ∃ n idx, generate backend t_get t_set req w =
      try_providers backend req t_set n idx (providers_to_try req ps provider) None
        {| providers := ps; cache := (looked_up t_get req w).2 |}.
Proof.
  destruct (truthy (looked_up t_get req w).1) eqn:Hhit.
  { left. split; [done|]. unfold generate. fold (looked_up t_get req w).
    destruct (looked_up t_get req w) as [cached dir]. cbn [fst snd] in *.
    by rewrite Hhit. }
  right.
  destruct (get_provider (provider_name req) (task_type req) (providers w))
    as [[provider|] ps] eqn:Hroute.
  - right. exists provider, ps.
    rewrite (generate_miss backend t_get t_set req w provider ps Hhit Hroute).
    destruct (try_providers_tried req t_set (providers_to_try req ps provider)
                (length (providers_to_try req ps provider)) 0 None
                {| providers := ps; cache := (looked_up t_get req w).2 |})
      as (tried & Hpre & Hhead & Hevs & Hw).
    exists tried. split_and!; try done. by eexists _, _.
  - left. split; [done|].
    destruct (get_provider_cases (provider_name req) (task_type req) (providers w))
      as [(p & Hp & _)|[(p & m & Hp & _)|[Hp Hnone]]]; [congruence..|].
    rewrite Hroute in Hp. simplify_eq. split_and!; [done|done|].
    unfold generate. fold (looked_up t_get req w).
    destruct (looked_up t_get req w) as [cached dir]. cbn [fst snd] in *.
    by rewrite Hhit, Hroute.
Qed.

(** X10. One [generate] of the manager enters each provider at most
    once, and only providers that are available. Every provider it
    enters calls its backend at least once and at most three times,
    attempts 0, 1, 2 in this order, and sleeps at most 3 seconds; a
    provider it does not enter is not called. So a request costs at most
    9 backend calls and 9 seconds of sleep. Every call carries the
    prompt, [max_tokens], [temperature] and keyword parameters of the
    request, and the model its provider has once the request is routed:
    for a provider other than the routed one, the model it had before,
    whatever the task type. *)
Theorem generate_effort_bounded (t_get t_set : Z) req w :
  let evs := (generate backend t_get t_set req w).2 in
  let routed := get_provider (provider_name req) (task_type req) (providers w) in
  NoDup (attempted evs) ∧
  (∀ p, p ∈ attempted evs → client (providers w p) = true) ∧
  length (attempted evs) ≤ 3 ∧
  (∀ p, p ∈ attempted evs →
     calls_of p evs ≠ [] ∧ calls_of p evs `prefix_of` [(p, 0); (p, 1); (p, 2)]) ∧
  (∀ p, p ∉ attempted evs → calls_of p evs = []) ∧
  length (calls evs) ≤ 9 ∧
  (0 ≤ total_sleep evs ≤ 9)%Z ∧
  (∀ q args k, EvCall q args k ∈ evs →
     ga_prompt args = prompt req ∧ ga_max_tokens args = max_tokens req ∧
     ga_temperature args = temperature req ∧ ga_kwargs args = kwargs req ∧
     ga_model args = model (routed.2 q) ∧
     (routed.1 ≠ Some q → ga_model args = model (providers w q))).
Proof.
  intros evs routed. subst evs routed.
  assert (∀ r w', generate backend t_get t_set req w = (r, w', []) →
    let evs := (generate backend t_get t_set req w).2 in
    let routed := get_provider (provider_name req) (task_type req) (providers w) in
    NoDup (attempted evs) ∧
    (∀ p, p ∈ attempted evs → client (providers w p) = true) ∧
    length (attempted evs) ≤ 3 ∧
    (∀ p, p ∈ attempted evs →
       calls_of p evs ≠ [] ∧ calls_of p evs `prefix_of` [(p, 0); (p, 1); (p, 2)]) ∧
    (∀ p, p ∉ attempted evs → calls_of p evs = []) ∧
    length (calls evs) ≤ 9 ∧
    (0 ≤ total_sleep evs ≤ 9)%Z ∧
    (∀ q args k, EvCall q args k ∈ evs →
       ga_prompt args = prompt req ∧ ga_max_tokens args = max_tokens req ∧
       ga_temperature args = temperature req ∧ ga_kwargs args = kwargs req ∧
       ga_model args = model (routed.2 q) ∧
       (routed.1 ≠ Some q → ga_model args = model (providers w q)))) as Hquiet.
  { intros r w' ->. cbn [snd].
    split_and!; [constructor|by intros p ?%elem_of_nil|simpl; lia|by intros p ?%elem_of_nil|
      by intros p _|simpl; lia|done|done|by intros q args k ?%elem_of_nil]. }
  destruct (generate_run t_get t_set req w)
    as [[_ Hrun]|[(_ & _ & _ & Hrun)|(provider & ps & tried & _ & Hroute & Hpre & _ & -> & _)]];
    [by eapply Hquiet..|].
  rewrite Hroute. cbn [fst snd].
  set (w0 := {| providers := ps; cache := (looked_up t_get req w).2 |}).
  rewrite attempted_events_of.
  destruct (get_provider_Some _ _ _ _ _ Hroute) as [Hprimary Hclients].
  assert (NoDup tried) as Hnd.
  { destruct Hpre as [post Hpost].
    pose proof (providers_to_try_NoDup req ps provider) as Hall.
    rewrite Hpost in Hall. by apply NoDup_app in Hall as [? _]. }
  assert (∀ p, p ∈ tried → client (ps p) = true) as Havail.
  { intros p Hp. destruct Hpre as [post Hpost].
    assert (p ∈ providers_to_try req ps provider) as Hin
      by (rewrite Hpost; apply elem_of_app; by left).
    unfold providers_to_try in Hin. apply elem_of_cons in Hin as [->|Hin]; [done|].
    destruct (fallback req); [|by apply elem_of_nil in Hin].
    apply list_elem_of_filter in Hin as [_ Hin]. by apply elem_of_available in Hin. }
  assert (length tried ≤ 3) as Hlen.
  { assert (tried ⊆+ [Claude; OpenAI; Bedrock]) as Hsub.
    { apply NoDup_submseteq; [done|].
      intros [] _; [by left|by right; left|by right; right; left]. }
    by apply submseteq_length in Hsub. }
  destruct (events_of_effort req w0 tried Hnd Havail)
    as (Hin & Hout & Hcalls & Hsleep & Hargs).
  split_and!; try done.
  - intros p Hp. rewrite <- Hclients. by apply Havail.
  - lia.
  - lia.
  - lia.
  - intros q args k Hev. rewrite Forall_forall in Hargs.
    rewrite (Hargs _ Hev q args k eq_refl). cbn [gen_args ga_prompt ga_max_tokens
      ga_temperature ga_kwargs ga_model providers w0].
    split_and!; try done. intros Hq.
    pose proof (get_provider_other (provider_name req) (task_type req)
                  (providers w) q) as Hsame.
    rewrite Hroute in Hsame. cbn [fst snd] in Hsame. by rewrite Hsame.
Qed.

End Effort.

Section Frame.

Import LLMManager.

Implicit Types (w : World) (req : Request).

Lemma looked_up_frame (t_get : Z) req w k :
  k ≠ LLMCache._generate_cache_key (prompt req) (task_type req) [] →
  (looked_up t_get req w).2 !! k = cache w !! k.
Proof.
  intros Hk. unfold looked_up. destruct (use_cache req); [|done].
  unfold LLMCache.get.
  destruct (cache w !! _) as [[e|]|]; [|done..].
  destruct (_ >? _)%Z; [|done]. cbn [snd]. by rewrite lookup_delete_ne.
Qed.

Lemma cache_written_frame req (t_set : Z) w r k :
  k ≠ LLMCache._generate_cache_key (prompt req) (task_type req) [] →
  cache (cache_written req t_set w r) !! k = cache w !! k.
Proof.
  intros Hk. unfold cache_written. destruct (use_cache req); [|done].
  cbn [cache]. by apply set_lookup_ne.
Qed.

(** X11. What one [generate] of the manager leaves untouched. It
    changes no client. With [use_cache] cleared it neither reads nor
    writes the cache directory. With [use_cache] set, the only file it
    can delete or write is the one of its own key, and a [generate]
    that raises writes nothing: the directory is as the lookup left
    it. *)
Theorem generate_frame backend (t_get t_set : Z) req w :
  let result := (generate backend t_get t_set req w).1.1 in
  let w' := (generate backend t_get t_set req w).1.2 in
  let cache_key := LLMCache._generate_cache_key (prompt req) (task_type req) [] in
  (∀ q, client (providers w' q) = client (providers w q)) ∧
  (use_cache req = false → cache w' = cache w) ∧
  (∀ k, k ≠ cache_key → cache w' !! k = cache w !! k) ∧
  (∀ e, result = Raise e →
     cache w' = (looked_up t_get req w).2 ∧
     (cache w' = cache w ∨ cache w' = delete cache_key (cache w))) ∧
  (∀ r, result = Return r →
     truthy (looked_up t_get req w).1 = true ∧ cache w' = (looked_up t_get req w).2 ∨
     cache w' = cache (cache_written req t_set
                         {| providers := providers w; cache := (looked_up t_get req w).2 |} r)).
Proof.
  intros result w' cache_key. subst result w'.
  assert ((looked_up t_get req w).2 = cache w ∨
          (looked_up t_get req w).2 = delete cache_key (cache w)) as Hlook.
  { unfold looked_up. destruct (use_cache req); [|by left].
    unfold LLMCache.get. fold cache_key.
    destruct (cache w !! cache_key) as [[e|]|]; [|by left..].
    destruct (_ >? _)%Z; [by right|by left]. }
  assert (use_cache req = false → (looked_up t_get req w).2 = cache w) as Hoff.
  { intros Hoff. unfold looked_up. by rewrite Hoff. }
  destruct (generate_run backend t_get t_set req w)
    as [[Hhit Hrun]|[(_ & _ & _ & Hrun)|
          (provider & ps & tried & Hmiss & Hroute & _ & _ & _ & Hw & _)]].
  - rewrite Hrun. cbn [fst snd providers cache].
    split_and!; [done|exact Hoff|by intros; apply looked_up_frame|by intros e [=]|].
    intros r _. by left.
  - rewrite Hrun. cbn [fst snd providers cache].
    split_and!; [done|exact Hoff|by intros; apply looked_up_frame|by intros e _|by intros r [=]].
  - destruct (get_provider_Some _ _ _ _ _ Hroute) as [_ Hclients].
    rewrite Hw.
    destruct (generate backend t_get t_set req w).1.1 as [r|e].
    + split_and!.
      * intros q. unfold cache_written. destruct (use_cache req); apply Hclients.
      * intros Hc. unfold cache_written. rewrite Hc. cbn [cache]. by apply Hoff.
      * intros k Hk. rewrite cache_written_frame by done. by apply looked_up_frame.
      * done.
      * intros r' [= <-]. right. unfold cache_written. by destruct (use_cache req).
    + cbn [providers cache].
      split_and!; [done|exact Hoff|by intros; apply looked_up_frame|by intros e' _|
        by intros r [=]].
Qed.

End Frame.

Section Configuration.

Import LLMManager.

Implicit Types (w : World) (req : Request).

(** The loop of the executor raises nothing but "All LLM providers
    failed". *)
Lemma try_providers_raise backend req (t_set : Z) candidates :
  ∀ n idx last_error w x,
    (try_providers backend req t_set n idx candidates last_error w).1.1 = Raise x →
    ∃ e, x = all_failed e.
Proof.
  induction candidates as [|p rest IH]; intros n idx last_error w x.
  { cbn [try_providers fst]. intros [= <-]. by eexists. }
  cbn [try_providers].
  destruct (Provider.generate backend p _ _) as [[response|e] evs]; [done|].
  destruct (negb (fallback req) || (idx =? n - 1)%nat).
  { cbn [fst]. intros [= <-]. by eexists. }
  specialize (IH n (S idx) (Some e) w x).
  destruct (try_providers backend req t_set n (S idx) rest (Some e) w) as [[r w'] evs'].
  exact IH.
Qed.

(** X12. When no provider is available and the cache does not answer,
    [generate] raises "No LLM providers available" at once: no provider
    is entered, no backend is called, and the world is as the lookup
    left it. [generate_with_json_parsing] raises the same exception.
    This is the only way to that exception: a [generate] that raises it
    had no provider available. *)
Theorem no_provider_available backend (t_get t_set : Z) req w :
  (available_providers (providers w) = [] →
   truthy (looked_up t_get req w).1 = false →
   generate backend t_get t_set req w
     = (Raise no_providers,
        {| providers := providers w; cache := (looked_up t_get req w).2 |}, []) ∧
   generate_with_json_parsing backend t_get t_set req w
     = (Raise no_providers,
        {| providers := providers w; cache := (looked_up t_get req w).2 |}, [])) ∧
  ((generate backend t_get t_set req w).1.1 = Raise no_providers →
   available_providers (providers w) = [] ∧
   (generate backend t_get t_set req w).2 = []).
Proof.
  destruct (generate_run backend t_get t_set req w)
    as [[Hhit Hrun]|[(Hmiss & _ & Hnone & Hrun)|
          (provider & ps & tried & Hmiss & Hroute & _ & _ & _ & _ & n & idx & Hrun)]].
  - split; [intros _ Hmiss; congruence|]. by rewrite Hrun.
  - split; [|by rewrite Hrun]. intros _ _. split; [done|].
    unfold generate_with_json_parsing. by rewrite Hrun.
  - destruct (get_provider_Some _ _ _ _ _ Hroute) as [Hc Hclients].
    split.
    + intros Hnone. rewrite Hclients in Hc. apply elem_of_available in Hc.
      rewrite Hnone in Hc. by apply elem_of_nil in Hc.
    + rewrite Hrun. intros Hraise.
      apply try_providers_raise in Hraise as [e He].
      by destruct e; vm_compute in He.
Qed.

Lemma no_provider_available_witness :
  generate_with_json_parsing claude_throttled 0 7000000 simple_request (fresh_world no_keys)
    = (Raise no_providers, fresh_world no_keys, []).
Proof.
  destruct (no_provider_available claude_throttled 0 7000000 simple_request
              (fresh_world no_keys)) as [Hnone _].
  destruct Hnone as [_ Hparse]; [by vm_compute..|].
  rewrite Hparse. by vm_compute.
Defined.

End Configuration.

Section ParseAfterCache.

Import LLMManager.

Implicit Types (w : World) (req : Request).

(** A request answered by a provider and cached is answered from the
    cache when it comes again in time. *)
Lemma generate_again_from_cache backend1 backend2 (t1 t1' t2 t2' : Z) req1 req2 w
    (response : option pystr) w1 evs1 :
  prompt req1 = prompt req2 → task_type req1 = task_type req2 →
  use_cache req1 = true → use_cache req2 = true →
  truthy (looked_up t1 req1 w).1 = false →
  generate backend1 t1 t1' req1 w = (Return response, w1, evs1) →
  (t2 - t1' ≤ LLMCache.timedelta_hours 168)%Z →
  LLMCache.read_file
    (LLMCache._generate_cache_key (prompt req2) (task_type req2) []) (cache w1)
    = Some (LLMCache.Entry
              (LLMCache.cache_data_of (prompt req1) (task_type req1) response [] t1')) ∧
  generate backend2 t2 t2' req2 w1 = (Return response, w1, []).
Proof.
  intros Hprompt Htask Hc1 Hc2 Hmiss Hrun Hage.
  destruct (get_provider (provider_name req1) (task_type req1) (providers w))
    as [[p|] ps] eqn:Hroute.
  2: { unfold generate in Hrun. fold (looked_up t1 req1 w) in Hrun.
       destruct (looked_up t1 req1 w) as [c dir]. simpl in Hmiss.
       rewrite Hmiss, Hroute in Hrun. done. }
  rewrite (generate_miss backend1 t1 t1' req1 w p ps Hmiss Hroute) in Hrun.
  apply try_providers_return in Hrun as [-> (q & _ & Hq)].
  assert (truthy response = true) as Htruthy.
  { unfold outcome in Hq.
    destruct (Provider.generate backend1 q _ _) as [r evs] eqn:Hgen.
    simpl in Hq. subst r.
    apply generate_return in Hgen as [_ (text & -> & Hlen)].
    destruct text; [|done]. by vm_compute in Hlen; lia. }
  unfold cache_written. rewrite Hc1. cbn [cache providers].
  rewrite <- Hprompt, <- Htask.
  split; [apply set_lookup|].
  unfold generate. rewrite Hc2. cbn [cache providers].
  rewrite <- Hprompt, <- Htask.
  rewrite (get_entry _ _ _ _ 168 t2 _ (set_lookup _ _ _ _ _ _)).
  cbn [LLMCache.cache_data_of LLMCache.ce_cached_at LLMCache.ce_response].
  destruct (Z.gtb_spec (t2 - t1') (LLMCache.timedelta_hours 168)); [lia|].
  by rewrite Htruthy.
Qed.



End ParseAfterCache.

Section CachedText.

Import LLMManager.

Implicit Types (w : World) (req : Request).

Lemma holds_valid_text_subseteq (dir dir' : LLMCache.CacheDir) :
  (∀ k f, dir' !! k = Some f → dir !! k = Some f) →
  holds_valid_text dir → holds_valid_text dir'.
Proof. intros Hsub Hvalid k e Hk. apply (Hvalid k). by apply Hsub. Qed.

Lemma looked_up_subseteq (t_get : Z) req w k f :
  (looked_up t_get req w).2 !! k = Some f → cache w !! k = Some f.
Proof.
  unfold looked_up. destruct (use_cache req); [|done].
  unfold LLMCache.get. destruct (cache w !! _) as [[e|]|]; [|done..].
  destruct (_ >? _)%Z; [|done]. cbn [snd]. by intros [_ ?]%lookup_delete_Some.
Qed.

(** X19. The manager caches valid text only. If every entry of the
    cache directory holds text of at least 10 characters once stripped,
    as in an empty directory, then this is so after any [generate],
    and after [clear_expired] and [clear_all]; every text that
    [generate] returns, from a provider or from the cache, is such a
    text; and an entry of the request that is not older than 168 hours
    is always returned, without entering a provider. *)
Theorem cache_holds_valid_text backend (t_get t_set : Z) req w :
  holds_valid_text (cache w) →
  let run := generate backend t_get t_set req w in
  holds_valid_text (cache run.1.2) ∧
  (∀ r, run.1.1 = Return r → ∃ text, r = Some text ∧ 10 ≤ length (strip text)) ∧
  (∀ e, use_cache req = true →
     cache w !! LLMCache._generate_cache_key (prompt req) (task_type req) []
       = Some (LLMCache.Entry e) →
     (t_get - LLMCache.ce_cached_at e ≤ LLMCache.timedelta_hours 168)%Z →
     run = (Return (LLMCache.ce_response e), w, [])) ∧
  (∀ max_age_hours now,
     holds_valid_text (LLMCache.clear_expired max_age_hours now (cache w)).2) ∧
  holds_valid_text (LLMCache.clear_all (cache w)).2 ∧
  holds_valid_text ∅.
Proof.
  intros Hvalid run. subst run.
  assert (holds_valid_text (looked_up t_get req w).2) as Hlooked.
  { eapply holds_valid_text_subseteq; [|exact Hvalid]. apply looked_up_subseteq. }
  assert (∀ r, (looked_up t_get req w).1 = r → r ≠ None →
            ∃ text, r = Some text ∧ 10 ≤ length (strip text)) as Hhit.
  { intros r <-. unfold looked_up. destruct (use_cache req); [|done].
    destruct (get_result (prompt req) (task_type req) [] 168 t_get (cache w))
      as [->|(e & Hfile & _ & ->)]; [done|].
    intros _. by eapply Hvalid. }
  split_and!.
  - destruct (generate_run backend t_get t_set req w)
      as [[_ Hrun]|[(_ & _ & _ & Hrun)|
            (p & ps & tried & Hmiss & Hroute & _ & _ & _ & Hworld & n & idx & Hrun)]].
    + by rewrite Hrun.
    + by rewrite Hrun.
    + rewrite Hworld.
      destruct (generate backend t_get t_set req w) as [[[r|e] w'] evs] eqn:Hgen; [|done].
      cbn [fst]. symmetry in Hrun.
      apply try_providers_return in Hrun as [_ (q & _ & Hq)].
      unfold outcome in Hq.
      destruct (Provider.generate backend q _ _) as [r' evs'] eqn:Hq'.
      cbn [fst] in Hq. subst r'. apply generate_return in Hq' as [_ (text & -> & Hlen)].
      unfold cache_written. destruct (use_cache req); [|done]. cbn [cache].
      intros k e. unfold LLMCache.set, LLMCache.dump, LLMCache.open_w.
      destruct (decide (k = LLMCache._generate_cache_key (prompt req) (task_type req) []))
        as [->|Hne].
      * rewrite lookup_insert_eq. intros [= <-]. by exists text.
      * rewrite !lookup_insert_ne by done. apply Hlooked.
  - intros r Hr.
    destruct (generate_run backend t_get t_set req w)
      as [[Htruthy Hrun]|[(_ & _ & _ & Hrun)|
            (p & ps & tried & Hmiss & Hroute & _ & _ & _ & Hworld & n & idx & Hrun)]].
    + rewrite Hrun in Hr. cbn [fst] in Hr. simplify_eq.
      apply (Hhit _ eq_refl). intros Hnone. by rewrite Hnone in Htruthy.
    + by rewrite Hrun in Hr.
    + destruct (generate backend t_get t_set req w) as [[r0 w'] evs] eqn:Hgen.
      cbn [fst] in Hr. subst r0. symmetry in Hrun.
      apply try_providers_return in Hrun as [_ (q & _ & Hq)].
      unfold outcome in Hq.
      destruct (Provider.generate backend q _ _) as [r' evs'] eqn:Hq'.
      cbn [fst] in Hq. subst r'. by apply generate_return in Hq' as [_ ?].
  - intros e Hc Hfile Hage.
    destruct (Hvalid _ _ Hfile) as (text & Htext & Hlen).
    unfold generate. rewrite Hc.
    rewrite (get_entry _ _ _ _ 168 t_get _ Hfile).
    destruct (Z.gtb_spec (t_get - LLMCache.ce_cached_at e) (LLMCache.timedelta_hours 168));
      [lia|].
    rewrite Htext. destruct text as [|c text]; [by vm_compute in Hlen; lia|].
    cbn [truthy]. by destruct w.
  - intros max_age_hours now. eapply holds_valid_text_subseteq; [|exact Hvalid].
    intros k f. unfold LLMCache.clear_expired. rewrite clear_expired_lookup by done.
    destruct (cache w !! k) as [f'|]; [|done]. cbn [mbind option_bind].
    by destruct (cached_before _ f').
  - unfold LLMCache.clear_all. rewrite clear_all_loop_glob by done. by intros k e.
  - by intros k e.
Qed.

Lemma cache_holds_valid_text_witness :
  holds_valid_text
    (cache (generate claude_throttled 0 7000000 simple_request (fresh_world two_keys)).1.2).
Proof.
  destruct (cache_holds_valid_text claude_throttled 0 7000000 simple_request
              (fresh_world two_keys)) as [Hafter _]; [|exact Hafter].
  intros k e Hk. cbn [fresh_world cache] in Hk. by rewrite lookup_empty in Hk.
Defined.

End CachedText.

(** ** The callers of the manager *)

Section ScriptValidation.


Import ScriptGenerator.

Implicit Types (script scene : pyval) (d : pydict).

(** The loop over the required fields, on a [dict]. *)
Lemma check_fields_dict fields d :
  check_fields fields (PDict d) = Ok tt ↔ Forall (λ field, is_Some (dict_get field d)) fields.
Proof.
  induction fields as [|field rest IH]; [done|].
  cbn [check_fields py_contains]. rewrite Forall_cons. case_bool_decide as Hf.
  - rewrite IH. split; [by split|by intros [_ ?]].
  - split; [done|]. by intros [? _].
Qed.

(** What the loop over the required fields answers: nothing, a
    [TypeError], or the [ValueError] that names a field. *)
Lemma check_fields_cases fields script :
  check_fields fields script = Ok tt ∨
  check_fields fields script = Err TypeError ∨
  ∃ field, field ∈ fields ∧
    check_fields fields script = Err (ValueError (py "Script missing required field: " ++ field)).
Proof.
  induction fields as [|field rest IH]; [by left|].
  cbn [check_fields]. destruct (py_contains field script) as [[]|].
  - destruct IH as [?|[?|(f & Hf & ?)]]; [by left|by right; left|].
    right; right. exists f. split; [by right|done].
  - right; right. exists field. split; [by left|done].
  - by right; left.
Qed.

(** The loop over the scenes. *)
Lemma check_scenes_Ok scenes :
  ∀ idx, check_scenes idx scenes = Ok tt ↔ Forall has_text_and_duration scenes.
Proof.
  induction scenes as [|scene rest IH]; intros idx; [done|].
  cbn [check_scenes]. rewrite Forall_cons. unfold has_text_and_duration at 1.
  destruct (py_contains (py "text") scene) as [[]|];
    [|split; [done|by intros [[? _] _]]..].
  destruct (py_contains (py "duration") scene) as [[]|];
    [|split; [done|by intros [[_ ?] _]]..].
  rewrite IH. split; [by split|by intros [_ ?]].
Qed.

(** The first scene that lacks a field is the one reported. *)
Lemma check_scenes_first_missing good scene rest :
  ∀ idx,
    Forall has_text_and_duration good →
    (py_contains (py "text") scene = Some false →
     check_scenes idx (good ++ scene :: rest) =
       Err (ValueError (py "Scene " ++ str_of_int (idx + Z.of_nat (length good))
                        ++ py " missing 'text' field"))) ∧
    (py_contains (py "text") scene = Some true →
     py_contains (py "duration") scene = Some false →
     check_scenes idx (good ++ scene :: rest) =
       Err (ValueError (py "Scene " ++ str_of_int (idx + Z.of_nat (length good))
                        ++ py " missing 'duration' field"))).
Proof.
  induction good as [|g good IH]; intros idx Hgood.
  { cbn [app length check_scenes]. rewrite Z.add_0_r. split.
    - by intros ->.
    - by intros -> ->. }
  apply Forall_cons in Hgood as [[Ht Hd] Hgood].
  cbn [app check_scenes]. rewrite Ht, Hd.
  destruct (IH (idx + 1)%Z Hgood) as [IH1 IH2].
  replace (idx + Z.of_nat (length (g :: good)))%Z
    with (idx + 1 + Z.of_nat (length good))%Z by (cbn [length]; lia).
  done.
Qed.

(** The scripts that [_validate_script] accepts. *)
Lemma validate_script_Ok script : _validate_script script = Ok tt ↔ valid_script script.
Proof.
  unfold _validate_script, valid_script. split.
  - destruct (check_fields required_fields script) as [[]|e] eqn:Hfields; [|done].
    destruct script as [| | | | | |d]; try done.
    apply check_fields_dict in Hfields. cbn [py_getitem].
    destruct (dict_get (py "scenes") d) as [v|] eqn:Hv; [|done].
    destruct v as [| | | | |scenes|]; try done.
    destruct scenes as [|scene rest]; [done|].
    intros Hloop'%check_scenes_Ok. by exists d, (scene :: rest).
  - intros (d & scenes & -> & Hfields & Hv & Hne & Hall).
    rewrite (proj2 (check_fields_dict _ _) Hfields). cbn [py_getitem]. rewrite Hv.
    destruct scenes as [|scene rest]; [done|]. by apply check_scenes_Ok.
Qed.

(** The exceptions that [_validate_script] does not raise. *)
Lemma validate_script_errors script :
  _validate_script script ≠ Err KeyError ∧ _validate_script script ≠ Err AttributeError.
Proof.
  assert (∀ d, Forall (λ f, is_Some (dict_get f d)) required_fields →
            is_Some (dict_get (py "scenes") d)) as Hscenes.
  { intros d Hall. rewrite Forall_forall in Hall. apply Hall.
    unfold required_fields. by right; right; left. }
  assert (∀ idx scenes, check_scenes idx scenes ≠ Err KeyError ∧
                        check_scenes idx scenes ≠ Err AttributeError) as Hloop.
  { intros idx scenes. revert idx.
    induction scenes as [|scene rest IH]; intros idx; [done|].
    cbn [check_scenes].
    destruct (py_contains (py "text") scene) as [[]|]; [|done..].
    destruct (py_contains (py "duration") scene) as [[]|]; [apply IH|done..]. }
  unfold _validate_script.
  destruct (check_fields_cases required_fields script) as [H|[H|(f & _ & H)]];
    rewrite H; [|done..].
  destruct script as [| | | | | |d]; try done.
  apply check_fields_dict, Hscenes in H as [v Hv]. cbn [py_getitem]. rewrite Hv.
  destruct v as [| | | | |[|scene rest]|]; done || apply Hloop.
Qed.

(** X14. [_validate_script] accepts exactly the scripts that are a
    [dict] with the fields "title", "hook", "scenes" and "conclusion",
    whose "scenes" is a list that is not empty and whose scenes all
    contain "text" and "duration". On a [dict], the field reported
    missing is the first one missing in that order, and the scene
    reported is the first one that lacks a field, by its index from 0.
    It never fails with a [KeyError] or an [AttributeError]. *)
Theorem validate_script_accepts_valid_scripts script :
  (_validate_script script = Ok tt ↔ valid_script script) ∧
  (∀ d present field rest,
     script = PDict d → required_fields = present ++ field :: rest →
     Forall (λ f, is_Some (dict_get f d)) present → dict_get field d = None →
     _validate_script script
       = Err (ValueError (py "Script missing required field: " ++ field))) ∧
  (∀ d good scene rest,
     script = PDict d → Forall (λ f, is_Some (dict_get f d)) required_fields →
     dict_get (py "scenes") d = Some (PList (good ++ scene :: rest)) →
     Forall has_text_and_duration good →
     (py_contains (py "text") scene = Some false →
      _validate_script script =
        Err (ValueError (py "Scene " ++ str_of_int (Z.of_nat (length good))
                         ++ py " missing 'text' field"))) ∧
     (py_contains (py "text") scene = Some true →
      py_contains (py "duration") scene = Some false →
      _validate_script script =
        Err (ValueError (py "Scene " ++ str_of_int (Z.of_nat (length good))
                         ++ py " missing 'duration' field")))) ∧
  _validate_script script ≠ Err KeyError ∧
  _validate_script script ≠ Err AttributeError.
Proof.
  split_and!.
  - apply validate_script_Ok.
  - intros d present field rest -> Hsplit Hpresent Hmissing.
    unfold _validate_script. rewrite Hsplit. clear Hsplit.
    induction Hpresent as [|f present Hf Hpresent IH].
    + cbn [app check_fields py_contains]. rewrite Hmissing.
      by rewrite bool_decide_eq_false_2 by (by intros [? ?]).
    + cbn [app check_fields py_contains]. rewrite bool_decide_eq_true_2 by done.
      exact IH.
  - intros d good scene rest -> Hfields Hv Hgood.
    unfold _validate_script.
    rewrite (proj2 (check_fields_dict _ _) Hfields). cbn [py_getitem]. rewrite Hv.
    destruct (check_scenes_first_missing good scene rest 0 Hgood) as [H1 H2].
    rewrite Z.add_0_l in H1, H2.
    destruct (good ++ scene :: rest) as [|s l] eqn:Hl; [by destruct good|].
    done.
  - apply validate_script_errors.
  - apply validate_script_errors.
Qed.

End ScriptValidation.

Section Callers.

Import LLMManager ScriptGenerator TopicSelector.

Implicit Types (w : World) (script topics : pyval).

(** What the validation step lets through. *)
Lemma validated_Ok (log_title : bool) script_json script :
  validated log_title script_json = Ok script ↔ script = script_json ∧ valid_script script_json.
Proof.
  unfold validated.
  pose proof (validate_script_Ok script_json) as Hiff.
  destruct (_validate_script script_json) as [[]|e] eqn:Hv.
  - assert (valid_script script_json) as Hvalid by (by apply Hiff).
    assert ((if log_title
             then match script_json with PDict _ => Ok script_json | _ => Err AttributeError end
             else Ok script_json) = Ok script_json) as ->.
    { destruct log_title; [|done]. by destruct Hvalid as (d & scenes & -> & _). }
    split; [by intros [= <-]|by intros [-> _]].
  - split; [done|]. intros [_ Hvalid]. by apply Hiff in Hvalid.
Qed.

Lemma validated_Err (log_title : bool) script_json e :
  validated log_title script_json = Err e →
  _validate_script script_json = Err e ∧ e ≠ KeyError ∧ e ≠ AttributeError.
Proof.
  unfold validated.
  pose proof (validate_script_Ok script_json) as Hiff.
  destruct (validate_script_errors script_json) as [Hk Ha].
  destruct (_validate_script script_json) as [[]|e'] eqn:Hv.
  - assert (valid_script script_json) as (d & scenes & -> & _) by (by apply Hiff).
    by destruct log_title.
  - intros [= <-]. split; [done|]. split; congruence.
Qed.

(** X15. [generate_script] returns a script only when it is valid: a
    [dict] with the four required fields and a list of scenes that is
    not empty, each scene with "text" and "duration"; it is what the
    salvage parser made of the text that the manager returned for the
    "script_generation" request. Exceptions of the manager are passed
    on as they are, a script that is not valid is a [ValueError] or a
    [TypeError], and the world and the trace are those of the request:
    the text has been cached before it is validated. *)
Theorem generate_script_returns_valid_scripts backend (t_get t_set : Z) (prompt : pystr)
    (provider : option pystr) (use_cache : bool) w :
  let run := generate_script backend t_get t_set prompt provider use_cache w in
  let sent := generate backend t_get t_set (script_request prompt provider use_cache) w in
  run.1.2 = sent.1.2 ∧
  run.2 = sent.2 ∧
  (∀ script, run.1.1 = Ok script →
     valid_script script ∧
     ∃ response, sent.1.1 = Return (Some response) ∧
       parse_json_response response = Return script) ∧
  (∀ e, sent.1.1 = Raise e → run.1.1 = Err (LLMExn e)) ∧
  (∀ response script_json,
     sent.1.1 = Return (Some response) →
     parse_json_response response = Return script_json →
     run.1.1 = match _validate_script script_json with
               | Ok _ => Ok script_json
               | Err e => Err e
               end) ∧
  run.1.1 ≠ Err KeyError ∧ run.1.1 ≠ Err AttributeError.
Proof.
  intros run sent. subst run sent.
  unfold generate_script, generate_with_json_parsing.
  destruct (generate backend t_get t_set (script_request prompt provider use_cache) w)
    as [[[[response|]|e] w'] evs]; cbn [fst snd].
  - destruct (parse_json_response response) as [script_json|e] eqn:Hparse; cbn [fst snd].
    + split_and!; try done.
      * intros script [-> Hvalid]%validated_Ok. split; [done|]. by exists response.
      * intros response' script_json' [= <-]. rewrite Hparse. intros [= <-].
        destruct (validated true script_json) as [script|e] eqn:Hv.
        -- apply validated_Ok in Hv as [-> Hvalid].
           apply validate_script_Ok in Hvalid.
           by rewrite Hvalid.
        -- apply validated_Err in Hv as [-> _]. done.
      * destruct (validated true script_json) as [script|e] eqn:Hv; [done|].
        apply validated_Err in Hv as (_ & ? & _). congruence.
      * destruct (validated true script_json) as [script|e] eqn:Hv; [done|].
        apply validated_Err in Hv as (_ & _ & ?). congruence.
    + split_and!; try done. intros response' script_json' [= <-]. by rewrite Hparse.
  - split_and!; done.
  - split_and!; try done. by intros e' [= <-].
Qed.

(** X16. [refine_script] never uses the cache: it neither reads nor
    writes the cache directory, so its answer always comes from a
    provider. When a provider is available, the provider that
    low-cost routing selects is entered first; when none is, the
    exception is "No LLM providers available". A script is returned
    only when it is valid. *)
Theorem refine_script_bypasses_cache backend (t_get t_set : Z) (prompt : pystr)
    (provider : option pystr) w :
  let run := refine_script backend t_get t_set prompt provider w in
  let routed := get_provider provider (py "refinement") (providers w) in
  cache run.1.2 = cache w ∧
  providers run.1.2 = routed.2 ∧
  head (attempted run.2) = routed.1 ∧
  (available_providers (providers w) ≠ [] → attempted run.2 ≠ []) ∧
  (available_providers (providers w) = [] →
     run = (Err (LLMExn no_providers), w, [])) ∧
  (∀ script, run.1.1 = Ok script → valid_script script).
Proof.
  intros run routed. subst run routed.
  set (req := refinement_request prompt provider).
  assert (looked_up t_get req w = (None, cache w)) as Hlook by done.
  assert ((refine_script backend t_get t_set prompt provider w).1.2
            = (generate backend t_get t_set req w).1.2 ∧
          (refine_script backend t_get t_set prompt provider w).2
            = (generate backend t_get t_set req w).2) as [Hw Hevs].
  { unfold refine_script, generate_with_json_parsing. fold req.
    destruct (generate backend t_get t_set req w) as [[[[response|]|e] w'] evs];
      [by destruct (parse_json_response response)|done..]. }
  assert (∀ script, (refine_script backend t_get t_set prompt provider w).1.1 = Ok script →
            valid_script script) as Hvalid.
  { intros script. unfold refine_script, generate_with_json_parsing. fold req.
    destruct (generate backend t_get t_set req w) as [[[[response|]|e] w'] evs]; [|done..].
    destruct (parse_json_response response) as [v|e]; [|done]. cbn [fst].
    by intros [-> ?]%validated_Ok. }
  rewrite Hw, Hevs.
  destruct (generate_run backend t_get t_set req w)
    as [[Hhit _]|[(_ & Hroute & Hnone & Hrun)|
          (p & ps & tried & _ & Hroute & _ & Hhead & Htried & Hworld & _)]].
  - by rewrite Hlook in Hhit.
  - change (provider_name req) with provider in Hroute.
    change (task_type req) with (py "refinement") in Hroute.
    rewrite Hroute, Hrun, Hlook. cbn [fst snd cache providers].
    split_and!; [done|done|done|done| |done].
    intros _. unfold refine_script, generate_with_json_parsing. fold req.
    rewrite Hrun, Hlook. by destruct w.
  - change (provider_name req) with provider in Hroute.
    change (task_type req) with (py "refinement") in Hroute.
    rewrite Hroute, Htried, Hworld, Hlook, attempted_events_of. cbn [fst snd].
    assert (tried ≠ []) as Hne by (by intros ->).
    split_and!; [|by destruct (generate backend t_get t_set req w).1.1|done|done| |done].
    + by destruct (generate backend t_get t_set req w).1.1.
    + intros Hnone. destruct (get_provider_Some _ _ _ _ _ Hroute) as [Hc Hclients].
      rewrite Hclients in Hc. apply elem_of_available in Hc. rewrite Hnone in Hc.
      by apply elem_of_nil in Hc.
Qed.

(** X17. [generate_topic_ideas] never returns a [dict]: a JSON object
    is wrapped in a list of one item, a JSON array is returned as it
    is. A text that parses to a number, a truth value or null is a
    [TypeError], raised after the text has been cached. The value
    returned is what the salvage parser made of the text that the
    manager returned for a "simple" request with no provider named,
    and the world and the trace are those of that request. *)
Theorem topic_ideas_are_a_list backend (t_get t_set : Z) (prompt : pystr)
    (use_cache : bool) w :
  let run := generate_topic_ideas backend t_get t_set prompt use_cache w in
  let sent := generate backend t_get t_set (topic_request prompt use_cache) w in
  run.1.2 = sent.1.2 ∧
  run.2 = sent.2 ∧
  (∀ topics, run.1.1 = Ok topics →
     ((∃ l, topics = PList l) ∨ (∃ s, topics = PStr s)) ∧
     ∃ response parsed,
       sent.1.1 = Return (Some response) ∧
       parse_json_response response = Return parsed ∧
       (topics = parsed ∨ ∃ d, parsed = PDict d ∧ topics = PList [parsed])) ∧
  (∀ response d,
     sent.1.1 = Return (Some response) → parse_json_response response = Return (PDict d) →
     run.1.1 = Ok (PList [PDict d])) ∧
  (∀ response l,
     sent.1.1 = Return (Some response) → parse_json_response response = Return (PList l) →
     run.1.1 = Ok (PList l)) ∧
  (∀ response parsed,
     sent.1.1 = Return (Some response) → parse_json_response response = Return parsed →
     has_len parsed = false → run.1.1 = Err TypeError) ∧
  (∀ e, sent.1.1 = Raise e → run.1.1 = Err (LLMExn e)).
Proof.
  intros run sent. subst run sent.
  unfold generate_topic_ideas, generate_with_json_parsing.
  destruct (generate backend t_get t_set (topic_request prompt use_cache) w)
    as [[[[response|]|e] w'] evs]; cbn [fst snd].
  - destruct (parse_json_response response) as [parsed|e] eqn:Hparse; cbn [fst snd].
    + split_and!; try done.
      * intros topics Htopics. split.
        -- destruct parsed; simplify_eq; cbn in Htopics; simplify_eq;
             (by left; eexists) || (by right; eexists).
        -- exists response, parsed. split_and!; [done|done|].
           destruct parsed; cbn in Htopics; simplify_eq; (by left) || (right; by eexists).
      * intros response' d [= <-]. rewrite Hparse. by intros [= ->].
      * intros response' l [= <-]. rewrite Hparse. by intros [= ->].
      * intros response' parsed' [= <-]. rewrite Hparse. intros [= <-].
        by destruct parsed.
    + split_and!; try done.
      * intros response' d [= <-]. by rewrite Hparse.
      * intros response' l [= <-]. by rewrite Hparse.
      * intros response' parsed' [= <-]. by rewrite Hparse.
  - split_and!; done.
  - split_and!; try done. by intros e' [= <-].
Qed.

End Callers.

(** ** A retry that succeeds *)

Section RetrySuccess.

Variable backend : Backend.

Implicit Types (p : ProviderKind) (args : GenArgs).

(** X21. A provider that is rate limited on its first attempts and
    then answers valid text returns that text: after [k] rate-limited
    attempts ([k] is 0, 1 or 2) it has called its backend [k + 1]
    times and slept 1 second, then 2 seconds, between the attempts,
    [2 ^ k - 1] seconds in all. What the backend would answer to later
    attempts does not matter: they are not made. *)
Theorem retry_until_success p args (k : nat) (text : pystr) :
  k < Provider.max_retries →
  (∀ j, j < k → rate_limited_at backend p args j) →
  backend p args k = BackendText (Some text) →
  10 ≤ length (strip text) →
  (Provider.generate backend p true args).1 = Return (Some text) ∧
  calls (Provider.generate backend p true args).2 = (λ j, (p, j)) <$> seq 0 (S k) ∧
  sleeps (Provider.generate backend p true args).2 = (λ j, 2 ^ Z.of_nat j)%Z <$> seq 0 k ∧
  total_sleep (Provider.generate backend p true args).2 = (2 ^ Z.of_nat k - 1)%Z ∧
  (∀ backend' : Backend,
     (∀ j, j ≤ k → backend' p args j = backend p args j) →
     Provider.generate backend' p true args = Provider.generate backend p true args).
Proof.
  intros Hk Hlimit Hb Hlen.
  assert (Provider.validate_response (Some text) = true) as Hvalid
    by (by apply validate_response_Some).
  assert (∀ backend' : Backend,
            (∀ j, j ≤ k → backend' p args j = backend p args j) →
            Provider.generate backend' p true args =
              (Return (Some text),
               EvGenerate p ::
               concat ((λ j, [EvCall p args j; EvSleep (2 ^ Z.of_nat j)]) <$> seq 0 k)
               ++ [EvCall p args k])) as Hrun.
  { intros backend' Hsame. rewrite generate_unfold. unfold Provider.max_retries in Hk.
    destruct k as [|[|[|k]]]; [| | |lia].
    - rewrite (retry_loop_text backend' p args 0 _ (Some text))
        by (by rewrite Hsame by lia).
      by rewrite Hvalid.
    - destruct (Hlimit 0) as (e0 & Hb0 & He0); [lia|].
      rewrite (retry_loop_rate_limited backend' p args 0 _ e0); [|by rewrite Hsame by lia|done..].
      rewrite (retry_loop_text backend' p args 1 _ (Some text))
        by (by rewrite Hsame by lia).
      by rewrite Hvalid.
    - destruct (Hlimit 0) as (e0 & Hb0 & He0); [lia|].
      destruct (Hlimit 1) as (e1 & Hb1 & He1); [lia|].
      rewrite (retry_loop_rate_limited backend' p args 0 _ e0); [|by rewrite Hsame by lia|done..].
      rewrite (retry_loop_rate_limited backend' p args 1 _ e1); [|by rewrite Hsame by lia|done..].
      rewrite (retry_loop_text backend' p args 2 _ (Some text))
        by (by rewrite Hsame by lia).
      by rewrite Hvalid. }
  rewrite (Hrun backend) by done. cbn [fst snd].
  unfold Provider.max_retries in Hk.
  split_and!; [done| | | |].
  - by destruct k as [|[|[|k]]]; [| | |lia].
  - by destruct k as [|[|[|k]]]; [| | |lia].
  - by destruct k as [|[|[|k]]]; [| | |lia].
  - intros backend' Hsame. by rewrite (Hrun backend').
Qed.

End RetrySuccess.

Lemma retry_until_success_witness :
  let backend : Backend := λ p args attempt,
    if (attempt <? 2)%nat then BackendRaise throttled else BackendText (Some hook_text) in
  (Provider.generate backend OpenAI true some_args).1 = Return (Some hook_text) ∧
  calls (Provider.generate backend OpenAI true some_args).2
    = [(OpenAI, 0); (OpenAI, 1); (OpenAI, 2)] ∧
  sleeps (Provider.generate backend OpenAI true some_args).2 = [1; 2]%Z ∧
  total_sleep (Provider.generate backend OpenAI true some_args).2 = 3%Z.
Proof.
  intros backend.
  destruct (retry_until_success backend OpenAI some_args 2 hook_text)
    as (Hresult & Hcalls & Hsleeps & Htotal & _).
  - unfold Provider.max_retries. lia.
  - intros j Hj. exists throttled. split; [|done].
    destruct j as [|[|j]]; [reflexivity|reflexivity|lia].
  - reflexivity.
  - vm_compute. lia.
  - by split_and!.
Defined.
